(** * Prompt Manager: a shallow embedding of the client logic and its properties

    The development follows the TypeScript sources of the single-page client:
    - [frontend/src/services/api.ts]: the SSE stream reader [testPromptStream];
    - the playground page ([TestPrompt]): variable extraction, the test button
      handler [handleTest], the history list and [persistHistory];
    - the settings page ([Settings]): [normalizeProviders], [handleSetDefault]
      and [handleRemoveProvider].

    The versioning rule and the diff computation live in the server, whose
    sources are not part of the tree at hand; they are modelled from the
    specification and marked as such.

    JavaScript strings are sequences of UTF-16 code units.  They are embedded
    as [string], read as the code units below 256; the character classes used
    by [trim] and by the regular expression of the playground are those of
    ECMAScript restricted to that range. *)

From Stdlib Require Import String Ascii List ZArith QArith Lia Bool.
From Stdlib Require Import DecimalString DecimalNat.
From stdpp Require Import base list strings pretty gmap.

Local Open Scope nat_scope.
Local Set Warnings "-register-all".

(* ===================================================================== *)
(** * Part I: the embedding                                               *)
(* ===================================================================== *)

(** ** JavaScript string primitives used by the sources *)

Module JS.

(** [WhiteSpace] and [LineTerminator] code units below 256: TAB, LF, VT, FF,
    CR, SP and NBSP.  This is the class stripped by [String.prototype.trim]
    and matched by [\s]. *)
Definition is_space (c : ascii) : bool :=
  match c with
  | "009" | "010" | "011" | "012" | "013" | " " | "160" => true
  | _ => false
  end%char.

(** [LineTerminator] code units below 256: LF and CR.  The pattern [.]
    matches every code unit but these. *)
Definition is_line_terminator (c : ascii) : bool :=
  match c with
  | "010" | "013" => true
  | _ => false
  end%char.

(** A string is falsy exactly when it is empty. *)
Definition truthy (s : string) : bool :=
  match s with
  | EmptyString => false
  | String _ _ => true
  end.

Fixpoint trimStart (s : string) : string :=
  match s with
  | EmptyString => EmptyString
  | String c rest => if is_space c then trimStart rest else s
  end.

Fixpoint trimEnd (s : string) : string :=
  match s with
  | EmptyString => EmptyString
  | String c rest =>
      match trimEnd rest with
      | EmptyString => if is_space c then EmptyString else String c EmptyString
      | rest' => String c rest'
      end
  end.

Definition trim (s : string) : string := trimEnd (trimStart s).

(** [s.startsWith(p)] *)
Fixpoint startsWith (p s : string) : bool :=
  match p, s with
  | EmptyString, _ => true
  | String a p', String b s' => if Ascii.eqb a b then startsWith p' s' else false
  | String _ _, EmptyString => false
  end.

(** [s.substring(n)]: the string without its first [n] code units. *)
Fixpoint substring_from (n : nat) (s : string) : string :=
  match n, s with
  | 0, _ => s
  | S n', String _ rest => substring_from n' rest
  | S _, EmptyString => EmptyString
  end.

(** [s.split(sep)] for a one-character separator: the pieces between the
    separators, the empty string giving one empty piece. *)
Fixpoint split (sep : ascii) (s : string) : list string :=
  match s with
  | EmptyString => [EmptyString]
  | String c rest =>
      if Ascii.eqb c sep then EmptyString :: split sep rest
      else match split sep rest with
           | piece :: pieces => String c piece :: pieces
           | [] => [String c EmptyString]
           end
  end.

Definition LF : ascii := "010"%char.

End JS.

(** ** The settings page: provider lists *)

Module Settings.

Record LLMProvider := mkLLMProvider {
  id : string;
  name : string;
  provider : string;
  api_key : string;
  api_url : option string;
  model : string;
  system_prompt : option string;
  is_default : bool
}.

(** The object spread [{ ...provider, is_default: b }]. *)
Definition with_default (p : LLMProvider) (b : bool) : LLMProvider :=
  {| id := id p; name := name p; provider := provider p;
     api_key := api_key p; api_url := api_url p; model := model p;
     system_prompt := system_prompt p; is_default := b |}.

(** [createEmptyProvider]; the identifier comes from [crypto.randomUUID] or
    the clock, and is an input of the model. *)
Definition createEmptyProvider (fresh_id : string) (isDefault : bool) : LLMProvider :=
  {| id := fresh_id; name := ""; provider := "custom"; api_key := "";
     api_url := Some "https://dashscope.aliyuncs.com/compatible-mode/v1/chat/completions";
     model := ""; system_prompt := Some ""; is_default := isDefault |}.

(** The callback of [providers.map] in [normalizeProviders]; the captured
    variable [defaultAssigned] is threaded through the traversal. *)
Fixpoint normalize_from (index : nat) (defaultAssigned : bool)
    (providers : list LLMProvider) : list LLMProvider :=
  match providers with
  | [] => []
  | p :: rest =>
      if is_default p then
        if defaultAssigned
        then with_default p false :: normalize_from (S index) defaultAssigned rest
        else p :: normalize_from (S index) true rest
      else if negb defaultAssigned && (index =? 0)
        then with_default p true :: normalize_from (S index) true rest
        else p :: normalize_from (S index) defaultAssigned rest
  end.

Definition normalizeProviders (providers : list LLMProvider) : list LLMProvider :=
  if length providers =? 0 then providers else normalize_from 0 false providers.

(** The state updater of [handleSetDefault]. *)
Definition handleSetDefault (target : string) (prev : list LLMProvider) : list LLMProvider :=
  (fun p => with_default p (bool_decide (id p = target))) <$> prev.

(** The state updater of [handleRemoveProvider]. *)
Definition handleRemoveProvider (fresh_id target : string)
    (prev : list LLMProvider) : list LLMProvider :=
  let filtered := filter (fun p => id p ≠ target) prev in
  if length filtered =? 0 then [createEmptyProvider fresh_id true]
  else if negb (existsb is_default filtered)
  then imap (fun index p => if index =? 0 then with_default p true else p) filtered
  else filtered.

(** The state updater of [handleAddProvider]. *)
Definition handleAddProvider (fresh_id : string) (prev : list LLMProvider) : list LLMProvider :=
  prev ++ [createEmptyProvider fresh_id (length prev =? 0)].

(** Number of providers marked as default. *)
Definition default_count (providers : list LLMProvider) : nat :=
  length (filter (fun p => is_default p = true) providers).

(** The first provider marked as default, if any. *)
Definition first_marked (providers : list LLMProvider) : option LLMProvider :=
  List.find is_default providers.

End Settings.

(** ** The API client: reading a streamed test response *)

Module Api.

(** Values returned by [JSON.parse].  A number is kept as the text it was
    written with; the members of an object are kept in source order, a later
    member overriding an earlier one of the same name. *)
Inductive json : Type :=
| JNull
| JBool (b : bool)
| JNumber (lexeme : string)
| JString (s : string)
| JArray (items : list json)
| JObject (members : list (string * json)).

(** [obj.key] on the members of a parsed object: the last member so named. *)
Fixpoint get_member (key : string) (members : list (string * json)) : option json :=
  match members with
  | [] => None
  | (k, v) :: rest =>
      match get_member key rest with
      | Some v' => Some v'
      | None => if String.eqb k key then Some v else None
      end
  end.

(** The test [json && typeof json === 'object' && 'text' in json], returning
    [json.text] when it succeeds.  [null] is falsy, scalars are not objects,
    and an array has no property named [text]. *)
Definition text_member (j : json) : option json :=
  match j with
  | JObject members => get_member "text" members
  | _ => None
  end.

(** A thrown value: [err.name] and [err.message]. *)
Record js_error := mkError { err_name : string; err_message : string }.

(** [new Error(message)] *)
Definition Error (message : string) : js_error :=
  {| err_name := "Error"; err_message := message |}.

(** The rejection caused by [controller.abort()]. *)
Definition AbortError (message : string) : js_error :=
  {| err_name := "AbortError"; err_message := message |}.

(** The calls made to the callbacks handed to [testPromptStream].  The
    callbacks are those of the playground page: state updates that return
    normally, so that a call is an event of the trace and nothing more. *)
Inductive callback : Type :=
| OnData (text : json)
| OnError (message : string)
| OnComplete.

(** Computations that invoke callbacks and either return or throw: the
    callbacks invoked so far, then the result. *)
Definition Exec (A : Type) : Type := list callback * (A + js_error).

Definition ret {A} (a : A) : Exec A := ([], inl a).
Definition throw {A} (e : js_error) : Exec A := ([], inr e).
Definition invoke (c : callback) : Exec unit := ([c], inl tt).

Definition bind {A B} (m : Exec A) (k : A -> Exec B) : Exec B :=
  match m with
  | (calls, inl a) => let '(calls', r) := k a in (calls ++ calls', r)
  | (calls, inr e) => (calls, inr e)
  end.

(** [promise.catch(handler)] *)
Definition catch {A} (m : Exec A) (handler : js_error -> Exec A) : Exec A :=
  match m with
  | (calls, inl a) => (calls, inl a)
  | (calls, inr e) => let '(calls', r) := handler e in (calls ++ calls', r)
  end.

Notation "m ;;; k" := (bind m (fun _ => k))
  (at level 100, k at level 200, right associativity).

(** What the network hands to the reader.  [reads] are the decoded texts of
    the successive [reader.read()] results; the stream then either reports
    [done] or rejects (an abort rejects with an [AbortError]). *)
Inductive read_end : Type :=
| ReadDone
| ReadRejected (e : js_error).

Record body_stream := mkBody { reads : list string; ending : read_end }.

Record response := mkResponse {
  ok : bool;
  statusText : string;
  body : option body_stream
}.

Inductive fetch_result : Type :=
| FetchRejected (e : js_error)
| FetchResolved (r : response).

Section Reader.

(** [JSON.parse], [None] standing for a thrown [SyntaxError]. *)
Variable JSON_parse : string -> option json.

(** The body of the [for (const line of lines)] loop. *)
Definition handleLine (line : string) : Exec unit :=
  let trimmedLine := JS.trim line in
  if negb (JS.truthy trimmedLine) then ret tt
  else if JS.startsWith "data:" trimmedLine then
    let data := JS.substring_from 5 trimmedLine in
    let content :=
      if JS.startsWith " " data then JS.substring_from 1 data else data in
    if JS.truthy content then
      match JSON_parse content with
      | Some j =>
          match text_member j with
          | Some text => invoke (OnData text)
          | None => invoke (OnData (JString content))
          end
      | None => invoke (OnData (JString content))
      end
    else ret tt
  else ret tt.

Fixpoint forLines (lines : list string) : Exec unit :=
  match lines with
  | [] => ret tt
  | line :: rest => handleLine line ;;; forLines rest
  end.

(** The [while (true)] loop over [reader.read()]. *)
Fixpoint readLoop (pending : list string) (final : read_end) : Exec unit :=
  match pending with
  | [] =>
      match final with
      | ReadDone => ret tt
      | ReadRejected e => throw e
      end
  | chunk :: rest =>
      forLines (JS.split JS.LF chunk) ;;; readLoop rest final
  end.

(** The [.then] handler; [onComplete] tells whether the optional completion
    callback was supplied. *)
Definition onResponse (onComplete : bool) (r : response) : Exec unit :=
  if negb (ok r) then throw (Error ("API request failed: " +:+ statusText r))
  else match body r with
       | None => throw (Error "Response body is not readable")
       | Some b =>
           readLoop (reads b) (ending b) ;;;
           if onComplete then invoke OnComplete else ret tt
       end.

(** The [.catch] handler. *)
Definition onRejected (err : js_error) : Exec unit :=
  if String.eqb (err_name err) "AbortError" then ret tt
  else invoke (OnError (err_message err)).

Definition testPromptStream (onComplete : bool) (f : fetch_result) : Exec unit :=
  catch
    (match f with
     | FetchRejected e => throw e
     | FetchResolved r => onResponse onComplete r
     end)
    onRejected.

End Reader.

(** *** A reference [JSON.parse]

    The reader is run on concrete streams with the parser below, written
    after the JSON grammar over the modelled code units (a [u] escape above
    00FF denotes a code unit outside of them and is refused).  The properties of
    the reader are proved for every parser. *)

Definition quote : ascii := "034"%char.
Definition backslash : ascii := "092"%char.

Definition is_json_space (c : ascii) : bool :=
  match c with
  | " " | "009" | "010" | "013" => true
  | _ => false
  end%char.

Fixpoint skip_space (s : string) : string :=
  match s with
  | String c rest => if is_json_space c then skip_space rest else s
  | EmptyString => EmptyString
  end.

Definition is_digit (c : ascii) : bool :=
  (48 <=? nat_of_ascii c) && (nat_of_ascii c <=? 57).

Fixpoint take_digits (s : string) : string * string :=
  match s with
  | String c rest =>
      if is_digit c then let '(ds, after) := take_digits rest in (String c ds, after)
      else (EmptyString, s)
  | EmptyString => (EmptyString, EmptyString)
  end.

Definition parse_fraction (s : string) : option (string * string) :=
  match s with
  | String "." rest =>
      match take_digits rest with
      | (EmptyString, _) => None
      | (ds, after) => Some (String "." ds, after)
      end
  | _ => Some (EmptyString, s)
  end.

Definition parse_exponent (s : string) : option (string * string) :=
  match s with
  | String c rest =>
      if Ascii.eqb c "e" || Ascii.eqb c "E" then
        let '(sign, rest1) :=
          match rest with
          | String "+" r => (String "+" EmptyString, r)
          | String "-" r => (String "-" EmptyString, r)
          | _ => (EmptyString, rest)
          end in
        match take_digits rest1 with
        | (EmptyString, _) => None
        | (ds, after) => Some (String c (sign +:+ ds), after)
        end
      else Some (EmptyString, s)
  | EmptyString => Some (EmptyString, s)
  end.

Definition parse_number (s : string) : option (string * string) :=
  let '(sign, s1) :=
    match s with
    | String "-" r => (String "-" EmptyString, r)
    | _ => (EmptyString, s)
    end in
  match take_digits s1 with
  | (EmptyString, _) => None
  | (String "0" (String _ _), _) => None
  | (int, s2) =>
      match parse_fraction s2 with
      | None => None
      | Some (frac, s3) =>
          match parse_exponent s3 with
          | None => None
          | Some (exp, s4) => Some (sign +:+ int +:+ frac +:+ exp, s4)
          end
      end
  end.

Definition hex_digit (c : ascii) : option nat :=
  let n := nat_of_ascii c in
  if (48 <=? n) && (n <=? 57) then Some (n - 48)
  else if (65 <=? n) && (n <=? 70) then Some (n - 55)
  else if (97 <=? n) && (n <=? 102) then Some (n - 87)
  else None.

Definition simple_escape (c : ascii) : option ascii :=
  match c with
  | "034" => Some "034" | "092" => Some "092" | "/" => Some "/"
  | "b" => Some "008" | "f" => Some "012" | "n" => Some "010"
  | "r" => Some "013" | "t" => Some "009"
  | _ => None
  end%char.

(** The characters of a string literal after its opening quote. *)
Fixpoint parse_string_body (s : string) : option (string * string) :=
  match s with
  | EmptyString => None
  | String c rest =>
      if Ascii.eqb c quote then Some (EmptyString, rest)
      else if Ascii.eqb c backslash then
        match rest with
        | String e rest1 =>
            match simple_escape e with
            | Some ch =>
                match parse_string_body rest1 with
                | Some (chars, after) => Some (String ch chars, after)
                | None => None
                end
            | None =>
                match rest1 with
                | String h1 (String h2 (String h3 (String h4 rest2))) =>
                    match hex_digit h1, hex_digit h2, hex_digit h3, hex_digit h4 with
                    | Some 0, Some 0, Some d3, Some d4 =>
                        if Ascii.eqb e "u" then
                          match parse_string_body rest2 with
                          | Some (chars, after) =>
                              Some (String (ascii_of_nat (16 * d3 + d4)) chars, after)
                          | None => None
                          end
                        else None
                    | _, _, _, _ => None
                    end
                | _ => None
                end
            end
        | EmptyString => None
        end
      else if nat_of_ascii c <? 32 then None
      else match parse_string_body rest with
           | Some (chars, after) => Some (String c chars, after)
           | None => None
           end
  end.

(** Elements separated by commas up to the closing bracket. *)
Fixpoint parse_seq {A} (elem : string -> option (A * string)) (close : ascii)
    (fuel : nat) (s : string) : option (list A * string) :=
  match fuel with
  | 0 => None
  | S fuel' =>
      match elem s with
      | None => None
      | Some (a, rest) =>
          match skip_space rest with
          | String c r =>
              if Ascii.eqb c "," then
                match parse_seq elem close fuel' r with
                | Some (l, after) => Some (a :: l, after)
                | None => None
                end
              else if Ascii.eqb c close then Some ([a], r)
              else None
          | EmptyString => None
          end
      end
  end.

Fixpoint parse_value (fuel : nat) (s : string) : option (json * string) :=
  match fuel with
  | 0 => None
  | S fuel' =>
      let member (m : string) : option ((string * json) * string) :=
        match skip_space m with
        | String q r =>
            if Ascii.eqb q quote then
              match parse_string_body r with
              | Some (key, rest) =>
                  match skip_space rest with
                  | String ":" r' =>
                      match parse_value fuel' r' with
                      | Some (v, after) => Some ((key, v), after)
                      | None => None
                      end
                  | _ => None
                  end
              | None => None
              end
            else None
        | EmptyString => None
        end in
      match skip_space s with
      | EmptyString => None
      | String c r =>
          if Ascii.eqb c "{" then
            match skip_space r with
            | String "}" after => Some (JObject [], after)
            | _ =>
                match parse_seq member "}" (String.length r) r with
                | Some (ms, after) => Some (JObject ms, after)
                | None => None
                end
            end
          else if Ascii.eqb c "[" then
            match skip_space r with
            | String "]" after => Some (JArray [], after)
            | _ =>
                match parse_seq (parse_value fuel') "]" (String.length r) r with
                | Some (items, after) => Some (JArray items, after)
                | None => None
                end
            end
          else if Ascii.eqb c quote then
            match parse_string_body r with
            | Some (chars, after) => Some (JString chars, after)
            | None => None
            end
          else if JS.startsWith "true" (String c r)
            then Some (JBool true, JS.substring_from 4 (String c r))
          else if JS.startsWith "false" (String c r)
            then Some (JBool false, JS.substring_from 5 (String c r))
          else if JS.startsWith "null" (String c r)
            then Some (JNull, JS.substring_from 4 (String c r))
          else match parse_number (String c r) with
               | Some (lexeme, after) => Some (JNumber lexeme, after)
               | None => None
               end
      end
  end.

(** The nesting depth of a text is below its length. *)
Definition JSON_parse (text : string) : option json :=
  match parse_value (S (String.length text)) text with
  | Some (j, rest) =>
      match skip_space rest with
      | EmptyString => Some j
      | String _ _ => None
      end
  | None => None
  end.

(** The callbacks invoked by a run, in order. *)
Definition calls {A} (m : Exec A) : list callback := fst m.

(** The arguments of the [onData] calls of a trace, in order. *)
Fixpoint data_of (trace : list callback) : list json :=
  match trace with
  | [] => []
  | OnData text :: rest => text :: data_of rest
  | _ :: rest => data_of rest
  end.

Definition is_complete (c : callback) : bool :=
  match c with OnComplete => true | _ => false end.

Definition is_error (c : callback) : bool :=
  match c with OnError _ => true | _ => false end.

(** Number of [onComplete] calls of a trace. *)
Definition completions (trace : list callback) : nat :=
  length (List.filter is_complete trace).

(** The lines that arrive on a response, in arrival order: those of each
    read, read after read (the reader splits every read on its own, so a line
    cut by the boundary between two reads counts as two).  A response that is
    refused has none. *)
Definition arrived_lines (f : fetch_result) : list string :=
  match f with
  | FetchResolved r =>
      if ok r then
        match body r with
        | Some b => flat_map (JS.split JS.LF) (reads b)
        | None => []
        end
      else []
  | FetchRejected _ => []
  end.

(** The stream ended normally: the response was accepted and every read
    succeeded up to [done]. *)
Definition ends_normally (f : fetch_result) : bool :=
  match f with
  | FetchResolved r =>
      ok r && match body r with
              | Some b => match ending b with ReadDone => true | _ => false end
              | None => false
              end
  | FetchRejected _ => false
  end.

(** The error that ends the exchange, if one does. *)
Definition failure_of (f : fetch_result) : option js_error :=
  match f with
  | FetchRejected e => Some e
  | FetchResolved r =>
      if negb (ok r) then Some (Error ("API request failed: " +:+ statusText r))
      else match body r with
           | None => Some (Error "Response body is not readable")
           | Some b => match ending b with
                       | ReadDone => None
                       | ReadRejected e => Some e
                       end
           end
  end.

Definition is_abort (e : js_error) : bool := String.eqb (err_name e) "AbortError".

(** The payload of a [data:] line as the reader sees it: the text after the
    colon of the trimmed line. *)
Definition after_colon (line : string) : option string :=
  let trimmedLine := JS.trim line in
  if JS.startsWith "data:" trimmedLine
  then Some (JS.substring_from 5 trimmedLine) else None.

(** The payload of a [data:] line: the text after the colon, less one
    leading space when there is one. *)
Definition payload_of (data : string) : string :=
  if JS.startsWith " " data then JS.substring_from 1 data else data.

(** What a line hands to [onData], if anything: nothing for a line that is
    not a [data:] line or whose payload is empty; the [text] member when the
    payload is a JSON object that has one; the payload itself otherwise. *)
Definition delivered (parse : string -> option json) (line : string) : option json :=
  match after_colon line with
  | None => None
  | Some data =>
      let content := payload_of data in
      if JS.truthy content then
        match parse content with
        | Some j => Some (default (JString content) (text_member j))
        | None => Some (JString content)
        end
      else None
  end.

(** The callback that closes an exchange: completion after a normal end,
    the error callback after a failure, nothing after an abort. *)
Definition closing (onComplete : bool) (f : fetch_result) : list callback :=
  match failure_of f with
  | None => if onComplete then [OnComplete] else []
  | Some e => if is_abort e then [] else [OnError (err_message e)]
  end.

(** *** Sample inputs *)

Definition envelope_data : string :=
  " {" +:+ String quote "text" +:+ String quote ":"
  +:+ String quote "hi" +:+ String quote "}".

Definition envelope_line : string := "data:" +:+ envelope_data.

Definition sample_stream : fetch_result :=
  FetchResolved (mkResponse true "OK"
    (Some (mkBody [envelope_line +:+ String JS.LF "data:plain"; "data: "] ReadDone))).

End Api.

(** ** The playground page *)

Module Playground.

Inductive Role : Type := system | user | assistant.

Record Message := mkMessage {
  msg_id : string;
  role : Role;
  content : string
}.

(** A message of a stored test session, as the server returns it. *)
Record PromptTestHistoryMessage := mkHistoryMessage {
  hm_id : option string;
  hm_role : string;
  hm_content : string
}.

(** A stored test session.  Only the fields read by the modelled handlers
    are kept; the token and cost estimates are floating-point labels that no
    handler branches on. *)
Record PromptTestHistory := mkHistory {
  h_id : string;
  h_title : option string;
  h_messages : list PromptTestHistoryMessage;
  h_response : option string;
  h_variable_prefix : option string;
  h_variable_suffix : option string
}.

Global Instance Role_eq_dec : EqDecision Role.
Proof. solve_decision. Defined.
Global Instance Message_eq_dec : EqDecision Message.
Proof. solve_decision. Defined.
Global Instance PromptTestHistoryMessage_eq_dec : EqDecision PromptTestHistoryMessage.
Proof. solve_decision. Defined.
Global Instance PromptTestHistory_eq_dec : EqDecision PromptTestHistory.
Proof. solve_decision. Defined.

(** *** Variable extraction

    The effect builds the regular expression
    [escapedPrefix \s* (.+?) \s* escapedSuffix] with the [g] flag.
    [escapeRegExp] makes both delimiters literal.  The functions below follow
    the backtracking order of the pattern, each one returning what remains of
    the input after the part it matched. *)

(** A literal: [s] without its leading [p], when [s] starts with [p]. *)
Fixpoint strip (p s : string) : option string :=
  match p, s with
  | EmptyString, _ => Some s
  | String a p', String b s' => if Ascii.eqb a b then strip p' s' else None
  | String _ _, EmptyString => None
  end.

(** [\s*] then the suffix: the white space is taken greedily and given back
    one character at a time. *)
Fixpoint space_then_suffix (suffix s : string) : option string :=
  match s with
  | String c rest =>
      if JS.is_space c then
        match space_then_suffix suffix rest with
        | Some after => Some after
        | None => strip suffix s
        end
      else strip suffix s
  | EmptyString => strip suffix s
  end.

(** The rest of [(.+?)] once its first character is taken: stop as soon as
    the remainder of the pattern matches, else take one more character that
    is not a line terminator. *)
Fixpoint lazy_more (suffix s : string) : option (string * string) :=
  match space_then_suffix suffix s with
  | Some after => Some (EmptyString, after)
  | None =>
      match s with
      | String c rest =>
          if JS.is_line_terminator c then None
          else match lazy_more suffix rest with
               | Some (cap, after) => Some (String c cap, after)
               | None => None
               end
      | EmptyString => None
      end
  end.

(** [(.+?)] and what follows it: the capture and the text after the match. *)
Definition capture_then (suffix s : string) : option (string * string) :=
  match s with
  | String c rest =>
      if JS.is_line_terminator c then None
      else match lazy_more suffix rest with
           | Some (cap, after) => Some (String c cap, after)
           | None => None
           end
  | EmptyString => None
  end.

(** The leading [\s*], greedy, then the capture. *)
Fixpoint space_then_capture (suffix s : string) : option (string * string) :=
  match s with
  | String c rest =>
      if JS.is_space c then
        match space_then_capture suffix rest with
        | Some r => Some r
        | None => capture_then suffix s
        end
      else capture_then suffix s
  | EmptyString => None
  end.

(** A match of the whole pattern starting at the head of [s]. *)
Definition match_at (prefix suffix s : string) : option (string * string) :=
  match strip prefix s with
  | Some r => space_then_capture suffix r
  | None => None
  end.

(** [globalRegex.exec(content)] from the current [lastIndex], [s] being the
    text from there on: the leftmost match, its capture, and the text after
    it (from where the next call searches). *)
Fixpoint exec (prefix suffix s : string) : option (string * string) :=
  match match_at prefix suffix s with
  | Some r => Some r
  | None =>
      match s with
      | String _ rest => exec prefix suffix rest
      | EmptyString => None
      end
  end.

(** [vars.add(x)] on a [Set], kept in insertion order. *)
Definition add (x : string) (vars : list string) : list string :=
  if bool_decide (x ∈ vars) then vars else vars ++ [x].

(** The [while ((match = globalRegex.exec(...)) !== null)] loop; [match[1]]
    is never empty, so the guard [if (match[1])] always passes. *)
Fixpoint exec_loop (fuel : nat) (prefix suffix s : string)
    (vars : list string) : list string :=
  match fuel with
  | 0 => vars
  | S fuel' =>
      match exec prefix suffix s with
      | None => vars
      | Some (cap, after) =>
          exec_loop fuel' prefix suffix after (add (JS.trim cap) vars)
      end
  end.

(** One message: every match consumes at least one character, so the length
    of the content bounds the number of iterations. *)
Definition extract_message (prefix suffix : string) (vars : list string)
    (msg : Message) : list string :=
  exec_loop (String.length (content msg)) prefix suffix (content msg) vars.

(** The extraction effect: [None] is the early [return], which leaves the
    [variables] state as it was; [Some vars] is [setVariables(Array.from(vars))]. *)
Definition extractVariables (messages : list Message)
    (variablePrefix variableSuffix : string) : option (list string) :=
  if negb (JS.truthy variablePrefix) || negb (JS.truthy variableSuffix)
  then None
  else Some (foldl (extract_message variablePrefix variableSuffix) [] messages).

(** *** The component state

    [response] is the state as of the last render.  A call of
    [setResponse] does not change it: React queues the update and applies
    the queue, in order, when it renders next.  [setResponse(value)] queues
    a replacement; the updater that [onData] passes, [prev => prev + text],
    is queued as it is and writes the buffer [responseRef.current] when it
    runs. *)
Inductive ResponseUpdate : Type :=
| Replace (value : string)
| Append (text : string).

Record State := mkState {
  id : option string;
  messages : list Message;
  response : string;
  responseRef : string;
  loading : bool;
  streamAbort : option nat;
  variables : list string;
  variablePrefix : string;
  variableSuffix : string;
  providers : list Settings.LLMProvider;
  providerLoading : bool;
  histories : list PromptTestHistory;
  selectedHistoryId : option string;
  historyError : option string;
  responseQueue : list ResponseUpdate
}.

Definition set_messages (v : list Message) (s : State) : State :=
  mkState (id s) v (response s) (responseRef s) (loading s) (streamAbort s)
    (variables s) (variablePrefix s) (variableSuffix s) (providers s)
    (providerLoading s) (histories s) (selectedHistoryId s) (historyError s)
    (responseQueue s).

Definition set_response (v : string) (s : State) : State :=
  mkState (id s) (messages s) v (responseRef s) (loading s) (streamAbort s)
    (variables s) (variablePrefix s) (variableSuffix s) (providers s)
    (providerLoading s) (histories s) (selectedHistoryId s) (historyError s)
    (responseQueue s).

Definition set_responseRef (v : string) (s : State) : State :=
  mkState (id s) (messages s) (response s) v (loading s) (streamAbort s)
    (variables s) (variablePrefix s) (variableSuffix s) (providers s)
    (providerLoading s) (histories s) (selectedHistoryId s) (historyError s)
    (responseQueue s).

Definition set_loading (v : bool) (s : State) : State :=
  mkState (id s) (messages s) (response s) (responseRef s) v (streamAbort s)
    (variables s) (variablePrefix s) (variableSuffix s) (providers s)
    (providerLoading s) (histories s) (selectedHistoryId s) (historyError s)
    (responseQueue s).

Definition set_streamAbort (v : option nat) (s : State) : State :=
  mkState (id s) (messages s) (response s) (responseRef s) (loading s) v
    (variables s) (variablePrefix s) (variableSuffix s) (providers s)
    (providerLoading s) (histories s) (selectedHistoryId s) (historyError s)
    (responseQueue s).

Definition set_variables (v : list string) (s : State) : State :=
  mkState (id s) (messages s) (response s) (responseRef s) (loading s)
    (streamAbort s) v (variablePrefix s) (variableSuffix s) (providers s)
    (providerLoading s) (histories s) (selectedHistoryId s) (historyError s)
    (responseQueue s).

Definition set_variablePrefix (v : string) (s : State) : State :=
  mkState (id s) (messages s) (response s) (responseRef s) (loading s)
    (streamAbort s) (variables s) v (variableSuffix s) (providers s)
    (providerLoading s) (histories s) (selectedHistoryId s) (historyError s)
    (responseQueue s).

Definition set_variableSuffix (v : string) (s : State) : State :=
  mkState (id s) (messages s) (response s) (responseRef s) (loading s)
    (streamAbort s) (variables s) (variablePrefix s) v (providers s)
    (providerLoading s) (histories s) (selectedHistoryId s) (historyError s)
    (responseQueue s).

Definition set_providers (v : list Settings.LLMProvider) (s : State) : State :=
  mkState (id s) (messages s) (response s) (responseRef s) (loading s)
    (streamAbort s) (variables s) (variablePrefix s) (variableSuffix s) v
    (providerLoading s) (histories s) (selectedHistoryId s) (historyError s)
    (responseQueue s).

Definition set_providerLoading (v : bool) (s : State) : State :=
  mkState (id s) (messages s) (response s) (responseRef s) (loading s)
    (streamAbort s) (variables s) (variablePrefix s) (variableSuffix s)
    (providers s) v (histories s) (selectedHistoryId s) (historyError s)
    (responseQueue s).

Definition set_histories (v : list PromptTestHistory) (s : State) : State :=
  mkState (id s) (messages s) (response s) (responseRef s) (loading s)
    (streamAbort s) (variables s) (variablePrefix s) (variableSuffix s)
    (providers s) (providerLoading s) v (selectedHistoryId s) (historyError s)
    (responseQueue s).

Definition set_selectedHistoryId (v : option string) (s : State) : State :=
  mkState (id s) (messages s) (response s) (responseRef s) (loading s)
    (streamAbort s) (variables s) (variablePrefix s) (variableSuffix s)
    (providers s) (providerLoading s) (histories s) v (historyError s)
    (responseQueue s).

Definition set_historyError (v : option string) (s : State) : State :=
  mkState (id s) (messages s) (response s) (responseRef s) (loading s)
    (streamAbort s) (variables s) (variablePrefix s) (variableSuffix s)
    (providers s) (providerLoading s) (histories s) (selectedHistoryId s) v
    (responseQueue s).

Definition set_responseQueue (v : list ResponseUpdate) (s : State) : State :=
  mkState (id s) (messages s) (response s) (responseRef s) (loading s)
    (streamAbort s) (variables s) (variablePrefix s) (variableSuffix s)
    (providers s) (providerLoading s) (histories s) (selectedHistoryId s)
    (historyError s) v.

(** [setResponse(value)] *)
Definition setResponse (value : string) (s : State) : State :=
  set_responseQueue (responseQueue s ++ [Replace value]) s.

(** One queued update as React runs it: the state that results, and the
    buffer, which only the updater of [onData] writes. *)
Definition run_update (acc : string * string) (u : ResponseUpdate) : string * string :=
  match u with
  | Replace value => (value, snd acc)
  | Append text => (fst acc +:+ text, fst acc +:+ text)
  end.

(** A render of the page: the queued updates run in order, and when
    [response] has changed the effect [responseRef.current = response] runs
    after them.  The effect is taken to run with the render, before the
    next event. *)
Definition rendered (s : State) : State :=
  let next := foldl run_update (response s, responseRef s) (responseQueue s) in
  let buffer := if decide (fst next = response s) then snd next else fst next in
  set_responseQueue [] (set_responseRef buffer (set_response (fst next) s)).

(** The state on mount, for the route parameter [id]. *)
Definition initial (route_id : option string) : State :=
  {| id := route_id;
     messages := [mkMessage "system-1" system ""; mkMessage "user-1" user ""];
     response := ""; responseRef := ""; loading := false; streamAbort := None;
     variables := []; variablePrefix := "{{"; variableSuffix := "}}";
     providers := []; providerLoading := true;
     histories := []; selectedHistoryId := None; historyError := None;
     responseQueue := [] |}.

(** The extraction effect, run after a render in which [messages] or a
    delimiter changed. *)
Definition variables_effect (s : State) : State :=
  match extractVariables (messages s) (variablePrefix s) (variableSuffix s) with
  | Some vars => set_variables vars s
  | None => s
  end.

(** *** History list *)

(** The retention count written in [persistHistory] and in the request of
    [loadTestHistories]. *)
Definition HISTORY_LIMIT : nat := 30.

(** The updater passed to [setHistories] once a session is saved. *)
Definition histories_after_save (saved : PromptTestHistory)
    (prev : list PromptTestHistory) : list PromptTestHistory :=
  let filtered := filter (fun item => h_id item ≠ h_id saved) prev in
  take HISTORY_LIMIT (saved :: filtered).

(** The request body built by [persistHistory]. *)
Record SavePayload := mkPayload {
  p_prompt_id : string;
  p_messages : list Message;
  p_response : string;
  p_variable_prefix : string;
  p_variable_suffix : string
}.

(** What [handleTest] captures for the completion callback. *)
Record Snapshot := mkSnapshot {
  snap_messages : list Message;
  snap_prefix : string;
  snap_suffix : string
}.

(** [persistHistory] up to its [await]: the guard, then the request (the
    token count and the cost estimate of the request body are labels; the
    tokenizer is taken to return normally). *)
Definition persistHistory_request (s : State) (snap : Snapshot)
    (finalResponse : string) : option SavePayload :=
  match id s with
  | None => None
  | Some prompt_id =>
      if negb (JS.truthy prompt_id) || negb (JS.truthy (JS.trim finalResponse))
      then None
      else Some (mkPayload prompt_id (snap_messages snap) finalResponse
                   (snap_prefix snap) (snap_suffix snap))
  end.

(** [persistHistory] after its [await] resolved with [saved]. *)
Definition persistHistory_saved (saved : PromptTestHistory) (s : State) : State :=
  set_historyError None
    (set_selectedHistoryId (Some (h_id saved))
       (set_histories (histories_after_save saved (histories s)) s)).

(** *** Identifiers derived from the clock *)

Definition role_name (r : Role) : string :=
  match r with
  | system => "system"
  | user => "user"
  | assistant => "assistant"
  end.

(** The template [`${role}-${timestamp + index}`]. *)
Definition stamped_id (r : Role) (timestamp : N) (index : nat) : string :=
  role_name r +:+ "-" +:+ pretty (timestamp + N.of_nat index)%N.

(** [messages.map((msg, index) => ({ ...msg, id: msg.id || ... }))] *)
Definition snapshot_messages (timestamp : N) (msgs : list Message) : list Message :=
  imap (fun index msg =>
          if JS.truthy (msg_id msg) then msg
          else mkMessage (stamped_id (role msg) timestamp index) (role msg) (content msg))
       msgs.

Definition normalizeHistoryMessages (now : N)
    (historyMessages : list PromptTestHistoryMessage) : list Message :=
  if length historyMessages =? 0 then
    [mkMessage ("system-" +:+ pretty now) system "";
     mkMessage ("user-" +:+ pretty (now + 1)%N) user ""]
  else
    imap (fun index msg =>
            let r := if String.eqb (hm_role msg) "system" then system
                     else if String.eqb (hm_role msg) "assistant" then assistant
                     else user in
            let given := default "" (hm_id msg) in
            mkMessage (if JS.truthy given then given else stamped_id r now index)
                      r (hm_content msg))
         historyMessages.

(** *** The page as a transition system

    A stream is live from the call of [testPromptStream] until its reader
    stops: by completion, by an error, or because its [AbortController] was
    fired.  The reader invokes callbacks only while it runs, and none once
    aborted (see [Api.testPromptStream]). *)

Record Stream := mkStream { handle : nat; snapshot : Snapshot }.

Record World := mkWorld {
  ui : State;
  live : list Stream;
  next_handle : nat;
  pending_saves : nat;
  save_log : list SavePayload
}.

Definition with_ui (s : State) (w : World) : World :=
  mkWorld s (live w) (next_handle w) (pending_saves w) (save_log w).

Definition init_world (route_id : option string) : World :=
  mkWorld (initial route_id) [] 0 0 [].

Definition find_stream (h : nat) (w : World) : option Stream :=
  List.find (fun st => handle st =? h) (live w).

(** Firing the [AbortController] of stream [h], or the end of its reader. *)
Definition drop_stream (h : nat) (streams : list Stream) : list Stream :=
  filter (fun st => handle st ≠ h) streams.

(** What can happen to the mounted page: the clicks and edits of the user,
    the callbacks of a live stream, the replies of the server, and the
    renders of React.  A stored session can be replayed when it is shown in
    the list.  [StreamData] is a call of [onData] whose updater waits for the
    next render, [StreamDataNow] one whose updater React runs at once. *)
Inductive Event : Type :=
| ClickTest (now : N)
| StreamData (h : nat) (text : string)
| StreamError (h : nat) (error : string)
| StreamComplete (h : nat)
| SaveResolved (saved : PromptTestHistory)
| SaveRejected
| HistoriesLoaded (data : option (list PromptTestHistory))
| HistoriesFailed
| HistorySelect (history : PromptTestHistory) (now : N)
| StartNewTest
| HistoryRenamed (updated : PromptTestHistory)
| HistoryDeleted (hid : string) (selected_at_click : option string)
| SetMessages (msgs : list Message)
| SetVariablePrefix (p : string)
| SetVariableSuffix (p : string)
| ProvidersLoaded (list : list Settings.LLMProvider)
| ProvidersFailed
| Render
| StreamDataNow (h : nat) (text : string).

(** [handleTest] *)
Definition handleTest (now : N) (w : World) : World :=
  let s := ui w in
  if loading s then
    let streams :=
      match streamAbort s with
      | Some h => drop_stream h (live w)
      | None => live w
      end in
    mkWorld (set_loading false (set_streamAbort None s))
            streams (next_handle w) (pending_saves w) (save_log w)
  else if negb (providerLoading s) && (length (providers s) =? 0) then w
  else
    let snap := mkSnapshot (snapshot_messages now (messages s))
                           (variablePrefix s) (variableSuffix s) in
    let s1 := set_selectedHistoryId None
                (set_responseRef "" (setResponse "" (set_loading true s))) in
    let h := next_handle w in
    mkWorld (set_streamAbort (Some h) s1)
            (mkStream h snap :: live w) (S h) (pending_saves w) (save_log w).

(** The [onData] callback of [handleTest]: it hands an updater to
    [setResponse], and the updater, not the callback, writes the buffer. *)
Definition onData (text : string) (s : State) : State :=
  set_responseQueue (responseQueue s ++ [Append text]) s.

(** The same callback when React runs the updater at once, which it may do
    while no update is queued: the updater sees the rendered [response] and
    writes the buffer, and its result is queued as the next state. *)
Definition onData_now (text : string) (s : State) : State :=
  let next := response s +:+ text in
  set_responseRef next (set_responseQueue [Replace next] s).

(** The [onError] callback of [handleTest]. *)
Definition onError (s : State) : State :=
  set_streamAbort None (set_loading false s).

(** The [onComplete] callback of [handleTest], up to the [await] inside
    [persistHistory]. *)
Definition onComplete (snap : Snapshot) (w : World) : World :=
  let s := set_streamAbort None (set_loading false (ui w)) in
  match persistHistory_request s snap (responseRef s) with
  | Some payload =>
      mkWorld s (live w) (next_handle w) (S (pending_saves w))
              (save_log w ++ [payload])
  | None => with_ui s w
  end.

Definition handleHistorySelect (history : PromptTestHistory) (now : N)
    (s : State) : State :=
  let restoredResponse := default "" (h_response history) in
  set_responseRef restoredResponse
    (setResponse restoredResponse
       (set_variableSuffix (default (variableSuffix s) (h_variable_suffix history))
          (set_variablePrefix (default (variablePrefix s) (h_variable_prefix history))
             (set_messages (normalizeHistoryMessages now (h_messages history))
                (set_selectedHistoryId (Some (h_id history)) s))))).

Definition handleStartNewTest (s : State) : State :=
  set_responseRef "" (setResponse "" (set_selectedHistoryId None s)).

(** [handleHistoryDelete], once the request succeeded;
    [selected_at_click] is the [selectedHistoryId] the handler closed over. *)
Definition historyDeleted (hid : string) (selected_at_click : option string)
    (s : State) : State :=
  let s1 := set_histories (filter (fun item => h_id item ≠ hid) (histories s)) s in
  if bool_decide (selected_at_click = Some hid)
  then set_responseRef "" (setResponse "" (set_selectedHistoryId None s1))
  else s1.

(** [handleHistoryTitleSave], once the request succeeded. *)
Definition historyRenamed (updated : PromptTestHistory) (s : State) : State :=
  set_histories
    ((fun item => if bool_decide (h_id item = h_id updated) then updated else item)
       <$> histories s) s.

Definition has_route_id (s : State) : bool :=
  match id s with
  | Some prompt_id => JS.truthy prompt_id
  | None => false
  end.

(** One transition; [None] when the event cannot occur in [w]. *)
Definition step (w : World) (e : Event) : option World :=
  let s := ui w in
  match e with
  | ClickTest now => Some (handleTest now w)
  | StreamData h text =>
      match find_stream h w with
      | Some _ => Some (with_ui (onData text s) w)
      | None => None
      end
  | StreamError h _ =>
      match find_stream h w with
      | Some _ =>
          Some (mkWorld (onError s) (drop_stream h (live w)) (next_handle w)
                        (pending_saves w) (save_log w))
      | None => None
      end
  | StreamComplete h =>
      match find_stream h w with
      | Some st =>
          Some (onComplete (snapshot st)
                  (mkWorld s (drop_stream h (live w)) (next_handle w)
                           (pending_saves w) (save_log w)))
      | None => None
      end
  | SaveResolved saved =>
      match pending_saves w with
      | S n =>
          Some (mkWorld (persistHistory_saved saved s) (live w) (next_handle w)
                        n (save_log w))
      | 0 => None
      end
  | SaveRejected =>
      match pending_saves w with
      | S n => Some (mkWorld s (live w) (next_handle w) n (save_log w))
      | 0 => None
      end
  | HistoriesLoaded data =>
      if has_route_id s
      then Some (with_ui (set_histories (default [] data) (set_historyError None s)) w)
      else None
  | HistoriesFailed =>
      if has_route_id s
      then Some (with_ui (set_historyError (Some "历史记录加载失败，请稍后重试") s) w)
      else None
  | HistorySelect history now =>
      if bool_decide (history ∈ histories s)
      then Some (with_ui (variables_effect (handleHistorySelect history now s)) w)
      else None
  | StartNewTest => Some (with_ui (handleStartNewTest s) w)
  | HistoryRenamed updated => Some (with_ui (historyRenamed updated s) w)
  | HistoryDeleted hid sel => Some (with_ui (historyDeleted hid sel s) w)
  | SetMessages msgs => Some (with_ui (variables_effect (set_messages msgs s)) w)
  | SetVariablePrefix p =>
      Some (with_ui (variables_effect (set_variablePrefix p s)) w)
  | SetVariableSuffix p =>
      Some (with_ui (variables_effect (set_variableSuffix p s)) w)
  | ProvidersLoaded list =>
      Some (with_ui (set_providerLoading false (set_providers list s)) w)
  | ProvidersFailed => Some (with_ui (set_providerLoading false s) w)
  | Render => Some (with_ui (rendered s) w)
  | StreamDataNow h text =>
      match find_stream h w, responseQueue s with
      | Some _, [] => Some (with_ui (onData_now text s) w)
      | _, _ => None
      end
  end.

(** The events that can put text into a blank response buffer: a chunk of
    the stream, whose updater runs at once or with a later render, and the
    replay of a stored session. *)
Definition writes_response (e : Event) : bool :=
  match e with
  | StreamData _ _ | StreamDataNow _ _ | Render | HistorySelect _ _ => true
  | _ => false
  end.

(** The events that bring text: a chunk of the stream, and the replay of a
    stored session. *)
Definition brings_response (e : Event) : bool :=
  match e with
  | StreamData _ _ | StreamDataNow _ _ | HistorySelect _ _ => true
  | _ => false
  end.

(** Whether a queued update is the updater of a chunk. *)
Definition queues_chunk (u : ResponseUpdate) : bool :=
  match u with
  | Append _ => true
  | Replace _ => false
  end.

(** The response that the next render will show. *)
Definition pending_response (s : State) : string :=
  fst (foldl run_update (response s, responseRef s) (responseQueue s)).

(** The buffer is blank and no render can fill it: no chunk waits in the
    queue, and the queue leaves the rendered response as it is or leaves a
    blank one. *)
Definition blank_pending (s : State) : Prop :=
  JS.trim (responseRef s) = "" /\
  Forall (fun u => queues_chunk u = false) (responseQueue s) /\
  (pending_response s = response s \/ JS.trim (pending_response s) = "").

(** The states the page can be in after it is mounted on a route. *)
Inductive reachable (route_id : option string) : World -> Prop :=
| reachable_init : reachable route_id (init_world route_id)
| reachable_step w e w' :
    reachable route_id w -> step w e = Some w' -> reachable route_id w'.

(** The run of a list of events, stopping at the first that cannot occur. *)
Fixpoint run (w : World) (events : list Event) : option World :=
  match events with
  | [] => Some w
  | e :: rest =>
      match step w e with
      | Some w' => run w' rest
      | None => None
      end
  end.

(** *** Invariant of the transition system

    The abort handle kept in the state is the handle of the one live stream,
    if there is one, and [loading] tells whether there is one. *)
Definition stream_invariant (w : World) : Prop :=
  handle <$> live w = option_list (streamAbort (ui w))
  /\ loading (ui w) = bool_decide (is_Some (streamAbort (ui w))).

(** Sample inputs. *)
Definition numbered_history (n : nat) : PromptTestHistory :=
  mkHistory (pretty n) None [] (Some "answer") None None.

Definition earlier_session : PromptTestHistory :=
  mkHistory "h1" (Some "first try")
    [mkHistoryMessage (Some "user-1") "user" "What is the capital of France?"]
    (Some "Paris.") None None.

(** A test started while [earlier_session] is listed, the replay of that
    session during the test, and the end of the stream with no chunk
    received. *)
Definition replay_during_test : list Event :=
  [HistoriesLoaded (Some [earlier_session]);
   ProvidersLoaded [Settings.mkLLMProvider "prov-1" "Qwen" "aliyun" "key" None
                      "qwen-turbo" None true];
   ClickTest 7; HistorySelect earlier_session 8; StreamComplete 0].

(** *** Describing placeholders *)

Fixpoint all_chars (P : ascii -> bool) (s : string) : bool :=
  match s with
  | EmptyString => true
  | String c rest => P c && all_chars P rest
  end.

Definition all_space : string -> bool := all_chars JS.is_space.
Definition single_line : string -> bool :=
  all_chars (fun c => negb (JS.is_line_terminator c)).

(** What the pattern recognises in [text]: the prefix, white space, a
    non-empty capture free of line terminators, white space, the suffix.
    The name is the trimmed capture. *)
Definition placeholder (prefix suffix text name : string) : Prop :=
  exists pre ws1 cap ws2 post,
    text = pre +:+ prefix +:+ ws1 +:+ cap +:+ ws2 +:+ suffix +:+ post
    /\ all_space ws1 = true /\ all_space ws2 = true
    /\ cap ≠ "" /\ single_line cap = true
    /\ name = JS.trim cap /\ name = JS.trim (ws1 +:+ cap +:+ ws2).

(** The words of the specification: [name] is the text between an
    occurrence of the prefix and the nearest following occurrence of the
    suffix, with the surrounding white space trimmed. *)
Definition between_delimiters (prefix suffix text name : string) : Prop :=
  exists pre body post,
    text = pre +:+ prefix +:+ body +:+ suffix +:+ post
    /\ (forall body' post',
          body +:+ suffix +:+ post = body' +:+ suffix +:+ post' ->
          String.length body <= String.length body')
    /\ name = JS.trim body.

(** A template written the usual way: literal text and placeholders
    [prefix ws name ws suffix]. *)
Inductive Segment : Type :=
| Text (t : string)
| Placeholder (ws1 name ws2 : string).

Definition render_segment (prefix suffix : string) (seg : Segment) : string :=
  match seg with
  | Text t => t
  | Placeholder ws1 name ws2 => prefix +:+ ws1 +:+ name +:+ ws2 +:+ suffix
  end.

Fixpoint render (prefix suffix : string) (segs : list Segment) : string :=
  match segs with
  | [] => ""
  | seg :: rest => render_segment prefix suffix seg +:+ render prefix suffix rest
  end.

Fixpoint names (segs : list Segment) : list string :=
  match segs with
  | [] => []
  | Text _ :: rest => names rest
  | Placeholder _ name _ :: rest => name :: names rest
  end.

Definition first_char (s : string) : option ascii :=
  match s with
  | EmptyString => None
  | String c _ => Some c
  end.

Definition avoids (c : option ascii) (s : string) : bool :=
  match c with
  | Some c => all_chars (fun x => negb (Ascii.eqb x c)) s
  | None => true
  end.

(** A segment is plain when its text does not use the first character of
    the prefix, and its name is not empty, has no white space at either end,
    holds no line terminator and does not use the first character of the
    suffix; white space inside the name is allowed. *)
Definition plain_segment (prefix suffix : string) (seg : Segment) : bool :=
  match seg with
  | Text t => avoids (first_char prefix) t
  | Placeholder ws1 name ws2 =>
      all_space ws1 && all_space ws2 && JS.truthy name
      && String.eqb (JS.trim name) name && single_line name
      && avoids (first_char suffix) name
  end.

(** Delimiters fit for plain templates: both non-empty, the suffix not
    starting with white space. *)
Definition plain_delimiters (prefix suffix : string) : bool :=
  JS.truthy prefix &&
  match first_char suffix with
  | Some c => negb (JS.is_space c)
  | None => false
  end.

Definition plain_template (prefix suffix : string) (segs : list Segment) : bool :=
  forallb (plain_segment prefix suffix) segs.

(** Sample inputs. *)
Definition multiline_name : string := "a" +:+ String JS.LF "b".
Definition multiline_content : string := "{{" +:+ multiline_name +:+ "}}".
Definition greeting_template : list Segment :=
  [Text "Dear "; Placeholder " " "name" " "; Text ", your order ";
   Placeholder "" "order_id" ""; Text " is ready, "; Placeholder "" "name" ""].

(** The distinct elements of a list, in order of first occurrence: what a
    [Set] filled from the list holds. *)
Definition distinct (l : list string) : list string :=
  foldl (fun vars x => add x vars) [] l.

(** *** The extraction as the specification words it

    The definitions below do not follow the code but the sentence of the
    specification: a message is read from left to right; a placeholder
    starts at the first occurrence of the prefix and ends at the nearest
    following occurrence of the suffix; its name is the text between them
    with the surrounding white space trimmed; reading goes on after the
    suffix. *)

(** The first occurrence of [pattern] in [s]: the text before it and the
    text after it. *)
Fixpoint cut_at (pattern s : string) : option (string * string) :=
  match strip pattern s with
  | Some after => Some (EmptyString, after)
  | None =>
      match s with
      | String c rest =>
          match cut_at pattern rest with
          | Some (before, after) => Some (String c before, after)
          | None => None
          end
      | EmptyString => None
      end
  end.

(** The texts between a prefix and the nearest following suffix, from left
    to right.  Each one takes at least one character of [s] with it, so the
    length of [s] is fuel enough. *)
Fixpoint spec_bodies (fuel : nat) (prefix suffix s : string) : list string :=
  match fuel with
  | 0 => []
  | S fuel' =>
      match cut_at prefix s with
      | None => []
      | Some (_, opened) =>
          match cut_at suffix opened with
          | None => []
          | Some (body, after) => body :: spec_bodies fuel' prefix suffix after
          end
      end
  end.

Definition spec_message_bodies (prefix suffix : string) (msg : Message) : list string :=
  spec_bodies (String.length (content msg)) prefix suffix (content msg).

(** The distinct trimmed bodies of all messages, in order of first
    occurrence. *)
Definition spec_names (prefix suffix : string) (msgs : list Message) : list string :=
  distinct (JS.trim <$> concat (spec_message_bodies prefix suffix <$> msgs)).

(** A body that names a variable on one line: its trimmed text is not empty
    and holds no line terminator. *)
Definition readable_body (body : string) : bool :=
  JS.truthy (JS.trim body) && single_line (JS.trim body).

(** Sample inputs. *)
Definition spaced_content : string := " a  b c ".
Definition blank_then_more : string := "{{ }}x}}".
Definition spaced_names_content : string := "Dear {{ first name }}, {{x}} and {{ y}}".

End Playground.

(** ** The versioning rule and the prompt update (server side) *)

Module Versioning.

Inductive Bump : Type := major | minor | patch | none.

Record Version := mkVersion { v_major : nat; v_minor : nat; v_patch : nat }.

(** A numeric component: a non-empty run of decimal digits. *)
Definition parse_component (s : string) : option nat :=
  option_map Nat.of_uint (NilZero.uint_of_string s).

Definition format_component (n : nat) : string :=
  NilZero.string_of_uint (Nat.to_uint n).

(** Modelled from the spec: the well-formed version strings of the version
    service (not in the tree), read off the example "1.2.3": exactly three
    numeric components separated by dots. *)
Definition parse_version (s : string) : option Version :=
  match JS.split "." s with
  | [a; b; c] =>
      match parse_component a, parse_component b, parse_component c with
      | Some x, Some y, Some z => Some (mkVersion x y z)
      | _, _, _ => None
      end
  | _ => None
  end.

Definition format_version (v : Version) : string :=
  format_component (v_major v) +:+ "." +:+ format_component (v_minor v)
  +:+ "." +:+ format_component (v_patch v).

(** Modelled from the spec: the bump rule of the version service (not in
    the tree): increment the component named by the bump kind, zero the lower
    ones. *)
Definition next_version (v : Version) (kind : Bump) : Version :=
  match kind with
  | major => mkVersion (S (v_major v)) 0 0
  | minor => mkVersion (v_major v) (S (v_minor v)) 0
  | patch => mkVersion (v_major v) (v_minor v) (S (v_patch v))
  | none => v
  end.

(** Precedence of versions: major, then minor, then patch. *)
Definition version_lt (a b : Version) : Prop :=
  v_major a < v_major b
  \/ (v_major a = v_major b
      /\ (v_minor a < v_minor b
          \/ (v_minor a = v_minor b /\ v_patch a < v_patch b))).

(** An error response: HTTP status and human-readable message. *)
Record ApiError := mkApiError { status : nat; message : string }.

(** Modelled from the spec: the version service of the server (its sources
    are not in the tree).  "Given a current version string and a bump kind
    (major/minor/patch/none), produce the next version by incrementing the
    corresponding numeric component and zeroing lower components; none leaves
    the version unchanged.  Malformed existing versions fail the operation
    rather than guessing", as a validation failure, which "surfaces as a 4xx
    response with a human-readable message". *)
Definition bump_version (current : string) (kind : Bump) : ApiError + string :=
  match parse_version current with
  | None => inl (mkApiError 400 ("malformed version: " +:+ current))
  | Some v =>
      inr (match kind with
           | none => current
           | _ => format_version (next_version v kind)
           end)
  end.

Record Prompt := mkPrompt {
  id : string;
  project_id : string;
  name : string;
  version : string;
  content : string;
  description : string;
  category : option string
}.

Record PromptHistory := mkPromptHistory {
  prompt_id : string;
  operation : string;
  old_content : string;
  new_content : string
}.

(** The document store: prompts by identifier, and the append-only log. *)
Record Store := mkStore {
  prompts : gmap string Prompt;
  history : list PromptHistory
}.

(** The body of [PUT /prompts/{id}] (see [updatePrompt] in the client). *)
Record UpdateRequest := mkUpdateRequest {
  req_content : option string;
  req_description : option string;
  req_category : option string;
  req_bump : Bump
}.

(** Modelled from the spec: the update handler of the server (its sources
    are not in the tree).  The stored prompt is replaced as a whole with its
    next version, and a history entry records the content transition ("none"
    still records one); a validation failure answers with the error and
    writes nothing. *)
Definition update_prompt (store : Store) (target : string) (req : UpdateRequest)
    : Store * (ApiError + Prompt) :=
  match prompts store !! target with
  | None => (store, inl (mkApiError 404 "prompt not found"))
  | Some p =>
      match bump_version (version p) (req_bump req) with
      | inl err => (store, inl err)
      | inr next =>
          let p' := mkPrompt (id p) (project_id p) (name p) next
                      (default (content p) (req_content req))
                      (default (description p) (req_description req))
                      (match req_category req with
                       | Some c => Some c
                       | None => category p
                       end) in
          (mkStore (<[target := p']> (prompts store))
                   (history store
                      ++ [mkPromptHistory target "update" (content p) (content p')]),
           inr p')
      end
  end.

(** Digits only: no dot occurs. *)
Fixpoint dot_free (s : string) : bool :=
  match s with
  | EmptyString => true
  | String c rest => negb (Ascii.eqb c ".") && dot_free rest
  end.

End Versioning.

(** ** The diff of two contents (server side) *)

Module Diff.

Inductive Op : Type :=
| Equal (unit : string)
| Insert (unit : string)
| Delete (unit : string).

Definition is_insert (o : Op) : bool := match o with Insert _ => true | _ => false end.
Definition is_delete (o : Op) : bool := match o with Delete _ => true | _ => false end.
Definition is_change (o : Op) : bool := match o with Equal _ => false | _ => true end.

(** Number of changed units of an edit script. *)
Definition cost (ops : list Op) : nat := length (List.filter is_change ops).

(** Modelled from the spec: the text-diff algorithm the diff service (not
    in the tree) delegates to: a shortest edit script between two sequences
    of units, deletions preferred on ties. *)
Fixpoint diff_units (old new : list string) : list Op :=
  match old with
  | [] => Insert <$> new
  | x :: xs =>
      (fix against (new : list string) : list Op :=
         match new with
         | [] => Delete <$> old
         | y :: ys =>
             if String.eqb x y then Equal x :: diff_units xs ys
             else
               let deletion := Delete x :: diff_units xs new in
               let insertion := Insert y :: against ys in
               if cost deletion <=? cost insertion then deletion else insertion
         end) new
  end.

Record DiffResult := mkDiffResult {
  additions : nat;
  deletions : nat;
  change_rate : Q;
  diff_html : string
}.

Definition render_op (o : Op) : string :=
  match o with
  | Equal u => "<span>" +:+ u +:+ "</span>"
  | Insert u => "<ins>" +:+ u +:+ "</ins>"
  | Delete u => "<del>" +:+ u +:+ "</del>"
  end.

Fixpoint concat_with (sep : string) (parts : list string) : string :=
  match parts with
  | [] => ""
  | [p] => p
  | p :: rest => p +:+ sep +:+ concat_with sep rest
  end.

(** Modelled from the spec: the change rate of the diff service (not in the
    tree): changed units over total units, zero when there is no unit. *)
Definition rate (changed total : nat) : Q :=
  if total =? 0 then 0%Q else Qred (Z.of_nat changed # Pos.of_nat total).

(** Modelled from the spec: the diff service of the server (its sources are
    not in the tree).  "Given old and new content strings, compute a
    line/word-level diff, derive addition/deletion counts and a change-rate
    ratio (changed units over total units), and render an HTML fragment
    highlighting insertions and deletions."  The units are the words of the
    contents. *)
Definition compute_diff (old new : string) : DiffResult :=
  let ops := diff_units (String.words old) (String.words new) in
  let added := length (List.filter is_insert ops) in
  let removed := length (List.filter is_delete ops) in
  mkDiffResult added removed (rate (added + removed) (length ops))
               (concat_with " " (render_op <$> ops)).

End Diff.

(** ** The playground page: titles, previews and pattern escaping *)

Module Titles.

(** [text.slice(0, n)]: the first [n] code units. *)
Fixpoint slice_to (n : nat) (s : string) : string :=
  match n, s with
  | 0, _ => EmptyString
  | S n', String c rest => String c (slice_to n' rest)
  | S _, EmptyString => EmptyString
  end.

(** An element of the message list handed to the title builders:
    [{ role: string; content?: string }]. *)
Record Entry := mkEntry { e_role : string; e_content : option string }.

Definition HISTORY_TITLE_LIMIT : nat := 30.

(** [text.length > n ? `${text.slice(0, n)}...` : text] *)
Definition ellipsis (n : nat) (text : string) : string :=
  if n <? String.length text then slice_to n text +:+ "..." else text.

(** [(entry.content || '').trim()] *)
Definition entry_text (e : Entry) : string := JS.trim (default "" (e_content e)).

(** The loop of [buildHistoryTitle]: the trimmed content of the first entry
    of role user whose trimmed content is not empty. *)
Fixpoint first_user_text (messageList : list Entry) : option string :=
  match messageList with
  | [] => None
  | entry :: rest =>
      if String.eqb (e_role entry) "user" then
        if JS.truthy (entry_text entry) then Some (entry_text entry)
        else first_user_text rest
      else first_user_text rest
  end.

(** [buildHistoryTitle]; [timestamp] is the text produced by
    [toLocaleString] for the creation time or for the clock.  The default
    label is a run of characters outside the modelled code units, kept as
    written. *)
Definition buildHistoryTitle (messageList : option (list Entry))
    (fallbackLabel : option string) (timestamp : string) : string :=
  match messageList ≫= first_user_text with
  | Some text => ellipsis HISTORY_TITLE_LIMIT text
  | None =>
      let given := default "" fallbackLabel in
      let base := if JS.truthy given then given else "测试记录" in
      base +:+ " · " +:+ timestamp
  end.

(** [messageList.find(msg => msg.role === 'user' && (msg.content || '').trim())] *)
Definition find_user_entry (messageList : list Entry) : option Entry :=
  List.find (fun msg => String.eqb (e_role msg) "user" && JS.truthy (entry_text msg))
            messageList.

(** [buildHistoryPreview] *)
Definition buildHistoryPreview (messageList : option (list Entry)) : string :=
  match messageList with
  | None | Some [] => "无内容"
  | Some (first :: rest) =>
      let source := default first (find_user_entry (first :: rest)) in
      let text := entry_text source in
      if negb (JS.truthy text) then "无内容" else ellipsis 60 text
  end.

(** The characters of the class [[.*+?^${}()|[\]\\]]. *)
Definition is_syntax (c : ascii) : bool :=
  match c with
  | "." | "*" | "+" | "?" | "^" | "$" | "{" | "}" | "(" | ")" | "|" | "["
  | "]" | "092" => true
  | _ => false
  end%char.

(** [escapeRegExp]: [string.replace(/[.*+?^${}()|[\]\\]/g, '\\$&')]. *)
Fixpoint escapeRegExp (s : string) : string :=
  match s with
  | EmptyString => EmptyString
  | String c rest =>
      if is_syntax c then String "092" (String c (escapeRegExp rest))
      else String c (escapeRegExp rest)
  end.

(** The string a pattern source stands for when it is made of pattern
    characters and escaped syntax characters only; [None] when it holds a
    bare syntax character or a backslash before anything else (which would
    be a class or control escape). *)
Fixpoint pattern_literal (source : string) : option string :=
  match source with
  | EmptyString => Some EmptyString
  | String c rest =>
      if Ascii.eqb c "092" then
        match rest with
        | String d rest' =>
            if is_syntax d then
              match pattern_literal rest' with
              | Some s => Some (String d s)
              | None => None
              end
            else None
        | EmptyString => None
        end
      else if is_syntax c then None
      else match pattern_literal rest with
           | Some s => Some (String c s)
           | None => None
           end
  end.

(** Sample inputs. *)
Definition long_question : string :=
  "   Please summarise the quarterly report in three sentences.  ".

(** The entries passed over by the title loop: not of role user, or blank. *)
Definition skipped (e : Entry) : Prop := e_role e ≠ "user" \/ entry_text e = "".


(** [getHistoryTitle]: the stored title, trimmed, unless it is missing or
    blank; else the title built from the messages, with
    [provider_name || model] as the label. *)
Definition getHistoryTitle (title : option string) (messageList : option (list Entry))
    (provider_name model : option string) (timestamp : string) : string :=
  let own := JS.trim (default "" title) in
  if JS.truthy own then own
  else buildHistoryTitle messageList
         (if JS.truthy (default "" provider_name) then provider_name else model)
         timestamp.

End Titles.

(** ** The playground page: editing the message list *)

Module Editing.
Import Playground.

(** [items.splice(index, 0, item)]: the start is clamped to the length. *)
Definition insert_at {A} (index : nat) (item : A) (items : list A) : list A :=
  take index items ++ item :: drop index items.

(** [handleDragEnd]: [None] is the early [return] (no destination) and
    leaves [messages] as it was.  The drag library reports the index of a
    rendered message; for an index past the end [splice] would remove nothing
    and the second [splice] would insert [undefined], which is no message:
    that case is outside of the result type and given as [None] too. *)
Definition handleDragEnd (source : nat) (destination : option nat)
    (messages : list Message) : option (list Message) :=
  match destination with
  | None => None
  | Some dest =>
      match messages !! source with
      | Some reorderedItem => Some (insert_at dest reorderedItem (delete source messages))
      | None => None
      end
  end.




(** The updater of [loadPrompt], given the content of the fetched prompt.
    The code writes the content into the first message object itself, which
    the array of the previous state shares; the model gives the new state. *)
Definition loadPrompt (prompt_content : string) (now : N) (prev : list Message)
    : list Message :=
  match prev with
  | first :: rest =>
      match role first with
      | system => mkMessage (msg_id first) system prompt_content :: rest
      | _ => mkMessage ("system-" +:+ pretty now) system prompt_content :: prev
      end
  | [] => [mkMessage ("system-" +:+ pretty now) system prompt_content]
  end.

(** The request body of a saved session stores each message as
    [{ id, role, content }]; the server hands them back as history messages. *)
Definition to_history_message (m : Message) : PromptTestHistoryMessage :=
  mkHistoryMessage (Some (msg_id m)) (role_name (role m)) (content m).


End Editing.

(** ** The playground page: substituting the variables before sending *)

Module Substitution.
Import Playground.

(** [\s*] then the rest [k] of a pattern: the white space is taken greedily
    and given back one character at a time. *)
Fixpoint spaces_then (k : string -> option string) (s : string) : option string :=
  match s with
  | String c rest =>
      if JS.is_space c then
        match spaces_then k rest with
        | Some after => Some after
        | None => k s
        end
      else k s
  | EmptyString => k s
  end.

(** A match of [escapedPrefix \s* escapedName \s* escapedSuffix] at the head
    of [s]: the text after the match. *)
Definition match_variable_at (prefix name suffix s : string) : option string :=
  match strip prefix s with
  | Some r =>
      spaces_then
        (fun r' => match strip name r' with
                   | Some r'' => space_then_suffix suffix r''
                   | None => None
                   end) r
  | None => None
  end.

(** The replacement text of [String.prototype.replace] for a pattern
    without groups: [$$] is a dollar sign, [$&] the matched text, [$`] the
    text before the match, [$'] the text after it; any other dollar sign
    stands for itself. *)
Fixpoint expand (template matched before after : string) : string :=
  match template with
  | EmptyString => EmptyString
  | String c rest =>
      if Ascii.eqb c "$" then
        match rest with
        | String d rest' =>
            if Ascii.eqb d "$" then String "$" (expand rest' matched before after)
            else if Ascii.eqb d "&" then matched +:+ expand rest' matched before after
            else if Ascii.eqb d "`" then before +:+ expand rest' matched before after
            else if Ascii.eqb d "'" then after +:+ expand rest' matched before after
            else String "$" (expand rest matched before after)
        | EmptyString => String "$" EmptyString
        end
      else String c (expand rest matched before after)
  end.

(** [content.replace(regex, value)] for the global pattern of one variable:
    the matches are taken from left to right without overlap, [before] being
    the text already passed.  The page builds the pattern only with a
    non-empty prefix, so no match is empty: every step passes at least one
    character and the length of the text bounds the number of steps. *)
Fixpoint replace_loop (fuel : nat) (prefix name suffix value : string)
    (before s : string) : string :=
  match fuel with
  | 0 => s
  | S fuel' =>
      match s with
      | EmptyString => EmptyString
      | String c rest =>
          match match_variable_at prefix name suffix s with
          | Some after =>
              let matched :=
                Titles.slice_to (String.length s - String.length after) s in
              expand value matched before after
              +:+ replace_loop fuel' prefix name suffix value (before +:+ matched) after
          | None =>
              String c (replace_loop fuel' prefix name suffix value
                          (before +:+ String c EmptyString) rest)
          end
      end
  end.

Definition replace_variable (prefix suffix : string) (content name value : string)
    : string :=
  replace_loop (String.length content) prefix name suffix value EmptyString content.

(** The names that the object [variableValues] inherits from
    [Object.prototype].  For such a name without a value of its own,
    [variableValues[v]] is not a string but an inherited method (or the
    prototype), which [replace] would call or convert. *)
Definition inherited (name : string) : bool :=
  existsb (String.eqb name)
    ["constructor"; "__proto__"; "hasOwnProperty"; "isPrototypeOf";
     "propertyIsEnumerable"; "toLocaleString"; "toString"; "valueOf";
     "__defineGetter__"; "__defineSetter__"; "__lookupGetter__";
     "__lookupSetter__"].

(** [variableValues[v]] is the value kept for [v], or [undefined]. *)
Definition plain_lookup (variableValues : gmap string string) (v : string) : bool :=
  negb (inherited v) || bool_decide (is_Some (variableValues !! v)).

(** The body of the [map] that builds [apiMessages] in [handleTest]:
    [variables.forEach] rewrites the content one variable after the other,
    with [variableValues[v] || ''].  The values are read as the map of the
    keys that the object holds itself: this is what the code reads for every
    variable with [plain_lookup]. *)
Definition substitute (variablePrefix variableSuffix : string)
    (variables : list string) (variableValues : gmap string string)
    (content : string) : string :=
  if JS.truthy variablePrefix && JS.truthy variableSuffix then
    foldl (fun newContent v =>
             replace_variable variablePrefix variableSuffix newContent v
               (default "" (variableValues !! v)))
          content variables
  else content.

(** A message as it is sent: [{ role, content }]. *)
Record ApiMessage := mkApiMessage { api_role : Role; api_content : string }.

Definition apiMessages (variablePrefix variableSuffix : string)
    (variables : list string) (variableValues : gmap string string)
    (messageSnapshot : list Message) : list ApiMessage :=
  (fun m => mkApiMessage (role m)
              (substitute variablePrefix variableSuffix variables variableValues
                          (content m)))
    <$> messageSnapshot.

(** *** Templates whose substitution can be read off

    The delimiters fit when the prefix is not empty and holds no white
    space, and the suffix does not start with white space and does not use
    the first character of the prefix. *)
Definition chars_avoid (chars s : string) : bool :=
  all_chars (fun c => all_chars (fun x => negb (Ascii.eqb c x)) chars) s.

Definition fit_delimiters (prefix suffix : string) : bool :=
  plain_delimiters prefix suffix
  && all_chars (fun c => negb (JS.is_space c)) prefix
  && avoids (first_char prefix) suffix.

(** A word: not empty, without white space, using neither a character of
    the prefix nor the first character of the suffix. *)
Definition fit_word (prefix suffix name : string) : bool :=
  JS.truthy name
  && all_chars (fun c => negb (JS.is_space c)) name
  && avoids (first_char suffix) name
  && chars_avoid prefix name.

Definition fit_segment (prefix suffix : string) (seg : Segment) : bool :=
  match seg with
  | Text t => avoids (first_char prefix) t
  | Placeholder ws1 name ws2 =>
      all_space ws1 && all_space ws2 && fit_word prefix suffix name
  end.

(** A value that is inserted as it is: without dollar sign, and not using
    the first character of the prefix. *)
Definition fit_value (prefix value : string) : bool :=
  avoids (Some "$"%char) value && avoids (first_char prefix) value.

(** A variable whose value is read and inserted as it is. *)
Definition usable_value (prefix : string) (variableValues : gmap string string)
    (v : string) : bool :=
  plain_lookup variableValues v
  && fit_value prefix (default "" (variableValues !! v)).

(** What the substitution makes of a segment: a placeholder of a listed
    variable becomes its value. *)
Definition fill_segment (variables : list string)
    (variableValues : gmap string string) (seg : Segment) : Segment :=
  match seg with
  | Text t => Text t
  | Placeholder ws1 name ws2 =>
      if bool_decide (name ∈ variables)
      then Text (default "" (variableValues !! name))
      else seg
  end.

(** The text of a template once every placeholder has its value. *)
Fixpoint filled (variableValues : gmap string string) (segs : list Segment) : string :=
  match segs with
  | [] => ""
  | Text t :: rest => t +:+ filled variableValues rest
  | Placeholder _ name _ :: rest =>
      default "" (variableValues !! name) +:+ filled variableValues rest
  end.

(** Sample inputs. *)
Definition greeting_values : gmap string string :=
  {[ "name" := "Ada"; "order_id" := "#42" ]}.

End Substitution.

(** ** The settings page: its handlers as actions on the provider list *)

Module SettingsPage.
Import Settings.

(** What [fetchProviders] puts into the state: the list received when it
    is not empty, else (also when the request failed, [None]) one empty
    provider marked as default. *)
Definition fetchProviders (result : option (list LLMProvider)) (fresh_id : string)
    : list LLMProvider :=
  match result with
  | Some result =>
      if length result =? 0 then [createEmptyProvider fresh_id true] else result
  | None => [createEmptyProvider fresh_id true]
  end.

(** The fields that the form edits through [updateProviderField]. *)
Inductive Field : Type :=
| f_name | f_provider | f_api_url | f_api_key | f_model | f_system_prompt.

(** The object spread [{ ...provider, [field]: value }]. *)
Definition with_field (p : LLMProvider) (field : Field) (value : string) : LLMProvider :=
  match field with
  | f_name => mkLLMProvider (id p) value (provider p) (api_key p) (api_url p)
                (model p) (system_prompt p) (is_default p)
  | f_provider => mkLLMProvider (id p) (name p) value (api_key p) (api_url p)
                    (model p) (system_prompt p) (is_default p)
  | f_api_url => mkLLMProvider (id p) (name p) (provider p) (api_key p) (Some value)
                   (model p) (system_prompt p) (is_default p)
  | f_api_key => mkLLMProvider (id p) (name p) (provider p) value (api_url p)
                   (model p) (system_prompt p) (is_default p)
  | f_model => mkLLMProvider (id p) (name p) (provider p) (api_key p) (api_url p)
                 value (system_prompt p) (is_default p)
  | f_system_prompt => mkLLMProvider (id p) (name p) (provider p) (api_key p)
                         (api_url p) (model p) (Some value) (is_default p)
  end.

(** The state updater of [updateProviderField]. *)
Definition updateProviderField (target : string) (field : Field) (value : string)
    (prev : list LLMProvider) : list LLMProvider :=
  (fun p => if bool_decide (id p = target) then with_field p field value else p)
    <$> prev.

(** The test of [handleSubmit]: a name, a key or a model that is blank. *)
Definition incomplete (p : LLMProvider) : bool :=
  negb (JS.truthy (JS.trim (name p)))
  || negb (JS.truthy (JS.trim (api_key p)))
  || negb (JS.truthy (JS.trim (model p))).

(** [handleSubmit]: the list handed to [saveLLMProviders], [None] when the
    form is refused. *)
Definition handleSubmit (providers : list LLMProvider) : option (list LLMProvider) :=
  if existsb incomplete providers then None
  else Some (normalizeProviders providers).

(** What the user can do on the page once it is loaded.  [Submit] carries
    the outcome of the request. *)
Inductive Action : Type :=
| SetDefault (target : string)
| RemoveProvider (fresh_id target : string)
| AddProvider (fresh_id : string)
| UpdateField (target : string) (field : Field) (value : string)
| Submit (saved : bool).

Definition act (providers : list LLMProvider) (a : Action) : list LLMProvider :=
  match a with
  | SetDefault target => handleSetDefault target providers
  | RemoveProvider fresh_id target => handleRemoveProvider fresh_id target providers
  | AddProvider fresh_id => handleAddProvider fresh_id providers
  | UpdateField target field value => updateProviderField target field value providers
  | Submit saved =>
      match handleSubmit providers with
      | Some normalized => if saved then normalized else providers
      | None => providers
      end
  end.

(** The page offers the default button for the providers it lists, and
    the identifier of a new provider is taken to be new. *)
Definition offered (providers : list LLMProvider) (a : Action) : Prop :=
  match a with
  | SetDefault target => target ∈ (id <$> providers)
  | RemoveProvider fresh_id _ => fresh_id ∉ (id <$> providers)
  | AddProvider fresh_id => fresh_id ∉ (id <$> providers)
  | UpdateField _ _ _ => True
  | Submit _ => True
  end.

Fixpoint all_offered (providers : list LLMProvider) (actions : list Action) : Prop :=
  match actions with
  | [] => True
  | a :: rest => offered providers a /\ all_offered (act providers a) rest
  end.

(** The provider list is in order: distinct identifiers, one default. *)
Definition in_order (providers : list LLMProvider) : Prop :=
  NoDup (id <$> providers) /\ default_count providers = 1.

(** Sample inputs. *)
Definition qwen : LLMProvider :=
  mkLLMProvider "p-1" "Qwen" "aliyun" "sk-1" None "qwen-turbo" None true.
Definition local_model : LLMProvider :=
  mkLLMProvider "p-2" "Local" "custom" "sk-2" None "llama" None false.

End SettingsPage.

(** ** The API service: the other readers and requests *)

Module Service.
Import Api.

Section Reader.

Variable JSON_parse : string -> option json.

(** The body of the line loop of [optimizePromptStream]: the one of
    [testPromptStream] followed by a branch for [event:error] lines, which
    is empty. *)
Definition handleLine_optimize (line : string) : Exec unit :=
  let trimmedLine := JS.trim line in
  if negb (JS.truthy trimmedLine) then ret tt
  else if JS.startsWith "data:" trimmedLine then
    let data := JS.substring_from 5 trimmedLine in
    let content :=
      if JS.startsWith " " data then JS.substring_from 1 data else data in
    if JS.truthy content then
      match JSON_parse content with
      | Some j =>
          match text_member j with
          | Some text => invoke (OnData text)
          | None => invoke (OnData (JString content))
          end
      | None => invoke (OnData (JString content))
      end
    else ret tt
  else if JS.startsWith "event:error" trimmedLine then ret tt
  else ret tt.

Fixpoint forLines_optimize (lines : list string) : Exec unit :=
  match lines with
  | [] => ret tt
  | line :: rest => handleLine_optimize line ;;; forLines_optimize rest
  end.

Fixpoint readLoop_optimize (pending : list string) (final : read_end) : Exec unit :=
  match pending with
  | [] =>
      match final with
      | ReadDone => ret tt
      | ReadRejected e => throw e
      end
  | chunk :: rest =>
      forLines_optimize (JS.split JS.LF chunk) ;;; readLoop_optimize rest final
  end.

Definition onResponse_optimize (onComplete : bool) (r : response) : Exec unit :=
  if negb (ok r) then throw (Error ("API request failed: " +:+ statusText r))
  else match body r with
       | None => throw (Error "Response body is not readable")
       | Some b =>
           readLoop_optimize (reads b) (ending b) ;;;
           if onComplete then invoke OnComplete else ret tt
       end.

Definition optimizePromptStream (onComplete : bool) (f : fetch_result) : Exec unit :=
  catch
    (match f with
     | FetchRejected e => throw e
     | FetchResolved r => onResponse_optimize onComplete r
     end)
    onRejected.

(** *** [importData]

    [response.text()] is the body text; [ToBoolean] and [ToString] of a
    parsed value, the [SyntaxError] of [JSON.parse] and the [TypeError] of a
    property read on [null] are left open. *)
Variable to_boolean : json -> bool.
Variable to_text : json -> string.
Variable syntax_error : string -> js_error.
Variable type_error : js_error.

Record ImportResponse := mkImportResponse {
  i_ok : bool;
  i_statusText : string;
  i_text : string
}.

(** [errorJson.error || fallback], for a parsed value other than [null]. *)
Definition error_or (errorJson : json) (fallback : string) : string :=
  match errorJson with
  | JObject members =>
      match get_member "error" members with
      | Some v => if to_boolean v then to_text v else fallback
      | None => fallback
      end
  | _ => fallback
  end.

(** [importData], from the response on. *)
Definition importData (r : ImportResponse) : Exec json :=
  if negb (i_ok r) then
    let errorText := i_text r in
    catch
      (match JSON_parse errorText with
       | Some JNull => throw type_error
       | Some errorJson =>
           throw (Error (error_or errorJson ("Import failed: " +:+ i_statusText r)))
       | None => throw (syntax_error errorText)
       end)
      (fun _ => throw (Error ("Import failed: " +:+ i_statusText r)))
  else
    match JSON_parse (i_text r) with
    | Some j => ret j
    | None => throw (syntax_error (i_text r))
    end.

End Reader.

(** *** Reads and lines *)

Fixpoint ends_with_LF (s : string) : bool :=
  match s with
  | EmptyString => false
  | String c EmptyString => Ascii.eqb c JS.LF
  | String _ rest => ends_with_LF rest
  end.

(** The text of a stream: its reads one after the other. *)
Definition joined (chunks : list string) : string :=
  foldr String.append "" chunks.

(** An error event as the server writes it: the event line, then the
    message on a data line, then an empty line. *)
Definition error_event (message : string) : string :=
  "event:error"
  +:+ String JS.LF (("data:" +:+ message) +:+ String JS.LF (String JS.LF "")).

End Service.

(** ** The API service: request bodies and the legacy provider settings *)

Module Requests.
Import Api Settings.

Section Payload.

(** The numbers of JavaScript. *)
Variable number : Type.

Record LLMRequestOptions := mkOptions {
  providerId : option string;
  o_model : option string;
  temperature : option number;
  topP : option number;
  maxTokens : option number
}.

(** The values of the members of a request body. *)
Inductive member : Type :=
| MString (s : string)
| MNumber (n : number)
| MBool (b : bool)
| MMessages (messages : list Substitution.ApiMessage).

(** [if (options.key) payload.name = options.key] *)
Definition put_string (name : string) (v : option string)
    (payload : gmap string member) : gmap string member :=
  match v with
  | Some s => if JS.truthy s then <[name := MString s]> payload else payload
  | None => payload
  end.

(** What a string option contributes: nothing when it is absent or empty. *)
Definition kept (v : option string) : option member :=
  match v with
  | Some s => if JS.truthy s then Some (MString s) else None
  | None => None
  end.

(** [if (typeof options.key === 'number') payload.name = options.key] *)
Definition put_number (name : string) (v : option number)
    (payload : gmap string member) : gmap string member :=
  match v with
  | Some n => <[name := MNumber n]> payload
  | None => payload
  end.

Definition buildLLMPayload (options : option LLMRequestOptions) : gmap string member :=
  match options with
  | None => ∅
  | Some options =>
      put_number "max_tokens" (maxTokens options)
        (put_number "top_p" (topP options)
           (put_number "temperature" (temperature options)
              (put_string "model" (o_model options)
                 (put_string "provider_id" (providerId options) ∅))))
  end.

(** The object [{ messages, stream: true, ...this.buildLLMPayload(options) }]
    that [testPromptStream] sends: the members of the payload come last and
    would replace those written before them. *)
Definition stream_body (messages : list Substitution.ApiMessage)
    (options : option LLMRequestOptions) : gmap string member :=
  buildLLMPayload options
  ∪ <["messages" := MMessages messages]> (<["stream" := MBool true]> ∅).

End Payload.

Arguments mkOptions {number}.
Arguments providerId {number}.
Arguments o_model {number}.
Arguments temperature {number}.
Arguments topP {number}.
Arguments maxTokens {number}.
Arguments MString {number}.
Arguments MNumber {number}.
Arguments MBool {number}.
Arguments MMessages {number}.
Arguments kept {number}.
Arguments put_string {number}.
Arguments put_number {number}.
Arguments buildLLMPayload {number}.
Arguments stream_body {number}.

(** *** Providers from the legacy settings *)

(** [settings.key || fallback] *)
Definition setting_or (settings : gmap string string) (key fallback : string) : string :=
  match settings !! key with
  | Some v => if JS.truthy v then v else fallback
  | None => fallback
  end.

(** What [buildLegacyProvidersFromSettings] returns: the array parsed from
    the setting [llm_providers], taken as it is, or the list built from the
    Aliyun settings. *)
Inductive legacy_providers : Type :=
| Parsed (items : list json)
| Built (providers : list LLMProvider).

Definition from_aliyun (settings : gmap string string) : list LLMProvider :=
  let apiKey := setting_or settings "aliyun_api_key" "" in
  if negb (JS.truthy apiKey) then []
  else [ {| id := setting_or settings "aliyun_provider_id" "aliyun-default";
            name := setting_or settings "aliyun_display_name" "阿里云默认模型";
            provider := "aliyun";
            api_key := apiKey;
            api_url := Some (setting_or settings "aliyun_api_url"
                       "https://dashscope.aliyuncs.com/compatible-mode/v1/chat/completions");
            model := setting_or settings "aliyun_model" "qwen-turbo";
            system_prompt := Some (setting_or settings "aliyun_system_prompt" "");
            is_default := true |} ].

Definition buildLegacyProvidersFromSettings (JSON_parse : string -> option json)
    (settings : gmap string string) : legacy_providers :=
  if JS.truthy (setting_or settings "llm_providers" "") then
    match JSON_parse (setting_or settings "llm_providers" "") with
    | Some (JArray items) => Parsed items
    | _ => Built (from_aliyun settings)
    end
  else Built (from_aliyun settings).

(** Sample inputs. *)
Definition playground_options : option (LLMRequestOptions Q) :=
  Some (mkOptions (Some "") (Some "qwen-turbo") (Some 0%Q) None (Some 2000%Q)).

Definition aliyun_settings : gmap string string :=
  {[ "aliyun_api_key" := "sk-legacy"; "aliyun_model" := "";
     "llm_providers" := "not json" ]}.

End Requests.

(** ** The playground page: choosing a provider; the request wrapper *)

Module Providers.
Import Settings.

(** [list.find(provider => provider.is_default) || list[0]] *)
Definition defaultProvider (list : list LLMProvider) : option LLMProvider :=
  match List.find is_default list with
  | Some p => Some p
  | None => head list
  end.

(** What [loadProviders] selects for a list received: the identifier put
    into [selectedProviderId] and the model put into the model settings,
    [prev_model] being the model set before. *)
Definition loadProviders (list : list LLMProvider) (prev_model : string)
    : string * string :=
  match defaultProvider list with
  | Some p => (id p, model p)
  | None => ("", prev_model)
  end.

(** [handleProviderChange]: the identifier selected and the model. *)
Definition handleProviderChange (providers : list LLMProvider) (providerId : string)
    (prev_model : string) : string * string :=
  match List.find (fun item => bool_decide (id item = providerId)) providers with
  | Some p => (providerId, model p)
  | None => (providerId, prev_model)
  end.

(** *** The options handed to [fetch] by [request] *)

Inductive init_value : Type :=
| IText (text : string)
| IHeaders (headers : gmap string string).

(** [options?.headers], read as an object to spread. *)
Definition headers_of (options : gmap string init_value) : gmap string string :=
  match options !! "headers" with
  | Some (IHeaders given) => given
  | _ => ∅
  end.

(** [{ headers: { 'Content-Type': 'application/json', ...options?.headers },
    ...options }]: in both objects the members spread last win. *)
Definition request_init (options : gmap string init_value) : gmap string init_value :=
  options
  ∪ {[ "headers" :=
         IHeaders (headers_of options ∪ {[ "Content-Type" := "application/json" ]}) ]}.

(** Sample inputs. *)
Definition upload_options : gmap string init_value :=
  {[ "method" := IText "POST";
     "headers" := IHeaders {[ "Accept" := "text/csv" ]} ]}.

End Providers.

(** ** A test from the click to the end of its stream *)

Module Flow.
Import Api Playground.

Section Conversion.

(** [prev + text] for a value handed to [onData] that is not a string: its
    conversion to a string, left open. *)
Variable to_text : json -> string.



End Conversion.



(** What happens to the response between the click and the end of the
    stream: a chunk arrives and its updater is queued, a chunk arrives and
    its updater runs at once, or the page renders. *)
Inductive Tick : Type :=
| Chunk (text : string)
| ChunkNow (text : string)
| Paint.

Definition tick_event (h : nat) (t : Tick) : Event :=
  match t with
  | Chunk text => StreamData h text
  | ChunkNow text => StreamDataNow h text
  | Paint => Render
  end.

(** The chunks of the ticks, in order of arrival. *)
Fixpoint texts (ticks : list Tick) : list string :=
  match ticks with
  | [] => []
  | Chunk text :: rest => text :: texts rest
  | ChunkNow text :: rest => text :: texts rest
  | Paint :: rest => texts rest
  end.

(** How many of the chunks had their updater run when the ticks are over:
    those that arrived before the last render, or up to the last chunk whose
    updater ran at once.  [seen] counts the chunks so far, [held] those whose
    updater has run. *)
Fixpoint held_after (seen held : nat) (ticks : list Tick) : nat :=
  match ticks with
  | [] => held
  | Chunk _ :: rest => held_after (S seen) held rest
  | ChunkNow _ :: rest => held_after (S seen) (S seen) rest
  | Paint :: rest => held_after seen seen rest
  end.

Definition is_chunk (t : Tick) : bool :=
  match t with
  | Chunk _ => true
  | _ => false
  end.

End Flow.

(* ===================================================================== *)
(** * Part II: properties                                                 *)
(* ===================================================================== *)

Module SettingsFacts.
Import Settings.

Lemma default_count_cons p ps :
  default_count (p :: ps) = (if is_default p then 1 else 0) + default_count ps.
Proof.
  unfold default_count. rewrite filter_cons.
  destruct (decide (is_default p = true)) as [H|H];
    destruct (is_default p); simpl; congruence.
Qed.

Lemma normalize_from_assigned index ps :
  default_count (normalize_from index true ps) = 0.
Proof.
  revert index. induction ps as [|p ps IH]; intros index; simpl; [done|].
  destruct (is_default p) eqn:E; simpl.
  - rewrite default_count_cons. simpl. apply IH.
  - rewrite default_count_cons, E. simpl. apply IH.
Qed.

Lemma normalize_exactly_one ps :
  ps ≠ [] -> default_count (normalizeProviders ps) = 1.
Proof.
  destruct ps as [|p ps]; [done|]. intros _.
  unfold normalizeProviders. simpl.
  destruct (is_default p) eqn:E; simpl.
  - rewrite default_count_cons, E, normalize_from_assigned. reflexivity.
  - rewrite default_count_cons. simpl. rewrite normalize_from_assigned. reflexivity.
Qed.

Lemma default_count_zero ps :
  default_count ps = 0 <-> existsb is_default ps = false.
Proof.
  induction ps as [|p ps IH]; simpl; [done|].
  rewrite default_count_cons. destruct (is_default p); simpl; [split; discriminate|done].
Qed.

Lemma default_count_filter_le (P : LLMProvider -> Prop) `{!forall p, Decision (P p)} ps :
  default_count (filter P ps) <= default_count ps.
Proof.
  induction ps as [|p ps IH]; simpl; [done|].
  rewrite filter_cons. destruct (decide (P p)).
  - rewrite !default_count_cons. lia.
  - rewrite default_count_cons. lia.
Qed.

Lemma set_default_absent target ps :
  target ∉ (id <$> ps) -> default_count (handleSetDefault target ps) = 0.
Proof.
  unfold handleSetDefault.
  induction ps as [|p ps IH]; simpl; intros Hn; [done|].
  rewrite default_count_cons. simpl.
  apply not_elem_of_cons in Hn as [Hne Hn].
  rewrite bool_decide_eq_false_2 by done. simpl. by apply IH.
Qed.

(** [handleSetDefault] leaves exactly one default when the identifiers are
    pairwise distinct and the target is one of them. *)
Lemma set_default_exactly_one target ps :
  NoDup (id <$> ps) -> target ∈ (id <$> ps) ->
  default_count (handleSetDefault target ps) = 1.
Proof.
  induction ps as [|p ps IH]; simpl; intros Hnd Hin.
  - by apply elem_of_nil in Hin.
  - apply NoDup_cons in Hnd as [Hp Hnd].
    change (default_count (with_default p (bool_decide (id p = target))
                             :: handleSetDefault target ps) = 1).
    rewrite default_count_cons. simpl.
    destruct (decide (id p = target)) as [Heq|Hne].
    + rewrite bool_decide_eq_true_2 by done.
      rewrite set_default_absent; [done|by rewrite <- Heq].
    + rewrite bool_decide_eq_false_2 by done. simpl.
      apply elem_of_cons in Hin as [Hin|Hin]; [congruence|].
      by apply IH.
Qed.

Lemma imap_promote_first (p : LLMProvider) ps :
  imap (fun index q => if index =? 0 then with_default q true else q) (p :: ps)
  = with_default p true :: ps.
Proof.
  simpl. f_equal. clear p.
  induction ps as [|q ps IH]; simpl; [done|].
  f_equal. rewrite <- IH at 2. apply imap_ext. done.
Qed.

(** [handleRemoveProvider] leaves exactly one default when at most one
    provider was marked before. *)
Lemma remove_exactly_one fresh target ps :
  default_count ps <= 1 ->
  default_count (handleRemoveProvider fresh target ps) = 1.
Proof.
  intros Hle. unfold handleRemoveProvider.
  pose proof (default_count_filter_le (fun p => id p ≠ target) ps) as Hf.
  destruct (filter (fun p => id p ≠ target) ps) as [|q qs] eqn:Efilt; simpl; [done|].
  destruct (is_default q) eqn:Eq; simpl.
  - rewrite default_count_cons, Eq in *. lia.
  - destruct (existsb is_default qs) eqn:Eex; simpl.
    + rewrite default_count_cons, Eq in *. simpl in *.
      destruct (default_count qs) as [|n] eqn:En; [|lia].
      apply default_count_zero in En. congruence.
    + change (default_count (imap
        (fun index p => if index =? 0 then with_default p true else p) (q :: qs)) = 1).
      rewrite imap_promote_first, default_count_cons. simpl.
      apply default_count_zero in Eex. lia.
Qed.

(** With no provider marked, [normalizeProviders] promotes the first. *)
Lemma normalize_promotes_first p ps :
  existsb is_default (p :: ps) = false ->
  normalizeProviders (p :: ps) = with_default p true :: ps.
Proof.
  simpl. intros [Hp Hps]%orb_false_elim.
  unfold normalizeProviders. simpl. rewrite Hp. simpl. f_equal.
  clear Hp. generalize 1. induction ps as [|q qs IH]; intros n; simpl; [done|].
  simpl in Hps. apply orb_false_elim in Hps as [Hq Hqs].
  rewrite Hq. simpl. f_equal. by apply IH.
Qed.

(** A marked first provider stays the default; later marks are cleared. *)
Lemma normalize_keeps_marked_head p ps :
  is_default p = true ->
  normalizeProviders (p :: ps)
  = p :: ((fun q => if is_default q then with_default q false else q) <$> ps).
Proof.
  intros Hp. unfold normalizeProviders. simpl. rewrite Hp. f_equal.
  generalize 1. induction ps as [|q qs IH]; intros n; simpl; [done|].
  destruct (is_default q); simpl; f_equal; apply IH.
Qed.

(** [C10] On the list "a (unmarked), b (marked)" [normalizeProviders] marks
    the first provider and clears the mark of the second: the first provider
    marked as default is not kept, although exactly one default remains. *)
Theorem normalize_overrides_later_default :
  let a := mkLLMProvider "a" "A" "custom" "k" None "m" None false in
  let b := mkLLMProvider "b" "B" "custom" "k" None "m" None true in
  first_marked [a; b] = Some b /\
  normalizeProviders [a; b] = [with_default a true; with_default b false] /\
  first_marked (normalizeProviders [a; b]) = Some (with_default a true) /\
  default_count (normalizeProviders [a; b]) = 1 /\
  normalizeProviders (handleSetDefault "b" [with_default a true; with_default b false])
  = [with_default a true; with_default b false].
Proof. repeat split; vm_compute; reflexivity. Qed.

End SettingsFacts.

Module ApiFacts.
Import Api.

Lemma calls_bind {A B} (m : Exec A) (k : A -> Exec B) :
  calls (bind m k)
  = calls m ++ match snd m with inl a => calls (k a) | inr _ => [] end.
Proof.
  destruct m as [cs [a|e]]; simpl.
  - destruct (k a) as [cs' r]. reflexivity.
  - by rewrite app_nil_r.
Qed.

Lemma result_bind {A B} (m : Exec A) (k : A -> Exec B) :
  snd (bind m k) = match snd m with inl a => snd (k a) | inr e => inr e end.
Proof.
  destruct m as [cs [a|e]]; simpl; [|done].
  destruct (k a) as [cs' r]. reflexivity.
Qed.

Lemma data_of_app t1 t2 : data_of (t1 ++ t2) = data_of t1 ++ data_of t2.
Proof.
  induction t1 as [|c t1 IH]; simpl; [done|].
  destruct c; simpl; by rewrite ?IH.
Qed.

Lemma data_of_OnData ds : data_of (OnData <$> ds) = ds.
Proof. induction ds as [|d ds IH]; csimpl; by rewrite ?IH. Qed.

Lemma completions_app t1 t2 :
  completions (t1 ++ t2) = completions t1 + completions t2.
Proof. unfold completions. by rewrite List.filter_app, length_app. Qed.

Lemma completions_OnData ds : completions (OnData <$> ds) = 0.
Proof. induction ds as [|d ds IH]; csimpl; [done|apply IH]. Qed.

Section Reader.

Variable parse : string -> option json.

(** A line never throws, and invokes [onData] at most once. *)
Lemma handleLine_spec line :
  handleLine parse line = (OnData <$> option_list (delivered parse line), inl tt).
Proof.
  unfold handleLine, delivered, after_colon, payload_of.
  generalize (JS.trim line). intros t.
  destruct t as [|c t]; [reflexivity|].
  change (JS.truthy (String c t)) with true. cbn [negb].
  destruct (JS.startsWith "data:" (String c t)); [|reflexivity].
  cbv zeta.
  generalize (JS.substring_from 5 (String c t)). intros data.
  destruct (JS.truthy (if JS.startsWith " " data then JS.substring_from 1 data else data));
    [|reflexivity].
  destruct (parse _) as [j|]; [|reflexivity].
  destruct (text_member j); reflexivity.
Qed.

Lemma forLines_spec lines :
  forLines parse lines = (OnData <$> omap (delivered parse) lines, inl tt).
Proof.
  induction lines as [|line lines IH]; simpl; [done|].
  rewrite handleLine_spec, IH. unfold bind. simpl.
  destruct (delivered parse line); reflexivity.
Qed.

Lemma readLoop_spec chunks final :
  readLoop parse chunks final
  = (OnData <$> omap (delivered parse) (flat_map (JS.split JS.LF) chunks),
     match final with ReadDone => inl tt | ReadRejected e => inr e end).
Proof.
  induction chunks as [|chunk chunks IH]; simpl.
  - destruct final; reflexivity.
  - rewrite forLines_spec, IH. unfold bind. simpl.
    by rewrite omap_app, fmap_app.
Qed.

(** The whole trace of a run: the delivered values in arrival order, then
    the closing callback. *)
Lemma testPromptStream_trace onComplete f :
  testPromptStream parse onComplete f
  = ((OnData <$> omap (delivered parse) (arrived_lines f)) ++ closing onComplete f,
     inl tt).
Proof.
  unfold testPromptStream, closing, arrived_lines, failure_of, onRejected, is_abort.
  destruct f as [e|[isok st [b|]]]; simpl.
  - destruct (String.eqb (err_name e) "AbortError"); reflexivity.
  - unfold onResponse. simpl. destruct isok; simpl; [|reflexivity].
    rewrite readLoop_spec. destruct b as [chunks [|e]]; simpl.
    + destruct onComplete; simpl; by rewrite ?app_nil_r.
    + destruct (String.eqb (err_name e) "AbortError"); simpl; by rewrite ?app_nil_r.
  - unfold onResponse. simpl. destruct isok; reflexivity.
Qed.



Lemma truthy_false s : JS.truthy s = false <-> s = "".
Proof. destruct s; simpl; split; congruence. Qed.


(** [C2] For every outcome of the request, the reader hands to [onData]
    the values of the [data:] lines in the order in which the lines arrive;
    it calls [onComplete] once, as its last call, when the stream ends
    normally, and not at all when the exchange fails or is aborted; no call
    of [onComplete] follows a call of [onError]. *)
Theorem stream_callbacks_ordered_completed_once (f : fetch_result) :
  let trace := calls (testPromptStream parse true f) in
  data_of trace = omap (delivered parse) (arrived_lines f) /\
  completions trace = (if ends_normally f then 1 else 0) /\
  (ends_normally f = true -> trace = (OnData <$> data_of trace) ++ [OnComplete]) /\
  (forall before after, trace = before ++ OnComplete :: after ->
     after = [] /\ Forall (fun c => is_error c = false) before) /\
  (forall e, failure_of f = Some e ->
     (OnComplete ∉ trace) /\
     (is_abort e = true -> Forall (fun c => is_error c = false) trace)).
Proof.
  intros trace. subst trace. rewrite testPromptStream_trace. unfold calls. simpl.
  set (ds := omap (delivered parse) (arrived_lines f)).
  assert (Hnorm : ends_normally f
                  = match failure_of f with None => true | Some _ => false end).
  { unfold ends_normally, failure_of.
    destruct f as [e|[[] st [[chunks [|e]]|]]]; reflexivity. }
  assert (Hdata : data_of ((OnData <$> ds) ++ closing true f) = ds).
  { rewrite data_of_app, data_of_OnData. unfold closing.
    destruct (failure_of f) as [e|]; [destruct (is_abort e)|]; simpl;
      by rewrite app_nil_r. }
  assert (Hnoerr : Forall (fun c => is_error c = false) (OnData <$> ds)).
  { apply Forall_fmap, Forall_true. done. }
  split; [exact Hdata|]. split; [|split; [|split]].
  - rewrite completions_app, completions_OnData, Hnorm. unfold closing.
    destruct (failure_of f) as [e|]; [by destruct (is_abort e)|done].
  - rewrite Hnorm, Hdata. unfold closing.
    by destruct (failure_of f) as [e|].
  - intros before after Heq. unfold closing in Heq.
    destruct (failure_of f) as [e|] eqn:Ef.
    + exfalso. assert (Hin : OnComplete ∈ before ++ OnComplete :: after)
        by (apply elem_of_app; right; apply elem_of_cons; by left).
      rewrite <- Heq in Hin. apply elem_of_app in Hin as [Hin|Hin].
      * apply list_elem_of_fmap in Hin as (d & Hd & _). discriminate.
      * destruct (is_abort e); [by apply elem_of_nil in Hin|].
        apply list_elem_of_singleton in Hin. discriminate.
    + assert (Hsplit : (OnData <$> ds) ++ [OnComplete] = (before ++ [OnComplete]) ++ after)
        by (rewrite <- app_assoc; exact Heq).
      destruct after as [|c after'] using rev_ind.
      * rewrite app_nil_r in Hsplit. apply app_inj_tail in Hsplit as [<- _]. done.
      * exfalso. rewrite app_assoc in Hsplit.
        apply app_inj_tail in Hsplit as [Hpre <-].
        assert (Hin : OnComplete ∈ OnData <$> ds).
        { rewrite Hpre. apply elem_of_app; left. apply elem_of_app; right.
          apply list_elem_of_singleton. done. }
        apply list_elem_of_fmap in Hin as (d & Hd & _). discriminate.
  - intros e Ef. unfold closing. rewrite Ef. split.
    + intros Hin. apply elem_of_app in Hin as [Hin|Hin].
      * apply list_elem_of_fmap in Hin as (d & Hd & _). discriminate.
      * destruct (is_abort e); [by apply elem_of_nil in Hin|].
        apply list_elem_of_singleton in Hin. discriminate.
    + intros ->. by rewrite app_nil_r.
Qed.


End Reader.

Lemma stream_callbacks_witness :
  ends_normally sample_stream = true /\
  calls (testPromptStream JSON_parse true sample_stream)
  = [OnData (JString "hi"); OnData (JString "plain"); OnComplete].
Proof.
  split; [reflexivity|].
  destruct (stream_callbacks_ordered_completed_once JSON_parse sample_stream)
    as (Hdata & _ & Hend & _).
  rewrite (Hend eq_refl), Hdata. vm_compute. reflexivity.
Defined.


End ApiFacts.

Module PlaygroundFacts.
Import Playground.

(** *** The history list *)


Lemma histories_after_save_head saved prev :
  head (histories_after_save saved prev) = Some saved.
Proof. reflexivity. Qed.


(** The saved identifier occurs once in the list. *)
Lemma histories_after_save_fresh saved prev :
  (saved ∉ tail (histories_after_save saved prev))
  /\ Forall (fun item => h_id item ≠ h_id saved) (tail (histories_after_save saved prev)).
Proof.
  assert (H : Forall (fun item => h_id item ≠ h_id saved)
                (tail (histories_after_save saved prev))).
  { unfold histories_after_save. simpl.
    apply Forall_take. apply Forall_forall. intros x Hx.
    by apply list_elem_of_filter in Hx as [Hx _]. }
  split; [|done]. intros Hin. rewrite Forall_forall in H. by apply (H _ Hin).
Qed.



(** *** One stream at a time *)

Lemma variables_effect_frame s :
  id (variables_effect s) = id s /\
  loading (variables_effect s) = loading s /\
  streamAbort (variables_effect s) = streamAbort s /\
  histories (variables_effect s) = histories s /\
  responseRef (variables_effect s) = responseRef s.
Proof.
  unfold variables_effect.
  destruct (extractVariables _ _ _); repeat split; reflexivity.
Qed.

Lemma drop_stream_handles h streams :
  handle <$> drop_stream h streams = filter (fun k => k ≠ h) (handle <$> streams).
Proof.
  unfold drop_stream. induction streams as [|st streams IH]; [done|].
  rewrite fmap_cons, !filter_cons.
  destruct (decide (handle st ≠ h)); csimpl; by rewrite IH.
Qed.

Lemma find_stream_handle h w st :
  find_stream h w = Some st -> handle st = h /\ st ∈ live w.
Proof.
  unfold find_stream. intros Hf. apply find_some in Hf as [Hin Heq].
  apply Nat.eqb_eq in Heq. split; [done|]. by apply list_elem_of_In.
Qed.

Lemma invariant_live w :
  stream_invariant w ->
  (streamAbort (ui w) = None /\ loading (ui w) = false /\ live w = [])
  \/ (exists st, streamAbort (ui w) = Some (handle st) /\ loading (ui w) = true
                 /\ live w = [st]).
Proof.
  intros [Hl Hb]. destruct (streamAbort (ui w)) as [h|]; simpl in *.
  - right. destruct (live w) as [|st [|st' l]]; try discriminate.
    exists st. injection Hl as ->. done.
  - left. by destruct (live w).
Qed.

Lemma invariant_init route_id : stream_invariant (init_world route_id).
Proof. split; reflexivity. Qed.

Lemma drop_only_stream st : drop_stream (handle st) [st] = [].
Proof.
  unfold drop_stream. rewrite filter_cons, filter_nil.
  destruct (decide (handle st ≠ handle st)); [congruence|done].
Qed.

Lemma invariant_handleTest now w :
  stream_invariant w -> stream_invariant (handleTest now w).
Proof.
  intros Hinv. unfold handleTest.
  destruct (invariant_live w Hinv) as [(Ha & Hl & Hlive)|(st & Ha & Hl & Hlive)];
    rewrite Hl.
  - destruct (negb (providerLoading (ui w)) && _); [done|].
    split; simpl; [by rewrite Hlive|reflexivity].
  - rewrite Ha, Hlive, drop_only_stream. split; reflexivity.
Qed.

Lemma invariant_step w e w' :
  stream_invariant w -> step w e = Some w' -> stream_invariant w'.
Proof.
  intros Hinv Hstep.
  destruct e; simpl in Hstep.
  - injection Hstep as <-. by apply invariant_handleTest.
  - destruct (find_stream h w); [|done]. injection Hstep as <-. exact Hinv.
  - destruct (find_stream h w) as [st|] eqn:Hf; [|done]. injection Hstep as <-.
    apply find_stream_handle in Hf as [<- Hin].
    destruct (invariant_live w Hinv) as [(_ & _ & Hlive)|(st' & _ & _ & Hlive)];
      rewrite Hlive in *; [by apply elem_of_nil in Hin|].
    apply list_elem_of_singleton in Hin as ->.
    split; simpl; [by rewrite drop_only_stream|reflexivity].
  - destruct (find_stream h w) as [st|] eqn:Hf; [|done]. injection Hstep as <-.
    apply find_stream_handle in Hf as [<- Hin].
    destruct (invariant_live w Hinv) as [(_ & _ & Hlive)|(st' & _ & _ & Hlive)];
      rewrite Hlive in *; [by apply elem_of_nil in Hin|].
    apply list_elem_of_singleton in Hin as ->.
    unfold onComplete. simpl.
    destruct (persistHistory_request _ _ _); split; simpl;
      by rewrite ?drop_only_stream.
  - destruct (pending_saves w); [done|]. injection Hstep as <-. exact Hinv.
  - destruct (pending_saves w); [done|]. injection Hstep as <-. exact Hinv.
  - destruct (has_route_id (ui w)); [|done]. injection Hstep as <-. exact Hinv.
  - destruct (has_route_id (ui w)); [|done]. injection Hstep as <-. exact Hinv.
  - destruct (bool_decide (history ∈ histories (ui w))); [|done].
    injection Hstep as <-. destruct Hinv as [H1 H2]. unfold stream_invariant. simpl.
    destruct (variables_effect_frame (handleHistorySelect history now (ui w)))
      as (_ & -> & -> & _). done.
  - injection Hstep as <-. exact Hinv.
  - injection Hstep as <-. exact Hinv.
  - injection Hstep as <-. destruct Hinv as [H1 H2]. unfold stream_invariant, historyDeleted. simpl.
    destruct (bool_decide (selected_at_click = Some hid)); simpl; done.
  - injection Hstep as <-. destruct Hinv as [H1 H2]. unfold stream_invariant. simpl.
    destruct (variables_effect_frame (set_messages msgs (ui w))) as (_ & -> & -> & _). done.
  - injection Hstep as <-. destruct Hinv as [H1 H2]. unfold stream_invariant. simpl.
    destruct (variables_effect_frame (set_variablePrefix p (ui w))) as (_ & -> & -> & _). done.
  - injection Hstep as <-. destruct Hinv as [H1 H2]. unfold stream_invariant. simpl.
    destruct (variables_effect_frame (set_variableSuffix p (ui w))) as (_ & -> & -> & _). done.
  - injection Hstep as <-. exact Hinv.
  - injection Hstep as <-. exact Hinv.
  - injection Hstep as <-. exact Hinv.
  - destruct (find_stream h w); [|done].
    destruct (responseQueue (ui w)); [|done]. injection Hstep as <-. exact Hinv.
Qed.

Lemma reachable_invariant route_id w :
  reachable route_id w -> stream_invariant w.
Proof.
  induction 1 as [|w e w' _ IH Hstep]; [apply invariant_init|].
  by apply (invariant_step w e w').
Qed.

Lemma reachable_run route_id w events w' :
  reachable route_id w -> run w events = Some w' -> reachable route_id w'.
Proof.
  revert w. induction events as [|e events IH]; simpl; intros w Hr Hrun.
  - by injection Hrun as <-.
  - destruct (step w e) as [w1|] eqn:Hs; [|done].
    apply (IH w1); [|done]. by apply (reachable_step _ w e w1).
Qed.

Lemma handleTest_stops now w st :
  stream_invariant w -> live w = [st] ->
  live (handleTest now w) = [] /\ streamAbort (ui (handleTest now w)) = None.
Proof.
  intros Hinv Hlive.
  destruct (invariant_live w Hinv) as [(_ & _ & Hnil)|(st0 & Ha & Hl & Hlive0)];
    [congruence|].
  unfold handleTest. rewrite Hl, Ha, Hlive0. simpl. by rewrite drop_only_stream.
Qed.

(** [C8] In every state the mounted page can reach there is at most one
    live stream, and the abort handle held in the state is the handle of that
    stream; the test action taken while a stream is live aborts it and starts
    none, so that a stream is only ever started when none is live. *)
Theorem single_active_stream route_id w :
  reachable route_id w ->
  length (live w) <= 1 /\
  handle <$> live w = option_list (streamAbort (ui w)) /\
  (forall now, live w ≠ [] ->
     live (handleTest now w) = [] /\ streamAbort (ui (handleTest now w)) = None) /\
  (forall now st, st ∈ live (handleTest now w) ->
     live w = [] /\ live (handleTest now w) = [st]).
Proof.
  intros Hr. pose proof (reachable_invariant _ _ Hr) as Hinv.
  destruct (invariant_live w Hinv) as [(Ha & Hl & Hlive)|(st0 & Ha & Hl & Hlive)].
  - split; [rewrite Hlive; simpl; lia|]. split; [apply Hinv|]. split.
    + intros now Hne. by rewrite Hlive in Hne.
    + intros now st. unfold handleTest. rewrite Hl.
      destruct (negb (providerLoading (ui w)) && _).
      * rewrite Hlive. by intros ?%elem_of_nil.
      * simpl. rewrite Hlive. by intros ->%list_elem_of_singleton.
  - split; [rewrite Hlive; simpl; lia|]. split; [apply Hinv|].
    assert (Hstop : forall now, live (handleTest now w) = []
                      /\ streamAbort (ui (handleTest now w)) = None).
    { intros now. by apply (handleTest_stops now w st0). }
    split.
    + intros now _. apply Hstop.
    + intros now st. destruct (Hstop now) as [-> _]. by intros ?%elem_of_nil.
Qed.

Lemma single_active_stream_witness :
  let w := handleTest 7 (init_world (Some "p1")) in
  live w ≠ [] /\ live (handleTest 8 w) = [].
Proof.
  intros w. split; [discriminate|].
  assert (Hr : reachable (Some "p1") w).
  { apply (reachable_step _ (init_world (Some "p1")) (ClickTest 7));
      [apply reachable_init|reflexivity]. }
  destruct (single_active_stream (Some "p1") w Hr) as (_ & _ & Hstop & _).
  apply (Hstop 8%N). discriminate.
Defined.

(** *** Saving a finished exchange *)

Lemma persistHistory_request_none s snap finalResponse :
  has_route_id s = false \/ JS.trim finalResponse = "" ->
  persistHistory_request s snap finalResponse = None.
Proof.
  unfold persistHistory_request, has_route_id.
  destruct (id s) as [pid|]; [|done].
  intros [->| ->]; [done|]. by rewrite orb_true_r.
Qed.

Lemma persistHistory_request_some s snap finalResponse payload :
  persistHistory_request s snap finalResponse = Some payload ->
  has_route_id s = true /\ JS.trim finalResponse ≠ ""
  /\ p_response payload = finalResponse
  /\ Some (p_prompt_id payload) = id s.
Proof.
  unfold persistHistory_request, has_route_id.
  destruct (id s) as [pid|]; [|done].
  destruct (JS.truthy pid); simpl; [|done].
  destruct (JS.trim finalResponse) eqn:Et; simpl; [done|].
  intros [= <-]. done.
Qed.

Lemma step_save_log w e w' :
  step w e = Some w' -> save_log w' ≠ save_log w ->
  exists h st, e = StreamComplete h /\ find_stream h w = Some st
    /\ exists payload,
         persistHistory_request (ui w) (snapshot st) (responseRef (ui w)) = Some payload
         /\ save_log w' = save_log w ++ [payload].
Proof.
  intros Hstep Hlog. destruct e; simpl in Hstep;
    try (injection Hstep as <-; by destruct Hlog).
  - injection Hstep as <-. exfalso. apply Hlog. unfold handleTest.
    destruct (loading (ui w)); [done|].
    by destruct (negb (providerLoading (ui w)) && _).
  - destruct (find_stream h w); [|done]. injection Hstep as <-. by destruct Hlog.
  - destruct (find_stream h w); [|done]. injection Hstep as <-. by destruct Hlog.
  - destruct (find_stream h w) as [st|] eqn:Hf; [|done]. injection Hstep as <-.
    exists h, st. split; [done|]. split; [done|].
    unfold onComplete in *. simpl in *.
    change (persistHistory_request
              (set_streamAbort None (set_loading false (ui w))) (snapshot st)
              (responseRef (ui w)))
      with (persistHistory_request (ui w) (snapshot st) (responseRef (ui w))) in *.
    destruct (persistHistory_request (ui w) (snapshot st) (responseRef (ui w)))
      as [payload|]; simpl in *; [by exists payload|by destruct Hlog].
  - destruct (pending_saves w); [done|]. injection Hstep as <-. by destruct Hlog.
  - destruct (pending_saves w); [done|]. injection Hstep as <-. by destruct Hlog.
  - destruct (has_route_id (ui w)); [|done]. injection Hstep as <-. by destruct Hlog.
  - destruct (has_route_id (ui w)); [|done]. injection Hstep as <-. by destruct Hlog.
  - destruct (bool_decide (history ∈ histories (ui w))); [|done].
    injection Hstep as <-. by destruct Hlog.
  - destruct (find_stream h w); [|done].
    destruct (responseQueue (ui w)); [|done]. injection Hstep as <-. by destruct Hlog.
Qed.

Lemma step_complete_unsaved w h w' :
  step w (StreamComplete h) = Some w' ->
  has_route_id (ui w) = false \/ JS.trim (responseRef (ui w)) = "" ->
  histories (ui w') = histories (ui w) /\ save_log w' = save_log w
  /\ pending_saves w' = pending_saves w.
Proof.
  simpl. destruct (find_stream h w) as [st|]; [|done]. intros [= <-] Hguard.
  unfold onComplete. simpl.
  change (persistHistory_request
            (set_streamAbort None (set_loading false (ui w))) (snapshot st)
            (responseRef (ui w)))
    with (persistHistory_request (ui w) (snapshot st) (responseRef (ui w))).
  by rewrite (persistHistory_request_none _ _ _ Hguard).
Qed.

Lemma step_keeps_blank w e w' :
  step w e = Some w' -> writes_response e = false ->
  JS.trim (responseRef (ui w)) = "" -> JS.trim (responseRef (ui w')) = "".
Proof.
  intros Hstep Hq Hblank. destruct e; try discriminate Hq; simpl in Hstep.
  - injection Hstep as <-. unfold handleTest.
    destruct (loading (ui w)); [exact Hblank|].
    destruct (negb (providerLoading (ui w)) && _); [exact Hblank|reflexivity].
  - destruct (find_stream h w); [|done]. injection Hstep as <-. exact Hblank.
  - destruct (find_stream h w); [|done]. injection Hstep as <-.
    unfold onComplete. simpl. by destruct (persistHistory_request _ _ _).
  - destruct (pending_saves w); [done|]. injection Hstep as <-. exact Hblank.
  - destruct (pending_saves w); [done|]. injection Hstep as <-. exact Hblank.
  - destruct (has_route_id (ui w)); [|done]. injection Hstep as <-. exact Hblank.
  - destruct (has_route_id (ui w)); [|done]. injection Hstep as <-. exact Hblank.
  - injection Hstep as <-. reflexivity.
  - injection Hstep as <-. exact Hblank.
  - injection Hstep as <-. unfold historyDeleted. simpl.
    by destruct (bool_decide (selected_at_click = Some hid)).
  - injection Hstep as <-. simpl.
    by destruct (variables_effect_frame (set_messages msgs (ui w))) as (_ & _ & _ & _ & ->).
  - injection Hstep as <-. simpl.
    by destruct (variables_effect_frame (set_variablePrefix p (ui w))) as (_ & _ & _ & _ & ->).
  - injection Hstep as <-. simpl.
    by destruct (variables_effect_frame (set_variableSuffix p (ui w))) as (_ & _ & _ & _ & ->).
  - injection Hstep as <-. exact Hblank.
  - injection Hstep as <-. exact Hblank.
Qed.

Lemma run_keeps_blank events w w' :
  run w events = Some w' ->
  Forall (fun e => writes_response e = false) events ->
  JS.trim (responseRef (ui w)) = "" -> JS.trim (responseRef (ui w')) = "".
Proof.
  intros Hrun Hq. revert w Hrun.
  induction Hq as [|e events He _ IH]; intros w Hrun Hblank; simpl in Hrun.
  - by injection Hrun as <-.
  - destruct (step w e) as [w1|] eqn:Hs; [|done].
    apply (IH w1 Hrun). by apply (step_keeps_blank w e w1).
Qed.

Lemma handleTest_starts_blank now w :
  loading (ui w) = false -> loading (ui (handleTest now w)) = true ->
  responseRef (ui (handleTest now w)) = "".
Proof.
  unfold handleTest. intros Hl. cbv zeta. rewrite Hl.
  destruct (negb (providerLoading (ui w)) && _); [|reflexivity].
  congruence.
Qed.

Lemma variables_effect_pending s :
  response (variables_effect s) = response s /\
  responseRef (variables_effect s) = responseRef s /\
  responseQueue (variables_effect s) = responseQueue s.
Proof.
  unfold variables_effect.
  destruct (extractVariables _ _ _); repeat split; reflexivity.
Qed.

Lemma blank_pending_ext s s' :
  response s' = response s -> responseRef s' = responseRef s ->
  responseQueue s' = responseQueue s -> blank_pending s -> blank_pending s'.
Proof.
  unfold blank_pending, pending_response. by intros -> -> ->.
Qed.

Lemma blank_pending_cleared s s' :
  response s' = response s -> JS.trim (responseRef s') = "" ->
  responseQueue s' = responseQueue s ++ [Replace ""] ->
  Forall (fun u => queues_chunk u = false) (responseQueue s) -> blank_pending s'.
Proof.
  unfold blank_pending, pending_response. intros -> Href -> Hq.
  split; [exact Href|]. split.
  - apply Forall_app. split; [exact Hq|by constructor].
  - right. by rewrite foldl_app.
Qed.

Lemma run_updates_buffer queue : forall acc,
  Forall (fun u => queues_chunk u = false) queue ->
  snd (foldl run_update acc queue) = snd acc.
Proof.
  induction queue as [|[value|text] queue IH]; intros acc Hq; [done| |].
  - cbn [foldl run_update]. rewrite IH; [done|]. by inversion Hq.
  - inversion Hq as [|? ? Hu]. discriminate Hu.
Qed.

Lemma blank_pending_rendered s : blank_pending s -> blank_pending (rendered s).
Proof.
  intros (Href & Hq & Hnext). unfold pending_response in Hnext.
  unfold blank_pending, pending_response, rendered.
  cbn [response responseRef responseQueue set_responseQueue set_responseRef
       set_response foldl fst].
  split; [|split; [constructor|by left]].
  destruct (decide _) as [Hsame|Hnew].
  - by rewrite run_updates_buffer.
  - by destruct Hnext.
Qed.

Lemma step_keeps_blank_pending w e w' :
  step w e = Some w' -> brings_response e = false ->
  blank_pending (ui w) -> blank_pending (ui w').
Proof.
  intros Hstep Hq Hblank. destruct e; try discriminate Hq; simpl in Hstep.
  - injection Hstep as <-. unfold handleTest.
    destruct (loading (ui w)); [exact Hblank|].
    destruct (negb (providerLoading (ui w)) && _); [exact Hblank|].
    by apply (blank_pending_cleared (ui w)); [..|apply Hblank].
  - destruct (find_stream h w); [|done]. injection Hstep as <-. exact Hblank.
  - destruct (find_stream h w); [|done]. injection Hstep as <-.
    unfold onComplete. simpl. by destruct (persistHistory_request _ _ _).
  - destruct (pending_saves w); [done|]. injection Hstep as <-. exact Hblank.
  - destruct (pending_saves w); [done|]. injection Hstep as <-. exact Hblank.
  - destruct (has_route_id (ui w)); [|done]. injection Hstep as <-. exact Hblank.
  - destruct (has_route_id (ui w)); [|done]. injection Hstep as <-. exact Hblank.
  - injection Hstep as <-.
    by apply (blank_pending_cleared (ui w)); [..|apply Hblank].
  - injection Hstep as <-. exact Hblank.
  - injection Hstep as <-. unfold historyDeleted. simpl.
    destruct (bool_decide (selected_at_click = Some hid)); [|exact Hblank].
    by apply (blank_pending_cleared (ui w)); [..|apply Hblank].
  - injection Hstep as <-. simpl.
    destruct (variables_effect_pending (set_messages msgs (ui w))) as (H1 & H2 & H3).
    by apply (blank_pending_ext (ui w)).
  - injection Hstep as <-. simpl.
    destruct (variables_effect_pending (set_variablePrefix p (ui w))) as (H1 & H2 & H3).
    by apply (blank_pending_ext (ui w)).
  - injection Hstep as <-. simpl.
    destruct (variables_effect_pending (set_variableSuffix p (ui w))) as (H1 & H2 & H3).
    by apply (blank_pending_ext (ui w)).
  - injection Hstep as <-. exact Hblank.
  - injection Hstep as <-. exact Hblank.
  - injection Hstep as <-. by apply blank_pending_rendered.
Qed.

Lemma run_keeps_blank_pending events w w' :
  run w events = Some w' ->
  Forall (fun e => brings_response e = false) events ->
  blank_pending (ui w) -> blank_pending (ui w').
Proof.
  intros Hrun Hq. revert w Hrun.
  induction Hq as [|e events He _ IH]; intros w Hrun Hblank; simpl in Hrun.
  - by injection Hrun as <-.
  - destruct (step w e) as [w1|] eqn:Hs; [|done].
    apply (IH w1 Hrun). by apply (step_keeps_blank_pending w e w1).
Qed.

Lemma handleTest_blank_pending now w :
  loading (ui w) = false -> loading (ui (handleTest now w)) = true ->
  Forall (fun u => queues_chunk u = false) (responseQueue (ui w)) ->
  blank_pending (ui (handleTest now w)).
Proof.
  unfold handleTest. intros Hl. cbv zeta. rewrite Hl.
  destruct (negb (providerLoading (ui w)) && _); [congruence|]. intros _ Hq.
  by apply (blank_pending_cleared (ui w)).
Qed.

(** [C9] (as amended) A save request is issued only by the completion of
    a stream, and only when the route carries a prompt identifier and the
    response buffer read at completion is not blank; a completion with a
    blank buffer leaves the history list and the requests as they were; a
    test stopped by the user leaves them as they were too, and its stream can
    no longer complete.  The buffer is empty when a test starts, and a blank
    buffer stays blank as long as no chunk arrives and no stored session is
    replayed: no event but a chunk, a replay or a render changes a blank
    buffer, and a render does not either when no chunk waits in the queue of
    updates, as is the case after the start of a test that no chunk of an
    earlier one precedes unrendered. *)
Theorem history_saved_only_with_response :
  (forall s snap finalResponse,
     has_route_id s = false \/ JS.trim finalResponse = "" ->
     persistHistory_request s snap finalResponse = None) /\
  (forall w e w',
     step w e = Some w' -> save_log w' ≠ save_log w ->
     exists h payload, e = StreamComplete h
       /\ save_log w' = save_log w ++ [payload]
       /\ has_route_id (ui w) = true
       /\ JS.trim (responseRef (ui w)) ≠ ""
       /\ p_response payload = responseRef (ui w)) /\
  (forall w h w',
     step w (StreamComplete h) = Some w' ->
     has_route_id (ui w) = false \/ JS.trim (responseRef (ui w)) = "" ->
     histories (ui w') = histories (ui w) /\ save_log w' = save_log w
     /\ pending_saves w' = pending_saves w) /\
  (forall route_id w now,
     reachable route_id w -> loading (ui w) = true ->
     let w' := handleTest now w in
     histories (ui w') = histories (ui w) /\ save_log w' = save_log w
     /\ pending_saves w' = pending_saves w
     /\ forall h, step w' (StreamComplete h) = None) /\
  (forall w now,
     loading (ui w) = false -> loading (ui (handleTest now w)) = true ->
     responseRef (ui (handleTest now w)) = "") /\
  (forall w events w',
     run w events = Some w' ->
     Forall (fun e => writes_response e = false) events ->
     JS.trim (responseRef (ui w)) = "" -> JS.trim (responseRef (ui w')) = "") /\
  (forall w now,
     loading (ui w) = false -> loading (ui (handleTest now w)) = true ->
     Forall (fun u => queues_chunk u = false) (responseQueue (ui w)) ->
     blank_pending (ui (handleTest now w))) /\
  (forall w events w',
     run w events = Some w' ->
     Forall (fun e => brings_response e = false) events ->
     blank_pending (ui w) ->
     blank_pending (ui w') /\ JS.trim (responseRef (ui w')) = "").
Proof.
  split; [apply persistHistory_request_none|].
  split; [|split; [|split; [|split; [|split; [|split]]]]].
  - intros w e w' Hstep Hlog.
    destruct (step_save_log w e w' Hstep Hlog) as (h & st & -> & _ & payload & Hp & Hl).
    apply persistHistory_request_some in Hp as (Hid & Ht & Hr & _).
    by exists h, payload.
  - apply step_complete_unsaved.
  - intros route_id w now Hr Hl w'.
    pose proof (reachable_invariant _ _ Hr) as Hinv.
    destruct (invariant_live w Hinv) as [(_ & Hl' & _)|(st & Ha & _ & Hlive)];
      [congruence|].
    assert (Hw' : live w' = []) by (by apply (handleTest_stops now w st)).
    subst w'. unfold handleTest in *. rewrite Hl in *. simpl in *.
    repeat split. intros h. unfold find_stream. simpl. by rewrite Hw'.
  - intros w now. apply handleTest_starts_blank.
  - intros w events w' Hrun Hq. by apply (run_keeps_blank events w w').
  - intros w now. apply handleTest_blank_pending.
  - intros w events w' Hrun Hq Hblank.
    pose proof (run_keeps_blank_pending events w w' Hrun Hq Hblank) as Hw'.
    split; [exact Hw'|apply Hw'].
Qed.

Lemma history_saved_witness :
  let w := handleTest 7 (init_world (Some "p1")) in
  exists w', step w (StreamComplete 0) = Some w'
    /\ JS.trim (responseRef (ui w)) = ""
    /\ histories (ui w') = histories (ui w) /\ save_log w' = [].
Proof.
  intros w. eexists. split; [reflexivity|]. split; [reflexivity|].
  destruct history_saved_only_with_response as (_ & _ & Hblank & _).
  destruct (Hblank w 0 _ eq_refl (or_intror eq_refl)) as (Hh & Hs & _).
  split; [exact Hh|exact Hs].
Defined.

(** [C9] (as stated) fails: a test is started, the listed session is
    replayed while the test runs, and the stream ends without having
    delivered a chunk; the exchange is saved, with the response of the
    replayed session. *)
Lemma replayed_response_saved :
  exists w',
    run (init_world (Some "p1")) replay_during_test = Some w' /\
    Forall (fun e => match e with StreamData _ _ => False | _ => True end)
           replay_during_test /\
    p_response <$> save_log w' = ["Paris."] /\
    pending_saves w' = 1.
Proof.
  eexists. split; [vm_compute; reflexivity|].
  split; [repeat constructor|]. split; reflexivity.
Qed.

End PlaygroundFacts.

Module VersioningFacts.
Import Versioning.

Lemma append_cons c a r : String c a +:+ r = String c (a +:+ r).
Proof. reflexivity. Qed.

Lemma digits_dot_free d : dot_free (NilEmpty.string_of_uint d) = true.
Proof. induction d; simpl; auto. Qed.

Lemma format_component_dot_free n : dot_free (format_component n) = true.
Proof.
  unfold format_component, NilZero.string_of_uint.
  destruct (Nat.to_uint n); try reflexivity; apply (digits_dot_free (_ _)).
Qed.

Lemma split_dot_free a : dot_free a = true -> JS.split "." a = [a].
Proof.
  induction a as [|c a IH]; simpl; [done|].
  intros [Hc Ha]%andb_prop. rewrite (IH Ha).
  apply negb_true_iff in Hc. by rewrite Hc.
Qed.

Lemma split_dot_cons a rest :
  dot_free a = true ->
  JS.split "." (a +:+ "." +:+ rest) = a :: JS.split "." rest.
Proof.
  change ("." +:+ rest) with (String "." rest).
  induction a as [|c a IH]; intros Ha.
  - reflexivity.
  - simpl in Ha. apply andb_prop in Ha as [Hc Ha].
    rewrite append_cons. cbn [JS.split]. rewrite (IH Ha).
    apply negb_true_iff in Hc. by rewrite Hc.
Qed.

Lemma to_uint_nonnil n : Nat.to_uint n ≠ Decimal.Nil.
Proof.
  pose proof (Unsigned.to_of (Nat.to_uint n)) as H.
  rewrite Unsigned.of_to in H. rewrite H.
  unfold Decimal.unorm. by destruct (Decimal.nzhead (Nat.to_uint n)).
Qed.

Lemma parse_format_component n : parse_component (format_component n) = Some n.
Proof.
  unfold parse_component, format_component.
  rewrite NilZero.usu by apply to_uint_nonnil. simpl.
  by rewrite Unsigned.of_to.
Qed.

Lemma parse_format_version v : parse_version (format_version v) = Some v.
Proof.
  destruct v as [x y z]. unfold parse_version, format_version.
  cbn [v_major v_minor v_patch].
  rewrite split_dot_cons by apply format_component_dot_free.
  rewrite split_dot_cons by apply format_component_dot_free.
  rewrite split_dot_free by apply format_component_dot_free.
  by rewrite !parse_format_component.
Qed.

Lemma next_version_lt v kind : kind ≠ none -> version_lt v (next_version v kind).
Proof.
  unfold version_lt. destruct kind; simpl; intros Hk; [lia..|done].
Qed.

(** [C4] For every well-formed version string and every bump kind the
    rule answers with a version: under none the string itself (so bumping
    again with none changes nothing); under major, minor or patch the
    well-formed string of the version whose named component is one more and
    whose lower components are zero, which is strictly above the current
    one.  "1.2.3" gives "1.3.0" under minor and "1.2.3" under none. *)
Theorem bump_version_correct (current : string) (v : Version) (kind : Bump) :
  parse_version current = Some v ->
  exists next,
    bump_version current kind = inr next /\
    parse_version next = Some (next_version v kind) /\
    next_version v major = mkVersion (S (v_major v)) 0 0 /\
    next_version v minor = mkVersion (v_major v) (S (v_minor v)) 0 /\
    next_version v patch = mkVersion (v_major v) (v_minor v) (S (v_patch v)) /\
    (kind ≠ none -> version_lt v (next_version v kind)) /\
    (kind = none -> next = current /\ bump_version next none = inr next) /\
    bump_version "1.2.3" minor = inr "1.3.0" /\
    bump_version "1.2.3" none = inr "1.2.3".
Proof.
  intros Hv. unfold bump_version at 1. rewrite Hv.
  eexists. split; [reflexivity|]. split.
  { destruct kind; try apply parse_format_version. exact Hv. }
  do 3 (split; [reflexivity|]).
  split; [apply next_version_lt|]. split.
  - intros ->. split; [reflexivity|]. unfold bump_version. by rewrite Hv.
  - split; vm_compute; reflexivity.
Qed.

Lemma bump_version_witness :
  parse_version "0.9.12" = Some (mkVersion 0 9 12) /\
  bump_version "0.9.12" major = inr "1.0.0".
Proof.
  assert (Hv : parse_version "0.9.12" = Some (mkVersion 0 9 12))
    by (vm_compute; reflexivity).
  split; [exact Hv|].
  destruct (bump_version_correct "0.9.12" _ major Hv) as (next & Hb & _).
  rewrite Hb. f_equal. vm_compute in Hb. by injection Hb as <-.
Defined.

(** [C5] An update of a stored prompt whose version string is malformed
    answers with a 4xx error for every bump kind, proposes no version, and
    leaves the store (prompts and history) as it was. *)
Theorem malformed_version_rejected
    (store : Store) (target : string) (p : Prompt) (req : UpdateRequest) :
  prompts store !! target = Some p ->
  parse_version (version p) = None ->
  exists err,
    bump_version (version p) (req_bump req) = inl err /\
    update_prompt store target req = (store, inl err) /\
    400 <= status err < 500.
Proof.
  intros Hp Hv. unfold update_prompt, bump_version. rewrite Hp, Hv.
  eexists. split; [reflexivity|]. split; [reflexivity|]. simpl. lia.
Qed.

Lemma malformed_version_witness :
  let p := mkPrompt "p1" "proj" "greeting" "1.2" "Hello" "" None in
  let store := mkStore {[ "p1" := p ]} [] in
  parse_version (version p) = None /\
  fst (update_prompt store "p1" (mkUpdateRequest (Some "Hi") None None patch)) = store.
Proof.
  intros p store.
  assert (Hv : parse_version (version p) = None) by (vm_compute; reflexivity).
  split; [exact Hv|].
  destruct (malformed_version_rejected store "p1" p
              (mkUpdateRequest (Some "Hi") None None patch))
    as (err & _ & Hu & _); [apply lookup_singleton_eq|exact Hv|].
  by rewrite Hu.
Defined.

End VersioningFacts.

Module DiffFacts.
Import Diff.

Lemma diff_units_same units : diff_units units units = Equal <$> units.
Proof.
  induction units as [|u units IH]; [done|].
  cbn [diff_units]. rewrite String.eqb_refl, IH. done.
Qed.

Lemma filter_equal_insert units : List.filter is_insert (Equal <$> units) = [].
Proof. induction units as [|u units IH]; csimpl; [done|apply IH]. Qed.

Lemma filter_equal_delete units : List.filter is_delete (Equal <$> units) = [].
Proof. induction units as [|u units IH]; csimpl; [done|apply IH]. Qed.

Lemma rate_zero total : rate 0 total = 0%Q.
Proof. unfold rate. destruct (total =? 0); reflexivity. Qed.

(** [C6] The diff of a content against itself reports no addition, no
    deletion and a change rate of zero; and the result is a function of the
    two contents: equal inputs give equal counts, rate and HTML. *)
Theorem diff_identical_and_deterministic :
  (forall s : string,
     additions (compute_diff s s) = 0 /\
     deletions (compute_diff s s) = 0 /\
     change_rate (compute_diff s s) = 0%Q) /\
  (forall old new old' new' : string,
     old = old' -> new = new' ->
     additions (compute_diff old new) = additions (compute_diff old' new') /\
     deletions (compute_diff old new) = deletions (compute_diff old' new') /\
     change_rate (compute_diff old new) = change_rate (compute_diff old' new') /\
     diff_html (compute_diff old new) = diff_html (compute_diff old' new')).
Proof.
  split.
  - intros s. unfold compute_diff. simpl.
    rewrite diff_units_same, filter_equal_insert, filter_equal_delete. simpl.
    repeat split. apply rate_zero.
  - intros old new old' new' -> ->. done.
Qed.

Lemma diff_witness :
  additions (compute_diff "hello world" "hello world") = 0 /\
  change_rate (compute_diff "hello world" "hello world") = 0%Q /\
  diff_html (compute_diff "hello world" "hello there")
  = diff_html (compute_diff "hello world" "hello there").
Proof.
  destruct diff_identical_and_deterministic as [Hsame Hdet].
  destruct (Hsame "hello world") as (Ha & _ & Hr).
  split; [exact Ha|]. split; [exact Hr|].
  exact (proj2 (proj2 (proj2
    (Hdet "hello world" "hello there" "hello world" "hello there" eq_refl eq_refl)))).
Defined.

(** The example of the specification: one deletion and one addition. *)
Example diff_hello :
  additions (compute_diff "hello world" "hello there") = 1 /\
  deletions (compute_diff "hello world" "hello there") = 1.
Proof. split; vm_compute; reflexivity. Qed.

End DiffFacts.

Module VariableFacts.
Import Playground.

(** *** Strings *)

Lemma app_cons_s c a r : String c a +:+ r = String c (a +:+ r).
Proof. reflexivity. Qed.

Lemma app_nil_s a : a +:+ "" = a.
Proof. induction a as [|c a IH]; [done|]. by rewrite ?app_cons_s, ?IH. Qed.

Lemma app_assoc_s a b c : (a +:+ b) +:+ c = a +:+ b +:+ c.
Proof. induction a as [|x a IH]; [done|]. by rewrite ?app_cons_s, ?IH. Qed.

Lemma length_app_s a b :
  String.length (a +:+ b) = String.length a + String.length b.
Proof. induction a as [|x a IH]; [done|]. rewrite ?app_cons_s; simpl. by rewrite IH. Qed.

Lemma all_chars_app P a b :
  all_chars P (a +:+ b) = all_chars P a && all_chars P b.
Proof.
  induction a as [|x a IH]; [done|].
  rewrite ?app_cons_s; simpl. by rewrite IH, andb_assoc.
Qed.

Lemma line_terminator_space c : JS.is_line_terminator c = true -> JS.is_space c = true.
Proof.
  destruct c as [[] [] [] [] [] [] [] []]; simpl; intros H; try discriminate H;
    reflexivity.
Qed.

(** *** Trimming *)

Lemma trimStart_space ws x :
  all_space ws = true -> JS.trimStart (ws +:+ x) = JS.trimStart x.
Proof.
  induction ws as [|c ws IH]; [done|].
  unfold all_space. simpl. intros [Hc Hws]%andb_prop.
  rewrite ?app_cons_s; simpl. rewrite Hc. by apply IH.
Qed.

Lemma trimEnd_all_space ws : all_space ws = true -> JS.trimEnd ws = "".
Proof.
  induction ws as [|c ws IH]; [done|].
  unfold all_space. simpl. intros [Hc Hws]%andb_prop.
  rewrite (IH Hws). by rewrite Hc.
Qed.

Lemma trimEnd_space x ws :
  all_space ws = true -> JS.trimEnd (x +:+ ws) = JS.trimEnd x.
Proof.
  intros Hws. induction x as [|c x IH].
  - simpl. by apply trimEnd_all_space.
  - rewrite ?app_cons_s; simpl. by rewrite IH.
Qed.

Lemma trimStart_all_space ws : all_space ws = true -> JS.trimStart ws = "".
Proof.
  induction ws as [|c ws IH]; [done|].
  unfold all_space. simpl. intros [Hc Hws]%andb_prop. rewrite Hc. by apply IH.
Qed.

Lemma trim_space_r x ws :
  all_space ws = true -> JS.trim (x +:+ ws) = JS.trim x.
Proof.
  intros Hws. unfold JS.trim. induction x as [|c x IH].
  - simpl. by rewrite trimStart_all_space.
  - rewrite ?app_cons_s; simpl. destruct (JS.is_space c); [exact IH|].
    by rewrite <- app_cons_s, trimEnd_space.
Qed.

Lemma trim_between ws1 cap ws2 :
  all_space ws1 = true -> all_space ws2 = true ->
  JS.trim (ws1 +:+ cap +:+ ws2) = JS.trim cap.
Proof.
  intros H1 H2. unfold JS.trim at 1. rewrite trimStart_space by done.
  by apply trim_space_r.
Qed.

Lemma trimEnd_plain name :
  all_chars (fun c => negb (JS.is_space c)) name = true -> JS.trimEnd name = name.
Proof.
  induction name as [|c name IH]; [done|].
  simpl. intros [Hc Hn]%andb_prop. rewrite (IH Hn).
  apply negb_true_iff in Hc. rewrite Hc. by destruct name.
Qed.

Lemma trim_plain name :
  all_chars (fun c => negb (JS.is_space c)) name = true -> JS.trim name = name.
Proof.
  intros Hn. unfold JS.trim. destruct name as [|c name]; [done|].
  pose proof Hn as Hn'. simpl in Hn'. apply andb_prop in Hn' as [Hc _].
  apply negb_true_iff in Hc. simpl JS.trimStart. rewrite Hc.
  by apply trimEnd_plain.
Qed.

Lemma trimStart_chars P s : all_chars P s = true -> all_chars P (JS.trimStart s) = true.
Proof.
  induction s as [|c s IH]; [done|]. simpl.
  intros [Hc Hs]%andb_prop. destruct (JS.is_space c); [by apply IH|].
  simpl. by rewrite Hc, Hs.
Qed.

Lemma trimEnd_chars P s : all_chars P s = true -> all_chars P (JS.trimEnd s) = true.
Proof.
  induction s as [|c s IH]; [done|]. simpl.
  intros [Hc Hs]%andb_prop. specialize (IH Hs).
  destruct (JS.trimEnd s) as [|c' s'].
  - destruct (JS.is_space c); [done|]. simpl. by rewrite Hc.
  - simpl in *. by rewrite Hc, IH.
Qed.

Lemma trim_single_line s : single_line s = true -> single_line (JS.trim s) = true.
Proof. intros H. by apply trimEnd_chars, trimStart_chars. Qed.

Lemma trimStart_head s :
  JS.trimStart s = "" \/ exists c r, JS.trimStart s = String c r /\ JS.is_space c = false.
Proof.
  induction s as [|c s IH]; [by left|]. simpl.
  destruct (JS.is_space c) eqn:Ec; [exact IH|]. right. by exists c, s.
Qed.

Lemma trimEnd_head c r :
  JS.is_space c = false -> exists r', JS.trimEnd (String c r) = String c r'.
Proof.
  intros Hc. simpl. rewrite Hc. destruct (JS.trimEnd r) as [|c' r']; [by exists ""|].
  by exists (String c' r').
Qed.

Lemma trimEnd_idem s : JS.trimEnd (JS.trimEnd s) = JS.trimEnd s.
Proof.
  induction s as [|c s IH]; [done|]. simpl.
  destruct (JS.trimEnd s) as [|c' r'] eqn:Et.
  - destruct (JS.is_space c) eqn:Ec; [done|]. simpl. by rewrite Ec.
  - change (JS.trimEnd (String c (String c' r')))
      with (match JS.trimEnd (String c' r') with
            | "" => if JS.is_space c then "" else String c ""
            | rest' => String c rest'
            end).
    by rewrite IH.
Qed.

(** A trimmed string is empty or starts with a character that is not white
    space, and trimming it again changes nothing. *)
Lemma trim_head s :
  JS.trim s = "" \/ exists c r, JS.trim s = String c r /\ JS.is_space c = false.
Proof.
  unfold JS.trim. destruct (trimStart_head s) as [->|(c & r & -> & Hc)]; [by left|].
  right. destruct (trimEnd_head c r Hc) as (r' & ->). by exists c, r'.
Qed.

Lemma trimEnd_trim s : JS.trimEnd (JS.trim s) = JS.trim s.
Proof. apply trimEnd_idem. Qed.

Lemma trim_idem s : JS.trim (JS.trim s) = JS.trim s.
Proof.
  unfold JS.trim at 1. destruct (trim_head s) as [->|(c & r & E & Hc)]; [done|].
  rewrite E. simpl JS.trimStart. rewrite Hc, <- E. apply trimEnd_trim.
Qed.

Lemma trimEnd_tail c s : JS.trimEnd (String c s) = String c s -> JS.trimEnd s = s.
Proof.
  simpl. destruct (JS.trimEnd s) as [|c' r'] eqn:Et.
  - destruct (JS.is_space c); [done|]. by intros [= <-].
  - by intros [= <-].
Qed.

(** A non-empty string without white space at its end holds a character
    that is not white space. *)
Lemma trimEnd_fixed_black s :
  JS.trimEnd s = s -> s ≠ "" ->
  exists w b r, s = w +:+ String b r /\ all_space w = true /\ JS.is_space b = false.
Proof.
  induction s as [|c s IH]; [done|]. intros Hfix _.
  destruct (JS.is_space c) eqn:Ec; [|by exists "", c, s].
  destruct s as [|c' s'].
  - simpl in Hfix. by rewrite Ec in Hfix.
  - destruct (IH (trimEnd_tail _ _ Hfix) ltac:(done)) as (w & b & r & E & Hw & Hb).
    exists (String c w), b, r. rewrite E. split; [done|]. split; [|done].
    unfold all_space in *. simpl. by rewrite Ec, Hw.
Qed.

Lemma single_line_plain name :
  all_chars (fun c => negb (JS.is_space c)) name = true -> single_line name = true.
Proof.
  induction name as [|c name IH]; [done|]. unfold single_line in *. simpl.
  intros [Hc Hn]%andb_prop. rewrite (IH Hn), andb_true_r.
  destruct (JS.is_line_terminator c) eqn:E; [|done].
  apply line_terminator_space in E. by rewrite E in Hc.
Qed.

Lemma placeholder_single_line p sfx text name :
  placeholder p sfx text name -> single_line name = true.
Proof.
  intros (pre & ws1 & cap & ws2 & post & _ & _ & _ & _ & Hcap & -> & _).
  by apply trim_single_line.
Qed.

(** *** The pattern matches only what it describes *)

Lemma strip_Some p s r : strip p s = Some r -> s = p +:+ r.
Proof.
  revert s. induction p as [|a p IH]; intros s; simpl.
  - by intros [= ->].
  - destruct s as [|b s]; [done|].
    destruct (Ascii.eqb_spec a b) as [->|]; [|done].
    intros H%IH. by rewrite H.
Qed.

Lemma strip_app p r : strip p (p +:+ r) = Some r.
Proof.
  induction p as [|a p IH]; [done|].
  rewrite ?app_cons_s; simpl. by rewrite Ascii.eqb_refl.
Qed.

Lemma space_then_suffix_sound sfx s after :
  space_then_suffix sfx s = Some after ->
  exists ws, s = ws +:+ sfx +:+ after /\ all_space ws = true.
Proof.
  revert after. induction s as [|c s IH]; intros after; cbn [space_then_suffix].
  - intros H%strip_Some. by exists "".
  - destruct (JS.is_space c) eqn:Ec.
    + destruct (space_then_suffix sfx s) as [after'|] eqn:Es.
      * intros [= ->]. destruct (IH _ eq_refl) as (ws & -> & Hws).
        exists (String c ws). split; [done|].
        unfold all_space in *. simpl. by rewrite Ec, Hws.
      * intros H%strip_Some. by exists "".
    + intros H%strip_Some. by exists "".
Qed.

Lemma lazy_more_sound sfx s cap after :
  lazy_more sfx s = Some (cap, after) ->
  exists ws, s = cap +:+ ws +:+ sfx +:+ after
             /\ all_space ws = true /\ single_line cap = true.
Proof.
  revert cap after. induction s as [|c s IH]; intros cap after; cbn [lazy_more].
  - destruct (space_then_suffix sfx "") as [a|] eqn:Es; [|done].
    intros [= <- <-]. apply space_then_suffix_sound in Es as (ws & Hs & Hws).
    by exists ws.
  - destruct (space_then_suffix sfx (String c s)) as [a|] eqn:Es.
    + intros [= <- <-]. apply space_then_suffix_sound in Es as (ws & Hs & Hws).
      by exists ws.
    + destruct (JS.is_line_terminator c) eqn:Ec; [done|].
      destruct (lazy_more sfx s) as [[cap' after']|] eqn:El; [|done].
      intros [= <- <-]. destruct (IH _ _ eq_refl) as (ws & -> & Hws & Hcap).
      exists ws. split; [done|]. split; [done|].
      unfold single_line in *. simpl. by rewrite Ec, Hcap.
Qed.

Lemma capture_then_sound sfx s cap after :
  capture_then sfx s = Some (cap, after) ->
  exists ws, s = cap +:+ ws +:+ sfx +:+ after
             /\ all_space ws = true /\ single_line cap = true /\ cap ≠ "".
Proof.
  unfold capture_then. destruct s as [|c s]; [done|].
  destruct (JS.is_line_terminator c) eqn:Ec; [done|].
  destruct (lazy_more sfx s) as [[cap' after']|] eqn:El; [|done].
  intros [= <- <-]. apply lazy_more_sound in El as (ws & -> & Hws & Hcap).
  exists ws. split; [done|]. split; [done|]. split; [|done].
  unfold single_line in *. simpl. by rewrite Ec, Hcap.
Qed.

Lemma space_then_capture_sound sfx s cap after :
  space_then_capture sfx s = Some (cap, after) ->
  exists ws1 ws2, s = ws1 +:+ cap +:+ ws2 +:+ sfx +:+ after
    /\ all_space ws1 = true /\ all_space ws2 = true
    /\ single_line cap = true /\ cap ≠ "".
Proof.
  induction s as [|c s IH]; cbn [space_then_capture]; [done|].
  assert (Hhere : capture_then sfx (String c s) = Some (cap, after) ->
    exists ws1 ws2, String c s = ws1 +:+ cap +:+ ws2 +:+ sfx +:+ after
      /\ all_space ws1 = true /\ all_space ws2 = true
      /\ single_line cap = true /\ cap ≠ "").
  { intros (ws & Hs & Hws & Hcap & Hne)%capture_then_sound. by exists "", ws. }
  destruct (JS.is_space c) eqn:Ec; [|exact Hhere].
  destruct (space_then_capture sfx s) as [r|] eqn:Es; [|exact Hhere].
  intros [= ->]. destruct (IH eq_refl) as (ws1 & ws2 & -> & H1 & H2 & Hcap & Hne).
  exists (String c ws1), ws2. split; [done|]. split; [|done].
  unfold all_space in *. simpl. by rewrite Ec, H1.
Qed.

Lemma match_at_sound p sfx s cap after :
  match_at p sfx s = Some (cap, after) ->
  exists ws1 ws2, s = p +:+ ws1 +:+ cap +:+ ws2 +:+ sfx +:+ after
    /\ all_space ws1 = true /\ all_space ws2 = true
    /\ single_line cap = true /\ cap ≠ "".
Proof.
  unfold match_at. destruct (strip p s) as [r|] eqn:Ep; [|done].
  apply strip_Some in Ep as ->.
  intros (ws1 & ws2 & -> & H)%space_then_capture_sound. by exists ws1, ws2.
Qed.

Lemma exec_sound p sfx s cap after :
  exec p sfx s = Some (cap, after) ->
  exists pre ws1 ws2, s = pre +:+ p +:+ ws1 +:+ cap +:+ ws2 +:+ sfx +:+ after
    /\ all_space ws1 = true /\ all_space ws2 = true
    /\ single_line cap = true /\ cap ≠ "".
Proof.
  induction s as [|c s IH]; cbn [exec].
  - destruct (match_at p sfx "") as [r|] eqn:Em; [|done].
    intros [= ->]. apply match_at_sound in Em as (ws1 & ws2 & H).
    by exists "", ws1, ws2.
  - destruct (match_at p sfx (String c s)) as [r|] eqn:Em.
    + intros [= ->]. apply match_at_sound in Em as (ws1 & ws2 & H).
      by exists "", ws1, ws2.
    + intros (pre & ws1 & ws2 & -> & H)%IH. by exists (String c pre), ws1, ws2.
Qed.

(** Every match consumes at least one character. *)
Lemma exec_shrinks p sfx s cap after :
  exec p sfx s = Some (cap, after) -> String.length after < String.length s.
Proof.
  intros (pre & ws1 & ws2 & -> & _ & _ & _ & Hne)%exec_sound.
  rewrite !length_app_s. destruct cap; [done|]. simpl. lia.
Qed.

Lemma exec_empty p sfx : exec p sfx "" = None.
Proof.
  cbn [exec]. unfold match_at. destruct p; simpl; reflexivity.
Qed.

(** The loop has run to its end within [String.length s] iterations: more
    fuel does not change its result. *)
Lemma exec_loop_fuel p sfx f1 f2 s vars :
  String.length s <= f1 -> String.length s <= f2 ->
  exec_loop f1 p sfx s vars = exec_loop f2 p sfx s vars.
Proof.
  revert f2 s vars. induction f1 as [|f1 IH]; intros f2 s vars H1 H2.
  - destruct s; [|simpl in H1; lia].
    destruct f2; cbn [exec_loop]; [done|]. by rewrite exec_empty.
  - destruct f2 as [|f2].
    + destruct s; [|simpl in H2; lia]. cbn [exec_loop]. by rewrite exec_empty.
    + cbn [exec_loop]. destruct (exec p sfx s) as [[cap after]|] eqn:Ee; [|done].
      apply exec_shrinks in Ee. apply IH; lia.
Qed.

Lemma elem_of_add y x vars : y ∈ add x vars <-> y = x \/ y ∈ vars.
Proof.
  unfold add. case_bool_decide as Hin.
  - split; [by right|]. intros [->|]; done.
  - rewrite elem_of_app, list_elem_of_singleton. tauto.
Qed.

Lemma NoDup_add x vars : NoDup vars -> NoDup (add x vars).
Proof.
  intros Hnd. unfold add. case_bool_decide as Hin; [done|].
  apply NoDup_app. split; [done|]. split; [|apply NoDup_singleton].
  intros y Hy ->%list_elem_of_singleton. done.
Qed.

Lemma exec_loop_NoDup p sfx fuel s vars :
  NoDup vars -> NoDup (exec_loop fuel p sfx s vars).
Proof.
  revert s vars. induction fuel as [|fuel IH]; intros s vars Hnd; simpl; [done|].
  destruct (exec p sfx s) as [[cap after]|]; [|done].
  by apply IH, NoDup_add.
Qed.

Lemma exec_loop_sound p sfx fuel s vars text pre0 x :
  text = pre0 +:+ s ->
  x ∈ exec_loop fuel p sfx s vars ->
  x ∈ vars \/ placeholder p sfx text x.
Proof.
  revert s vars pre0. induction fuel as [|fuel IH]; intros s vars pre0 Htext; simpl.
  - by left.
  - destruct (exec p sfx s) as [[cap after]|] eqn:Ee; [|by left].
    apply exec_sound in Ee as (pre & ws1 & ws2 & -> & H1 & H2 & Hcap & Hne).
    intros Hx.
    apply (IH after _ (pre0 +:+ pre +:+ p +:+ ws1 +:+ cap +:+ ws2 +:+ sfx)) in Hx.
    + destruct Hx as [Hx|Hx]; [|by right].
      apply elem_of_add in Hx as [->|Hx]; [right|by left].
      exists (pre0 +:+ pre), ws1, cap, ws2, after.
      rewrite Htext, !app_assoc_s. repeat split; try done.
      symmetry. by apply trim_between.
    + by rewrite Htext, !app_assoc_s.
Qed.

Lemma foldl_extract_NoDup p sfx msgs vars :
  NoDup vars -> NoDup (foldl (extract_message p sfx) vars msgs).
Proof.
  revert vars. induction msgs as [|msg msgs IH]; intros vars Hnd; simpl; [done|].
  apply IH. by apply exec_loop_NoDup.
Qed.

Lemma foldl_extract_sound p sfx msgs vars x :
  x ∈ foldl (extract_message p sfx) vars msgs ->
  x ∈ vars \/ exists msg, msg ∈ msgs /\ placeholder p sfx (content msg) x.
Proof.
  revert vars. induction msgs as [|msg msgs IH]; intros vars; simpl; [by left|].
  intros [Hx|(m & Hm & Hp)]%IH.
  - apply (exec_loop_sound p sfx _ _ _ (content msg) "") in Hx as [Hx|Hx];
      [by left| |done].
    right. exists msg. split; [apply elem_of_cons; by left|done].
  - right. exists m. split; [apply elem_of_cons; by right|done].
Qed.

(** *** Plain templates are read back exactly *)

Section Plain.

Variables (p0 s0 : ascii) (p' sfx' : string).
Let p := String p0 p'.
Let sfx := String s0 sfx'.
Hypothesis suffix_starts_black : JS.is_space s0 = false.

Lemma match_at_other c rest :
  Ascii.eqb c p0 = false -> match_at p sfx (String c rest) = None.
Proof.
  intros Hc. unfold match_at, p. cbn [strip].
  rewrite Ascii.eqb_sym, Hc. reflexivity.
Qed.

Lemma exec_text t rest :
  avoids (Some p0) t = true -> exec p sfx (t +:+ rest) = exec p sfx rest.
Proof.
  induction t as [|c t IH]; [done|].
  cbn [avoids all_chars]. intros [Hc Ht]%andb_prop.
  apply negb_true_iff in Hc.
  rewrite app_cons_s. cbn [exec]. rewrite (match_at_other _ _ Hc).
  by apply IH.
Qed.

Lemma space_then_suffix_hit ws rest :
  all_space ws = true -> space_then_suffix sfx (ws +:+ sfx +:+ rest) = Some rest.
Proof.
  induction ws as [|c ws IH].
  - intros _. change ("" +:+ sfx +:+ rest) with (String s0 (sfx' +:+ rest)).
    cbn [space_then_suffix]. rewrite suffix_starts_black.
    apply (strip_app sfx rest).
  - unfold all_space. cbn [all_chars]. intros [Hc Hws]%andb_prop.
    rewrite app_cons_s. cbn [space_then_suffix]. rewrite Hc.
    by rewrite (IH Hws).
Qed.

Lemma strip_suffix_other c rest :
  Ascii.eqb c s0 = false -> strip sfx (String c rest) = None.
Proof. intros Hc. unfold sfx. cbn [strip]. by rewrite Ascii.eqb_sym, Hc. Qed.

Lemma space_then_suffix_miss w c rest :
  all_space w = true -> JS.is_space c = false -> Ascii.eqb c s0 = false ->
  space_then_suffix sfx (w +:+ String c rest) = None.
Proof.
  intros Hw Hc Hs. induction w as [|x w IH].
  - change ("" +:+ ?y) with y. cbn [space_then_suffix]. rewrite Hc.
    by apply strip_suffix_other.
  - unfold all_space in Hw. cbn [all_chars] in Hw. apply andb_prop in Hw as [Hx Hw].
    rewrite app_cons_s. cbn [space_then_suffix]. rewrite Hx, (IH Hw).
    apply strip_suffix_other. destruct (Ascii.eqb_spec x s0) as [->|]; [|done].
    congruence.
Qed.

Lemma lazy_more_name name ws rest :
  JS.trimEnd name = name -> single_line name = true ->
  avoids (Some s0) name = true ->
  all_space ws = true ->
  lazy_more sfx (name +:+ ws +:+ sfx +:+ rest) = Some (name, rest).
Proof.
  intros Hfix Hline Havoid Hws. induction name as [|c name IH].
  - change ("" +:+ ?x) with x.
    pose proof (space_then_suffix_hit ws rest Hws) as Hhit.
    destruct (ws +:+ sfx +:+ rest) as [|c r]; cbn [lazy_more]; by rewrite Hhit.
  - destruct (trimEnd_fixed_black _ Hfix ltac:(done)) as (w & b & r & E & Hw & Hb).
    assert (Hbs : Ascii.eqb b s0 = false).
    { cbn [avoids] in Havoid. rewrite E, all_chars_app in Havoid.
      apply andb_prop in Havoid as [_ Hr]. cbn [all_chars] in Hr.
      apply andb_prop in Hr as [Hr _]. by apply negb_true_iff in Hr. }
    assert (Hmiss : space_then_suffix sfx (String c name +:+ ws +:+ sfx +:+ rest) = None).
    { rewrite E, app_assoc_s, app_cons_s. by apply space_then_suffix_miss. }
    unfold single_line in Hline. cbn [all_chars avoids] in Hline, Havoid.
    apply andb_prop in Hline as [Hc Hline]. apply andb_prop in Havoid as [_ Havoid].
    apply negb_true_iff in Hc.
    rewrite app_cons_s in Hmiss |- *. cbn [lazy_more]. rewrite Hmiss, Hc.
    by rewrite (IH (trimEnd_tail _ _ Hfix) Hline Havoid).
Qed.

Lemma plain_name ws1 name ws2 :
  plain_segment p sfx (Placeholder ws1 name ws2) = true ->
  all_space ws1 = true /\ all_space ws2 = true /\ JS.trim name = name
  /\ single_line name = true /\ avoids (Some s0) name = true
  /\ exists c r, name = String c r /\ JS.is_space c = false.
Proof.
  unfold plain_segment.
  intros [[[[[H1 H2]%andb_prop Hne]%andb_prop Htrim]%andb_prop Hline]%andb_prop
            Havoid]%andb_prop.
  apply String.eqb_eq in Htrim.
  split; [done|]. split; [done|]. split; [done|]. split; [done|]. split; [done|].
  destruct (trim_head name) as [E|(c & r & E & Hc)]; rewrite Htrim in E.
  - by rewrite E in Hne.
  - by exists c, r.
Qed.

Lemma match_at_placeholder ws1 name ws2 rest :
  plain_segment p sfx (Placeholder ws1 name ws2) = true ->
  match_at p sfx (p +:+ ws1 +:+ name +:+ ws2 +:+ sfx +:+ rest) = Some (name, rest).
Proof.
  intros (H1 & H2 & Htrim & Hline & Havoid & c & r & -> & Hc)%plain_name.
  unfold match_at. rewrite strip_app.
  assert (Hcap : capture_then sfx (String c r +:+ ws2 +:+ sfx +:+ rest)
                 = Some (String c r, rest)).
  { assert (Hfix : JS.trimEnd (String c r) = String c r).
    { rewrite <- Htrim at 2. rewrite <- Htrim at 1. apply trimEnd_trim. }
    unfold single_line in Hline. cbn [all_chars avoids] in Hline, Havoid.
    apply andb_prop in Hline as [Hlt Hline]. apply andb_prop in Havoid as [_ Havoid].
    apply negb_true_iff in Hlt.
    rewrite app_cons_s. unfold capture_then. rewrite Hlt.
    by rewrite (lazy_more_name r ws2 rest (trimEnd_tail _ _ Hfix) Hline Havoid H2). }
  clear H2. induction ws1 as [|w ws1 IH].
  - change ("" +:+ ?x) with x.
    rewrite app_cons_s in *. cbn [space_then_capture]. by rewrite Hc.
  - unfold all_space in H1. cbn [all_chars] in H1. apply andb_prop in H1 as [Hw H1].
    rewrite app_cons_s. cbn [space_then_capture]. rewrite Hw.
    by rewrite (IH H1).
Qed.

Lemma exec_placeholder ws1 name ws2 rest :
  plain_segment p sfx (Placeholder ws1 name ws2) = true ->
  exec p sfx (p +:+ ws1 +:+ name +:+ ws2 +:+ sfx +:+ rest) = Some (name, rest).
Proof.
  intros Hseg. pose proof (match_at_placeholder ws1 name ws2 rest Hseg) as Hm.
  unfold p in *. rewrite app_cons_s in *. cbn [exec]. by rewrite Hm.
Qed.

Lemma exec_loop_text fuel t rest vars :
  avoids (Some p0) t = true ->
  exec_loop fuel p sfx (t +:+ rest) vars = exec_loop fuel p sfx rest vars.
Proof.
  intros Ht. destruct fuel; cbn [exec_loop]; [done|]. by rewrite exec_text.
Qed.

Lemma exec_loop_template fuel segs vars :
  plain_template p sfx segs = true ->
  length (names segs) <= fuel ->
  exec_loop fuel p sfx (render p sfx segs) vars
  = foldl (fun vs x => add x vs) vars (names segs).
Proof.
  revert fuel vars. induction segs as [|seg segs IH]; intros fuel vars Hplain Hfuel.
  - cbn [render names foldl]. destruct fuel; cbn [exec_loop]; [done|].
    by rewrite exec_empty.
  - unfold plain_template in Hplain. cbn [forallb] in Hplain.
    apply andb_prop in Hplain as [Hseg Hplain].
    destruct seg as [t|ws1 name ws2]; cbn [render render_segment names].
    + rewrite exec_loop_text by exact Hseg. by apply IH.
    + cbn [names length] in Hfuel. destruct fuel as [|fuel]; [lia|].
      cbn [exec_loop foldl]. rewrite !app_assoc_s.
      rewrite (exec_placeholder _ _ _ _ Hseg).
      destruct (plain_name _ _ _ Hseg) as (_ & _ & Htrim & _).
      rewrite Htrim. apply IH; [done|lia].
Qed.

Lemma names_length segs :
  length (names segs) <= String.length (render p sfx segs).
Proof.
  induction segs as [|[t|ws1 name ws2] segs IH]; cbn [names render render_segment length].
  - simpl. lia.
  - rewrite length_app_s. lia.
  - rewrite !length_app_s. unfold p at 1. simpl. lia.
Qed.

Lemma extract_message_template msg segs vars :
  content msg = render p sfx segs ->
  plain_template p sfx segs = true ->
  extract_message p sfx vars msg = foldl (fun vs x => add x vs) vars (names segs).
Proof.
  intros Hc Hplain. unfold extract_message. rewrite Hc.
  apply exec_loop_template; [done|apply names_length].
Qed.

Lemma foldl_extract_templates msgs templates vars :
  Forall2 (fun msg segs => content msg = render p sfx segs
                           /\ plain_template p sfx segs = true) msgs templates ->
  foldl (extract_message p sfx) vars msgs
  = foldl (fun vs x => add x vs) vars (concat (names <$> templates)).
Proof.
  intros H. revert vars. induction H as [|msg segs msgs templates [Hc Hp] _ IH];
    intros vars; [done|].
  cbn [foldl]. rewrite fmap_cons. cbn [concat]. rewrite foldl_app.
  rewrite (extract_message_template msg segs vars Hc Hp). apply IH.
Qed.

End Plain.

Lemma elem_of_foldl_add l vars x :
  x ∈ foldl (fun vs y => add y vs) vars l <-> x ∈ vars \/ x ∈ l.
Proof.
  revert vars. induction l as [|y l IH]; intros vars; cbn [foldl].
  - rewrite elem_of_nil. tauto.
  - rewrite IH, elem_of_add, elem_of_cons. tauto.
Qed.

Lemma elem_of_distinct l x : x ∈ distinct l <-> x ∈ l.
Proof. unfold distinct. rewrite elem_of_foldl_add, elem_of_nil. tauto. Qed.

Lemma elem_of_concat (ls : list (list string)) x :
  x ∈ concat ls <-> exists l, x ∈ l /\ l ∈ ls.
Proof.
  induction ls as [|l ls IH]; cbn [concat].
  - split; [by intros ?%elem_of_nil|]. by intros (l & _ & ?%elem_of_nil).
  - rewrite elem_of_app, IH. split.
    + intros [Hx|(l' & Hx & Hl)].
      * exists l. split; [done|]. apply elem_of_cons. by left.
      * exists l'. split; [done|]. apply elem_of_cons. by right.
    + intros (l' & Hx & [->|Hl]%elem_of_cons); [by left|].
      right. by exists l'.
Qed.

Lemma plain_delimiters_inv prefix suffix :
  plain_delimiters prefix suffix = true ->
  exists p0 p' s0 sfx', prefix = String p0 p' /\ suffix = String s0 sfx'
                        /\ JS.is_space s0 = false.
Proof.
  unfold plain_delimiters. destruct prefix as [|p0 p'], suffix as [|s0 sfx']; try done.
  simpl. intros H%negb_true_iff. by exists p0, p', s0, sfx'.
Qed.

(** *** The specification's reading and the pattern agree on readable bodies *)

Lemma app_inv_length_s x y a b :
  x +:+ y = a +:+ b -> String.length x <= String.length a ->
  exists a', a = x +:+ a' /\ y = a' +:+ b.
Proof.
  revert a. induction x as [|c x IH]; intros a Heq Hlen.
  - by exists a.
  - destruct a as [|c' a]; [simpl in Hlen; lia|].
    rewrite !app_cons_s in Heq. injection Heq as <- Heq.
    destruct (IH a Heq) as (a' & -> & ->); [simpl in Hlen; lia|]. by exists a'.
Qed.

Lemma all_space_app a b : all_space (a +:+ b) = all_space a && all_space b.
Proof. apply all_chars_app. Qed.

Lemma cut_at_sound pattern s before after :
  cut_at pattern s = Some (before, after) -> s = before +:+ pattern +:+ after.
Proof.
  revert before. induction s as [|c s IH]; intros before; cbn [cut_at].
  - destruct (strip pattern "") as [r|] eqn:Es; [|done].
    intros [= <- <-]. by apply strip_Some in Es.
  - destruct (strip pattern (String c s)) as [r|] eqn:Es.
    + intros [= <- <-]. by apply strip_Some in Es.
    + destruct (cut_at pattern s) as [[b a]|]; [|done].
      intros [= <- <-]. by rewrite (IH b eq_refl).
Qed.

Lemma cut_at_none pattern s before after :
  cut_at pattern s = None -> s ≠ before +:+ pattern +:+ after.
Proof.
  revert before. induction s as [|c s IH]; intros before; cbn [cut_at].
  - destruct (strip pattern "") as [r|] eqn:Es; [done|]. intros _ Heq.
    destruct before; [|done]. change ("" +:+ ?x) with x in Heq.
    by rewrite Heq, strip_app in Es.
  - destruct (strip pattern (String c s)) as [r|] eqn:Es; [done|].
    destruct (cut_at pattern s) as [[b a]|] eqn:Ec; [done|]. intros _ Heq.
    destruct before as [|c' before].
    + change ("" +:+ ?x) with x in Heq. by rewrite Heq, strip_app in Es.
    + rewrite app_cons_s in Heq. injection Heq as _ Heq. by apply (IH before).
Qed.

(** No occurrence starts before the one found. *)
Lemma cut_at_first pattern s before after before' after' :
  cut_at pattern s = Some (before, after) ->
  s = before' +:+ pattern +:+ after' ->
  String.length before <= String.length before'.
Proof.
  revert before before'. induction s as [|c s IH]; intros before before'; cbn [cut_at].
  - destruct (strip pattern "") as [r|]; [|done]. intros [= <- <-] _. simpl. lia.
  - destruct (strip pattern (String c s)) as [r|] eqn:Es.
    + intros [= <- <-] _. simpl. lia.
    + destruct (cut_at pattern s) as [[b a]|] eqn:Ec; [|done].
      intros [= <- <-] Heq. destruct before' as [|c' before'].
      * change ("" +:+ ?x) with x in Heq. by rewrite Heq, strip_app in Es.
      * rewrite app_cons_s in Heq. injection Heq as _ Heq.
        specialize (IH b before' eq_refl Heq). simpl. lia.
Qed.

Lemma spec_bodies_fuel prefix suffix f1 f2 s :
  prefix ≠ "" -> String.length s <= f1 -> String.length s <= f2 ->
  spec_bodies f1 prefix suffix s = spec_bodies f2 prefix suffix s.
Proof.
  intros Hp. revert f2 s. induction f1 as [|f1 IH]; intros f2 s H1 H2.
  - destruct s; [|simpl in H1; lia].
    destruct f2; cbn [spec_bodies]; [done|].
    destruct (cut_at prefix "") as [[b a]|] eqn:Ec; [|done].
    apply cut_at_sound in Ec. destruct b, prefix; done.
  - destruct f2 as [|f2].
    + destruct s; [|simpl in H2; lia]. cbn [spec_bodies].
      destruct (cut_at prefix "") as [[b a]|] eqn:Ec; [|done].
      apply cut_at_sound in Ec. destruct b, prefix; done.
    + cbn [spec_bodies].
      destruct (cut_at prefix s) as [[b opened]|] eqn:Ec; [|done].
      destruct (cut_at suffix opened) as [[body after]|] eqn:Eo; [|done].
      apply cut_at_sound in Ec, Eo. f_equal. apply IH.
      * rewrite Ec, Eo, !length_app_s in H1.
        assert (1 <= String.length prefix) by (destruct prefix; [done|simpl; lia]). lia.
      * rewrite Ec, Eo, !length_app_s in H2.
        assert (1 <= String.length prefix) by (destruct prefix; [done|simpl; lia]). lia.
Qed.

(** Every body stands between an occurrence of the prefix and the nearest
    following occurrence of the suffix. *)
Lemma spec_bodies_between prefix suffix fuel s text done body :
  text = done +:+ s ->
  body ∈ spec_bodies fuel prefix suffix s ->
  between_delimiters prefix suffix text (JS.trim body).
Proof.
  revert s done. induction fuel as [|fuel IH]; intros s done Htext; cbn [spec_bodies].
  - by intros ?%elem_of_nil.
  - destruct (cut_at prefix s) as [[b opened]|] eqn:Ec; [|by intros ?%elem_of_nil].
    destruct (cut_at suffix opened) as [[body' after]|] eqn:Eo;
      [|by intros ?%elem_of_nil].
    intros [->|Hin]%elem_of_cons.
    + exists (done +:+ b), body', after.
      apply cut_at_sound in Ec. pose proof (cut_at_sound _ _ _ _ Eo) as Ho.
      split; [by rewrite Htext, Ec, Ho, !app_assoc_s|]. split; [|done].
      intros body'' post'' Heq. rewrite <- Ho in Heq.
      by apply (cut_at_first _ _ _ _ _ _ Eo Heq).
    + apply (IH after (done +:+ b +:+ prefix +:+ body' +:+ suffix)); [|done].
      apply cut_at_sound in Ec, Eo. by rewrite Htext, Ec, Eo, !app_assoc_s.
Qed.

(** *** The pattern on a readable body *)

Lemma exec_no_prefix p sfx s :
  cut_at p s = None -> exec p sfx s = None.
Proof.
  induction s as [|c s IH]; cbn [cut_at exec]; unfold match_at.
  - by destruct (strip p "").
  - destruct (strip p (String c s)); [done|].
    destruct (cut_at p s) as [[b a]|]; [done|]. intros _. by apply IH.
Qed.

Lemma exec_skip p sfx s before opened :
  cut_at p s = Some (before, opened) -> exec p sfx s = exec p sfx (p +:+ opened).
Proof.
  revert before. induction s as [|c s IH]; intros before; cbn [cut_at].
  - destruct (strip p "") as [r|] eqn:Es; [|done].
    intros [= <- <-]. by apply strip_Some in Es as <-.
  - destruct (strip p (String c s)) as [r|] eqn:Es.
    + intros [= <- <-]. by apply strip_Some in Es as <-.
    + destruct (cut_at p s) as [[b a]|] eqn:Ec; [|done].
      intros [= <- <-]. cbn [exec]. unfold match_at. rewrite Es. by apply (IH b).
Qed.

Lemma exec_no_suffix p sfx opened :
  cut_at sfx opened = None -> exec p sfx (p +:+ opened) = None.
Proof.
  intros Hc. destruct (exec p sfx (p +:+ opened)) as [[cap after]|] eqn:Ee; [|done].
  apply exec_sound in Ee as (pre & ws1 & ws2 & Heq & _).
  rewrite <- !app_assoc_s in Heq.
  rewrite (app_assoc_s pre p) in Heq.
  destruct (app_inv_length_s p opened ((((pre +:+ p) +:+ ws1) +:+ cap) +:+ ws2)
              (sfx +:+ after)) as (a' & _ & Ho).
  - by rewrite Heq, !app_assoc_s.
  - rewrite !length_app_s. lia.
  - by apply (cut_at_none _ _ a' after) in Hc.
Qed.

Lemma strip_space_run sp b sfx2 u y after :
  all_space sp = true -> JS.is_space b = false ->
  all_space u = true -> strip (sp +:+ String b sfx2) (u +:+ String b y) = Some after ->
  u = sp.
Proof.
  intros Hsp Hb. revert u.
  induction sp as [|c sp IH]; intros u Hu.
  - destruct u as [|x u]; [done|]. change ("" +:+ ?z) with z.
    rewrite app_cons_s. cbn [strip].
    unfold all_space in Hu. cbn [all_chars] in Hu. apply andb_prop in Hu as [Hx _].
    destruct (Ascii.eqb_spec b x) as [->|]; [congruence|done].
  - unfold all_space in Hsp. cbn [all_chars] in Hsp. apply andb_prop in Hsp as [Hc Hsp].
    destruct u as [|x u].
    + change ("" +:+ ?z) with z. rewrite app_cons_s. cbn [strip].
      destruct (Ascii.eqb_spec c b) as [->|]; [congruence|done].
    + unfold all_space in Hu. cbn [all_chars] in Hu. apply andb_prop in Hu as [_ Hu].
      rewrite !app_cons_s. cbn [strip].
      destruct (Ascii.eqb_spec c x) as [->|]; [|done].
      intros H. by rewrite (IH Hsp u Hu H).
Qed.

Lemma space_then_suffix_short sp b sfx2 u y :
  all_space sp = true -> JS.is_space b = false ->
  all_space u = true -> String.length u < String.length sp ->
  space_then_suffix (sp +:+ String b sfx2) (u +:+ String b y) = None.
Proof.
  intros Hsp Hb Hu Hlen. induction u as [|x u IH].
  - change ("" +:+ ?z) with z. cbn [space_then_suffix]. rewrite Hb.
    destruct (strip (sp +:+ String b sfx2) (String b y)) as [after|] eqn:Es; [|done].
    apply (strip_space_run sp b sfx2 "" y after Hsp Hb eq_refl) in Es.
    rewrite <- Es in Hlen. simpl in Hlen. lia.
  - pose proof Hu as Hu'. unfold all_space in Hu'. cbn [all_chars] in Hu'.
    apply andb_prop in Hu' as [Hx Hu'].
    rewrite app_cons_s. cbn [space_then_suffix]. rewrite Hx.
    rewrite IH; [|done|simpl in Hlen; lia].
    rewrite <- app_cons_s.
    destruct (strip (sp +:+ String b sfx2) (String x u +:+ String b y))
      as [after|] eqn:Es; [|done].
    apply (strip_space_run sp b sfx2 _ y after Hsp Hb Hu) in Es.
    rewrite <- Es in Hlen. lia.
Qed.

(** The white space before the suffix is given back exactly as far as the
    suffix needs it. *)
Lemma space_then_suffix_found sp b sfx2 w after :
  all_space sp = true -> JS.is_space b = false -> all_space w = true ->
  space_then_suffix (sp +:+ String b sfx2) (w +:+ (sp +:+ String b sfx2) +:+ after)
  = Some after.
Proof.
  intros Hsp Hb Hw. induction w as [|x w IH].
  - change ("" +:+ ?z) with z.
    pose proof (strip_app (sp +:+ String b sfx2) after) as Hstrip.
    destruct sp as [|c sp'].
    + change ("" +:+ ?z) with z in *. rewrite app_cons_s in *.
      cbn [space_then_suffix]. by rewrite Hb.
    + rewrite !app_cons_s in *. cbn [space_then_suffix].
      pose proof Hsp as Hsp'.
      unfold all_space in Hsp'. cbn [all_chars] in Hsp'.
      apply andb_prop in Hsp' as [Hc Hsp'].
      rewrite Hc. rewrite app_assoc_s, app_cons_s.
      rewrite <- (app_cons_s c sp' (String b sfx2)).
      rewrite (space_then_suffix_short (String c sp') b sfx2 sp' (sfx2 +:+ after));
        [|done|done|done|simpl; lia].
      rewrite app_cons_s, <- (app_cons_s b sfx2 after), <- app_assoc_s. exact Hstrip.
  - unfold all_space in Hw. cbn [all_chars] in Hw. apply andb_prop in Hw as [Hx Hw].
    rewrite app_cons_s. cbn [space_then_suffix]. by rewrite Hx, (IH Hw).
Qed.

(** A string that is not all white space: white space, then a character
    that is not. *)
Lemma not_all_space_split s :
  all_space s = false ->
  exists sp b r, s = sp +:+ String b r /\ all_space sp = true /\ JS.is_space b = false.
Proof.
  induction s as [|c s IH]; [done|]. unfold all_space in *. cbn [all_chars].
  destruct (JS.is_space c) eqn:Ec; [|intros _; by exists "", c, s].
  intros (sp & b & r & -> & Hsp & Hb)%IH. exists (String c sp), b, r.
  split; [done|]. split; [|done]. simpl. by rewrite Ec.
Qed.

Section Readable.

Variable sfx : string.
Hypothesis suffix_found : forall w after,
  all_space w = true -> space_then_suffix sfx (w +:+ sfx +:+ after) = Some after.

Variables (ws1 ws2 after : string).
Hypothesis ws1_space : all_space ws1 = true.
Hypothesis ws2_space : all_space ws2 = true.

(** [core] is what is left of the trimmed body, [seen] what the capture
    has taken of it. *)
Lemma lazy_more_core seen core :
  (forall before' after',
     ws1 +:+ seen +:+ core +:+ ws2 +:+ sfx +:+ after = before' +:+ sfx +:+ after' ->
     String.length (ws1 +:+ seen +:+ core +:+ ws2) <= String.length before') ->
  JS.trimEnd core = core -> single_line core = true ->
  lazy_more sfx (core +:+ ws2 +:+ sfx +:+ after) = Some (core, after).
Proof.
  revert seen. induction core as [|c core IH]; intros seen Hfirst Hfix Hline.
  - change ("" +:+ ?x) with x.
    pose proof (suffix_found ws2 after ws2_space) as Hhit.
    destruct (ws2 +:+ sfx +:+ after) as [|c r]; cbn [lazy_more]; by rewrite Hhit.
  - assert (Hmiss : space_then_suffix sfx (String c core +:+ ws2 +:+ sfx +:+ after) = None).
    { destruct (space_then_suffix sfx (String c core +:+ ws2 +:+ sfx +:+ after))
        as [after'|] eqn:Es; [|done]. exfalso.
      apply space_then_suffix_sound in Es as (ws & Heq & Hws).
      specialize (Hfirst ((ws1 +:+ seen) +:+ ws) after').
      rewrite !app_assoc_s in Hfirst. rewrite Heq in Hfirst.
      specialize (Hfirst eq_refl). rewrite !length_app_s in Hfirst.
      destruct (app_inv_length_s (String c core) (ws2 +:+ sfx +:+ after) ws
                  (sfx +:+ after') Heq) as (a' & -> & _); [lia|].
      rewrite all_space_app in Hws. apply andb_prop in Hws as [Hws _].
      destruct (trimEnd_fixed_black _ Hfix ltac:(done)) as (w & x & r & E & _ & Hx).
      rewrite E, all_space_app in Hws. apply andb_prop in Hws as [_ Hws].
      unfold all_space in Hws. cbn [all_chars] in Hws. by rewrite Hx in Hws. }
    unfold single_line in Hline. cbn [all_chars] in Hline.
    apply andb_prop in Hline as [Hc Hline]. apply negb_true_iff in Hc.
    rewrite app_cons_s in Hmiss |- *. cbn [lazy_more]. rewrite Hmiss, Hc.
    rewrite (IH (seen +:+ String c "")); [done| |by apply (trimEnd_tail c)|done].
    intros before' after'. rewrite !app_assoc_s. cbn [append]. apply Hfirst.
Qed.

Lemma space_then_capture_core core :
  (forall before' after',
     ws1 +:+ core +:+ ws2 +:+ sfx +:+ after = before' +:+ sfx +:+ after' ->
     String.length (ws1 +:+ core +:+ ws2) <= String.length before') ->
  JS.trim core = core -> core ≠ "" -> single_line core = true ->
  space_then_capture sfx (ws1 +:+ core +:+ ws2 +:+ sfx +:+ after) = Some (core, after).
Proof.
  intros Hfirst Htrim Hne Hline.
  destruct (trim_head core) as [E|(c & r & E & Hc)]; rewrite Htrim in E; [done|].
  assert (Hfix : JS.trimEnd core = core).
  { rewrite <- Htrim at 2. rewrite <- Htrim at 1. apply trimEnd_trim. }
  assert (Hcap : capture_then sfx (core +:+ ws2 +:+ sfx +:+ after) = Some (core, after)).
  { rewrite E in Hfix, Hline, Hfirst |- *.
    unfold single_line in Hline. cbn [all_chars] in Hline.
    apply andb_prop in Hline as [Hlt Hline]. apply negb_true_iff in Hlt.
    rewrite app_cons_s. unfold capture_then. rewrite Hlt.
    rewrite (lazy_more_core (String c "") r); [done| |by apply (trimEnd_tail c)|done].
    intros before' after'. cbn [append]. apply Hfirst. }
  clear Hfirst. pose proof ws1_space as H1. induction ws1 as [|w ws IH].
  - change ("" +:+ ?x) with x. rewrite E in Hcap |- *.
    rewrite app_cons_s in *. cbn [space_then_capture]. by rewrite Hc.
  - unfold all_space in H1. cbn [all_chars] in H1. apply andb_prop in H1 as [Hw H1].
    rewrite app_cons_s. cbn [space_then_capture]. rewrite Hw.
    by rewrite (IH H1).
Qed.

End Readable.

Lemma trimStart_decompose s :
  exists ws, s = ws +:+ JS.trimStart s /\ all_space ws = true.
Proof.
  induction s as [|c s IH]; [by exists ""|]. simpl.
  destruct (JS.is_space c) eqn:Ec; [|by exists ""].
  destruct IH as (ws & E & Hws). exists (String c ws).
  split; [by rewrite app_cons_s, <- E|]. unfold all_space in *. simpl. by rewrite Ec.
Qed.

Lemma trimEnd_decompose s :
  exists ws, s = JS.trimEnd s +:+ ws /\ all_space ws = true.
Proof.
  induction s as [|c s IH]; [by exists ""|]. simpl.
  destruct IH as (ws & E & Hws). destruct (JS.trimEnd s) as [|c' r'].
  - change ("" +:+ ?x) with x in E. subst ws.
    destruct (JS.is_space c) eqn:Ec; [|by exists s].
    exists (String c s). split; [done|]. unfold all_space in *. simpl. by rewrite Ec.
  - exists ws. split; [|done]. by rewrite app_cons_s, <- E.
Qed.

Lemma trim_decompose body :
  exists ws1 ws2, body = ws1 +:+ JS.trim body +:+ ws2
                  /\ all_space ws1 = true /\ all_space ws2 = true.
Proof.
  destruct (trimStart_decompose body) as (ws1 & E1 & H1).
  destruct (trimEnd_decompose (JS.trimStart body)) as (ws2 & E2 & H2).
  exists ws1, ws2. unfold JS.trim. by rewrite <- E2, <- E1.
Qed.

(** At a prefix followed by a readable body and the nearest suffix the
    pattern matches, and captures the trimmed body. *)
Lemma match_at_body p sfx body after :
  all_space sfx = false ->
  (forall before' after',
     body +:+ sfx +:+ after = before' +:+ sfx +:+ after' ->
     String.length body <= String.length before') ->
  readable_body body = true ->
  match_at p sfx (p +:+ body +:+ sfx +:+ after) = Some (JS.trim body, after).
Proof.
  intros Hsfx Hfirst [Hne Hline]%andb_prop.
  assert (Hfound : forall w after',
            all_space w = true -> space_then_suffix sfx (w +:+ sfx +:+ after') = Some after').
  { destruct (not_all_space_split _ Hsfx) as (sp & b & sfx2 & -> & Hsp & Hb).
    intros w after' Hw. by apply space_then_suffix_found. }
  destruct (trim_decompose body) as (ws1 & ws2 & E & H1 & H2).
  unfold match_at. rewrite strip_app.
  rewrite E at 1. rewrite !app_assoc_s.
  apply space_then_capture_core.
  - exact Hfound.
  - exact H1.
  - exact H2.
  - intros before' after'. rewrite <- !app_assoc_s, (app_assoc_s ws1), <- E.
    rewrite !app_assoc_s. apply Hfirst.
  - apply trim_idem.
  - by destruct (JS.trim body).
  - exact Hline.
Qed.

Lemma exec_body p sfx opened body after :
  p ≠ "" -> all_space sfx = false ->
  cut_at sfx opened = Some (body, after) -> readable_body body = true ->
  exec p sfx (p +:+ opened) = Some (JS.trim body, after).
Proof.
  intros Hp Hsfx Hc Hbody. pose proof (cut_at_sound _ _ _ _ Hc) as Ho.
  assert (Hm : match_at p sfx (p +:+ opened) = Some (JS.trim body, after)).
  { rewrite Ho. apply match_at_body; [done| |done].
    intros before' after' Heq. rewrite <- Ho in Heq.
    by apply (cut_at_first _ _ _ _ _ _ Hc Heq). }
  destruct p as [|c p]; [done|]. rewrite app_cons_s in *. cbn [exec]. by rewrite Hm.
Qed.

Lemma exec_loop_spec p sfx fuel s vars :
  p ≠ "" -> all_space sfx = false ->
  forallb readable_body (spec_bodies fuel p sfx s) = true ->
  exec_loop fuel p sfx s vars
  = foldl (fun vs x => add x vs) vars (JS.trim <$> spec_bodies fuel p sfx s).
Proof.
  intros Hp Hsfx. revert s vars.
  induction fuel as [|fuel IH]; intros s vars; cbn [spec_bodies exec_loop]; [done|].
  destruct (cut_at p s) as [[before opened]|] eqn:Ec.
  - rewrite (exec_skip p sfx s before opened Ec).
    destruct (cut_at sfx opened) as [[body after]|] eqn:Eo.
    + cbn [forallb]. intros [Hbody Hrest]%andb_prop.
      rewrite (exec_body p sfx opened body after Hp Hsfx Eo Hbody).
      rewrite fmap_cons. cbn [foldl]. rewrite trim_idem. by apply IH.
    + intros _. by rewrite (exec_no_suffix p sfx opened Eo).
  - intros _. by rewrite (exec_no_prefix p sfx s Ec).
Qed.

Lemma foldl_extract_spec p sfx msgs vars :
  p ≠ "" -> all_space sfx = false ->
  Forall (fun msg => forallb readable_body (spec_message_bodies p sfx msg) = true) msgs ->
  foldl (extract_message p sfx) vars msgs
  = foldl (fun vs x => add x vs) vars
          (JS.trim <$> concat (spec_message_bodies p sfx <$> msgs)).
Proof.
  intros Hp Hsfx Hall. revert vars.
  induction Hall as [|msg msgs Hmsg _ IH]; intros vars; [done|].
  cbn [foldl]. rewrite fmap_cons. cbn [concat]. rewrite fmap_app, foldl_app.
  unfold extract_message at 2. unfold spec_message_bodies at 1 in Hmsg.
  rewrite (exec_loop_spec p sfx _ _ vars Hp Hsfx Hmsg). apply IH.
Qed.

Lemma spec_names_between prefix suffix msgs name :
  name ∈ spec_names prefix suffix msgs ->
  exists msg, msg ∈ msgs /\ between_delimiters prefix suffix (content msg) name.
Proof.
  unfold spec_names. rewrite elem_of_distinct.
  intros (body & -> & Hbody)%list_elem_of_fmap.
  apply elem_of_concat in Hbody as (l & Hbody & (msg & -> & Hmsg)%list_elem_of_fmap).
  exists msg. split; [done|].
  by apply (spec_bodies_between prefix suffix (String.length (content msg))
              (content msg) (content msg) "" body).
Qed.

(** The order of backtracking shows on unusual inputs: the leading white
    space is given back when the capture would otherwise be empty, and a
    capture may run over a suffix that directly follows the white space. *)
Example extraction_plain :
  extractVariables [mkMessage "user-1" user "Hi {{ name }}, {{name}} and {{ city}}"]
                   "{{" "}}"
  = Some ["name"; "city"].
Proof. vm_compute. reflexivity. Qed.

Example extraction_blank_name :
  extractVariables [mkMessage "user-1" user "{{ }}"] "{{" "}}" = Some [""].
Proof. vm_compute. reflexivity. Qed.

Example extraction_runs_over_suffix :
  extractVariables [mkMessage "user-1" user "{{ }}x}}"] "{{" "}}" = Some ["}}x"].
Proof. vm_compute. reflexivity. Qed.

Example extraction_nested_prefix :
  extractVariables [mkMessage "user-1" user "{{ {{a}}"] "{{" "}}" = Some ["{{a"].
Proof. vm_compute. reflexivity. Qed.

(** Names may hold white space; only the white space around them is
    dropped. *)
Example extraction_spaced_names :
  extractVariables [mkMessage "user-1" user spaced_names_content] "{{" "}}"
  = Some ["first name"; "x"; "y"].
Proof. vm_compute. reflexivity. Qed.

(** [C7] (as amended) With an empty prefix or suffix the effect returns
    before extracting and the variable list stays as it was.  With both
    non-empty it sets a duplicate-free list; every name in it is free of
    line terminators and is the trimmed text found, in some message, between
    an occurrence of the prefix and a later occurrence of the suffix, that
    text being white space around a non-empty capture without line
    terminator.  The list is exactly the one the specification words,
    the distinct trimmed texts between a prefix and the nearest following
    suffix, each message read from left to right and reading going on after
    the suffix, in order of first occurrence, whenever the suffix is not all
    white space and each of these texts, trimmed, is not empty and holds no
    line terminator; the names may hold white space.  In particular, for
    messages written as plain templates the list is exactly the distinct
    placeholder names, in order of first occurrence. *)
Theorem variable_extraction (msgs : list Message) (prefix suffix : string) :
  (prefix = "" \/ suffix = "" ->
     extractVariables msgs prefix suffix = None /\
     forall s, messages s = msgs -> variablePrefix s = prefix ->
               variableSuffix s = suffix -> variables_effect s = s) /\
  (prefix ≠ "" -> suffix ≠ "" ->
     exists vars,
       extractVariables msgs prefix suffix = Some vars /\
       NoDup vars /\
       (forall name, name ∈ vars ->
          single_line name = true /\
          exists msg, msg ∈ msgs /\ placeholder prefix suffix (content msg) name) /\
       (forall templates,
          plain_delimiters prefix suffix = true ->
          Forall2 (fun msg segs => content msg = render prefix suffix segs
                                   /\ plain_template prefix suffix segs = true)
                  msgs templates ->
          vars = distinct (concat (names <$> templates)) /\
          forall name, name ∈ vars <->
                       exists segs, segs ∈ templates /\ name ∈ names segs) /\
       (all_space suffix = false ->
        Forall (fun msg =>
                  forallb readable_body (spec_message_bodies prefix suffix msg) = true)
               msgs ->
        vars = spec_names prefix suffix msgs /\
        forall name, name ∈ vars ->
          exists msg, msg ∈ msgs /\
                      between_delimiters prefix suffix (content msg) name)).
Proof.
  split.
  - intros Hempty.
    assert (Hnone : extractVariables msgs prefix suffix = None).
    { unfold extractVariables. destruct Hempty as [-> | ->]; [done|].
      by rewrite orb_true_r. }
    split; [exact Hnone|]. intros s <- <- <-. unfold variables_effect.
    by rewrite Hnone.
  - intros Hp Hs.
    assert (Hsome : extractVariables msgs prefix suffix
                    = Some (foldl (extract_message prefix suffix) [] msgs)).
    { unfold extractVariables. by destruct prefix, suffix. }
    eexists. split; [exact Hsome|].
    split; [apply foldl_extract_NoDup, NoDup_nil_2|]. split; [|split].
    + intros name [Hin|(msg & Hmsg & Hph)]%foldl_extract_sound;
        [by apply elem_of_nil in Hin|].
      split; [by apply (placeholder_single_line _ _ _ _ Hph)|by exists msg].
    + intros templates Hd Hall.
      apply plain_delimiters_inv in Hd as (p0 & p' & s0 & sfx' & -> & -> & Hblack).
      rewrite (foldl_extract_templates _ _ _ _ Hblack msgs templates [] Hall).
      split; [reflexivity|]. intros name.
      fold (distinct (concat (names <$> templates))).
      rewrite elem_of_distinct, elem_of_concat. split.
      * intros (l & Hn & (segs & -> & Hsegs)%list_elem_of_fmap). by exists segs.
      * intros (segs & Hsegs & Hn). exists (names segs). split; [done|].
        apply list_elem_of_fmap. by exists segs.
    + intros Hsfx Hall.
      rewrite (foldl_extract_spec prefix suffix msgs [] Hp Hsfx Hall).
      fold (distinct (JS.trim <$> concat (spec_message_bodies prefix suffix <$> msgs))).
      fold (spec_names prefix suffix msgs).
      split; [reflexivity|apply spec_names_between].
Qed.

Lemma variable_extraction_witness :
  let msgs := [mkMessage "user-1" user (render "{{" "}}" greeting_template)] in
  let spaced := [mkMessage "user-1" user spaced_names_content] in
  "{{" ≠ "" /\ "}}" ≠ "" /\
  extractVariables msgs "{{" "}}" = Some ["name"; "order_id"] /\
  extractVariables spaced "{{" "}}" = Some ["first name"; "x"; "y"].
Proof.
  intros msgs spaced. split; [discriminate|]. split; [discriminate|]. split.
  - destruct (variable_extraction msgs "{{" "}}") as [_ Hfull].
    destruct Hfull as (vars & -> & _ & _ & Hplain & _); [discriminate..|].
    destruct (Hplain [greeting_template]) as [-> _]; [reflexivity| |reflexivity].
    repeat constructor.
  - destruct (variable_extraction spaced "{{" "}}") as [_ Hfull].
    destruct Hfull as (vars & -> & _ & _ & _ & Hspec); [discriminate..|].
    destruct Hspec as [-> _]; [reflexivity| |reflexivity].
    repeat constructor.
Defined.

(** [C7] (as stated) fails, in three ways.  The name "a, line feed, b"
    stands between a prefix and the nearest following suffix, and nothing is
    extracted, since the capture does not cross a line terminator.  After a
    blank body the pattern reads on to a later suffix, and a name is
    extracted that does not end at the nearest suffix.  With a suffix of
    white space the pattern gives back less white space than the nearest
    suffix leaves, so that the next placeholder starts elsewhere, although
    every body is readable. *)
Lemma multiline_placeholder_not_extracted :
  (between_delimiters "{{" "}}" multiline_content multiline_name /\
   JS.trim multiline_name = multiline_name /\
   extractVariables [mkMessage "user-1" user multiline_content] "{{" "}}" = Some [] /\
   spec_names "{{" "}}" [mkMessage "user-1" user multiline_content] = [multiline_name]) /\
  (extractVariables [mkMessage "user-1" user blank_then_more] "{{" "}}" = Some ["}}x"] /\
   spec_names "{{" "}}" [mkMessage "user-1" user blank_then_more] = [""]) /\
  (extractVariables [mkMessage "user-1" user spaced_content] " " " " = Some ["a"; "c"] /\
   spec_names " " " " [mkMessage "user-1" user spaced_content] = ["a"; "b"] /\
   forallb readable_body
     (spec_message_bodies " " " " (mkMessage "user-1" user spaced_content)) = true).
Proof.
  split; [|split; repeat split; vm_compute; reflexivity].
  split; [|split; [|split]; vm_compute; reflexivity].
  exists "", multiline_name, "". split; [reflexivity|]. split; [|reflexivity].
  intros body' post' Heq. vm_compute in Heq.
  destruct body' as [|c1 [|c2 [|c3 body']]]; try discriminate Heq.
  simpl. lia.
Qed.

End VariableFacts.

(** ** Titles and previews of the history list; literal patterns *)

Module TitlesFacts.
Import Titles.

Lemma length_slice_to n s : String.length (slice_to n s) = min n (String.length s).
Proof.
  revert s. induction n as [|n IH]; intros [|c s]; simpl; try done. by rewrite IH.
Qed.

Lemma length_append a b :
  String.length (a +:+ b) = String.length a + String.length b.
Proof. induction a as [|c a IH]; simpl; [done|]. by rewrite IH. Qed.

Lemma slice_to_append n a b :
  String.length a = n -> slice_to n (a +:+ b) = a.
Proof.
  revert a. induction n as [|n IH]; intros [|c a]; simpl; try done.
  intros [= H]. by rewrite IH.
Qed.

Lemma slice_to_all n s : String.length s <= n -> slice_to n s = s.
Proof.
  revert s. induction n as [|n IH]; intros [|c s]; simpl; try done; [lia|].
  intros H. rewrite IH; [done|lia].
Qed.

Lemma slice_to_idem n s : slice_to n (slice_to n s) = slice_to n s.
Proof. apply slice_to_all. rewrite length_slice_to. lia. Qed.

Lemma ellipsis_short n text : String.length text <= n -> ellipsis n text = text.
Proof. unfold ellipsis. intros H. by rewrite (proj2 (Nat.ltb_ge _ _) H). Qed.

Lemma ellipsis_long n text :
  n < String.length text -> ellipsis n text = slice_to n text +:+ "...".
Proof. unfold ellipsis. intros H. by rewrite (proj2 (Nat.ltb_lt _ _) H). Qed.

Lemma ellipsis_length n text :
  String.length (ellipsis n text) <= n + 3
  /\ (text ≠ "" -> ellipsis n text ≠ "")
  /\ slice_to n (ellipsis n text) = slice_to n text.
Proof.
  destruct (Nat.lt_ge_cases n (String.length text)) as [Hlt|Hge].
  - rewrite (ellipsis_long _ _ Hlt). rewrite length_append, length_slice_to.
    split; [simpl; lia|]. split.
    + intros _. destruct (slice_to n text); done.
    + rewrite slice_to_append; [done|]. rewrite length_slice_to. lia.
  - rewrite (ellipsis_short _ _ Hge). split; [lia|done].
Qed.


Lemma first_user_text_found before e after :
  Forall skipped before -> e_role e = "user" -> entry_text e ≠ "" ->
  first_user_text (before ++ e :: after) = Some (entry_text e).
Proof.
  intros Hskip Hrole Htext. induction Hskip as [|e' before Hs _ IH]; simpl.
  - rewrite Hrole. simpl. by destruct (entry_text e).
  - destruct (String.eqb_spec (e_role e') "user") as [Hu|Hu]; [|exact IH].
    destruct Hs as [Hs|Hs]; [done|]. by rewrite Hs.
Qed.

Lemma first_user_text_none l :
  Forall skipped l -> first_user_text l = None.
Proof.
  induction 1 as [|e l Hs _ IH]; simpl; [done|].
  destruct (String.eqb_spec (e_role e) "user") as [Hu|Hu]; [|exact IH].
  destruct Hs as [Hs|Hs]; [done|]. by rewrite Hs.
Qed.

(** [X1] When the list holds an entry of role user with non-blank content,
    the title is built from the first such entry alone, whatever the fallback
    label and the time: its trimmed content when that has at most 30 code
    units, else the first 30 followed by three dots; so the title has between
    1 and 33 code units and agrees with the content on its first 30. *)
Theorem history_title_from_first_user_text
    (before after : list Entry) (e : Entry)
    (fallbackLabel : option string) (timestamp : string) :
  Forall skipped before -> e_role e = "user" -> entry_text e ≠ "" ->
  let title := buildHistoryTitle (Some (before ++ e :: after)) fallbackLabel timestamp in
  title = ellipsis 30 (entry_text e) /\
  1 <= String.length title <= 33 /\
  slice_to 30 title = slice_to 30 (entry_text e) /\
  (String.length (entry_text e) <= 30 -> title = entry_text e) /\
  (30 < String.length (entry_text e) -> title = slice_to 30 (entry_text e) +:+ "...").
Proof.
  intros Hskip Hrole Htext title. subst title. unfold buildHistoryTitle. simpl.
  rewrite (first_user_text_found _ _ _ Hskip Hrole Htext).
  change HISTORY_TITLE_LIMIT with 30.
  destruct (ellipsis_length 30 (entry_text e)) as (Hlen & Hne & Hpre).
  split; [done|]. split; [|split; [done|split]].
  - specialize (Hne Htext). destruct (ellipsis 30 (entry_text e)); [done|].
    simpl in *. lia.
  - apply ellipsis_short.
  - apply ellipsis_long.
Qed.

Lemma history_title_witness :
  let e := mkEntry "user" (Some long_question) in
  let before := [mkEntry "system" (Some "You are terse."); mkEntry "user" (Some "   ")] in
  Forall skipped before /\ e_role e = "user" /\ entry_text e ≠ "" /\
  buildHistoryTitle (Some (before ++ [e])) (Some "qwen-turbo") "1/1/2026"
  = "Please summarise the quarterly...".
Proof.
  intros e before.
  assert (Hskip : Forall skipped before).
  { apply Forall_cons; split; [left; discriminate|].
    apply Forall_cons; split; [right; reflexivity|apply Forall_nil_2]. }
  assert (Htext : entry_text e ≠ "") by (vm_compute; discriminate).
  split; [exact Hskip|]. split; [reflexivity|]. split; [exact Htext|].
  destruct (history_title_from_first_user_text before [] e (Some "qwen-turbo")
              "1/1/2026" Hskip eq_refl Htext) as (_ & _ & _ & _ & Hlong).
  rewrite Hlong; [vm_compute; reflexivity|vm_compute; lia].
Defined.

(** [X2] Without any entry of role user with non-blank content (or without
    a list) the title is the fallback label, or the default label when none
    is given or it is empty, followed by the time; it is never empty. *)
Theorem history_title_fallback
    (messageList : option (list Entry)) (fallbackLabel : option string)
    (timestamp : string) :
  (forall l, messageList = Some l -> Forall skipped l) ->
  let title := buildHistoryTitle messageList fallbackLabel timestamp in
  title ≠ "" /\
  (forall label, fallbackLabel = Some label -> label ≠ "" ->
     title = label +:+ " · " +:+ timestamp) /\
  (fallbackLabel = None \/ fallbackLabel = Some "" ->
     title = "测试记录" +:+ " · " +:+ timestamp).
Proof.
  intros Hskip title. subst title. unfold buildHistoryTitle.
  assert (Hnone : messageList ≫= first_user_text = None).
  { destruct messageList as [l|]; [|done]. simpl.
    apply first_user_text_none. by apply Hskip. }
  rewrite Hnone. split; [|split].
  - destruct (default "" fallbackLabel) as [|c s]; simpl; done.
  - intros label -> Hne. simpl. by destruct label.
  - by intros [-> | ->].
Qed.

Lemma history_title_fallback_witness :
  buildHistoryTitle (Some [mkEntry "assistant" (Some "Hello")]) (Some "qwen-turbo")
                    "1/1/2026"
  = "qwen-turbo" +:+ " · " +:+ "1/1/2026".
Proof.
  refine (proj1 (proj2 (history_title_fallback
    (Some [mkEntry "assistant" (Some "Hello")]) (Some "qwen-turbo") "1/1/2026" _))
    "qwen-turbo" eq_refl _); [|discriminate].
  intros l [= <-]. apply Forall_cons; split; [left; discriminate|apply Forall_nil_2].
Defined.

Lemma find_user_entry_spec l e :
  find_user_entry l = Some e ->
  e ∈ l /\ e_role e = "user" /\ entry_text e ≠ "".
Proof.
  unfold find_user_entry. intros [Hin Hp]%find_some.
  apply andb_prop in Hp as [Hr Ht]. apply String.eqb_eq in Hr.
  split; [by apply list_elem_of_In|]. split; [done|]. by destruct (entry_text e).
Qed.

Lemma find_user_entry_found before e after :
  Forall skipped before -> e_role e = "user" -> entry_text e ≠ "" ->
  find_user_entry (before ++ e :: after) = Some e.
Proof.
  intros Hskip Hrole Htext. unfold find_user_entry.
  induction Hskip as [|e' before Hs _ IH]; simpl.
  - rewrite Hrole. simpl. by destruct (entry_text e).
  - destruct (String.eqb_spec (e_role e') "user") as [Hu|Hu]; [|exact IH].
    destruct Hs as [Hs|Hs]; [done|]. by rewrite Hs.
Qed.

Lemma find_user_entry_none l :
  Forall skipped l -> find_user_entry l = None.
Proof.
  unfold find_user_entry. induction 1 as [|e l Hs _ IH]; simpl; [done|].
  destruct (String.eqb_spec (e_role e) "user") as [Hu|Hu]; [|exact IH].
  destruct Hs as [Hs|Hs]; [done|]. by rewrite Hs.
Qed.

(** [X3] The preview is never empty and is either the placeholder label or
    the trimmed content of an entry of the list cut to 60 code units plus
    three dots, hence of at most 63 code units.  The entry is the first one
    of role user with non-blank content: every entry before it is of another
    role or blank.  When the list has no such entry the preview comes from
    the first entry of the list, the label standing for a blank one; the
    label also stands for a missing or empty list. *)
Theorem history_preview_bounded (messageList : option (list Entry)) :
  let preview := buildHistoryPreview messageList in
  preview ≠ "" /\
  (preview = "无内容" \/
   exists l e, messageList = Some l /\ e ∈ l /\ entry_text e ≠ ""
     /\ preview = ellipsis 60 (entry_text e)
     /\ 1 <= String.length preview <= 63
     /\ (find_user_entry l = None -> head l = Some e)
     /\ (find_user_entry l ≠ None -> e_role e = "user")
     /\ (forall before u after,
           l = before ++ u :: after -> Forall skipped before ->
           e_role u = "user" -> entry_text u ≠ "" -> e = u)) /\
  (messageList = None \/ messageList = Some [] -> preview = "无内容") /\
  (forall before u after,
     messageList = Some (before ++ u :: after) -> Forall skipped before ->
     e_role u = "user" -> entry_text u ≠ "" ->
     preview = ellipsis 60 (entry_text u)) /\
  (forall first rest,
     messageList = Some (first :: rest) -> Forall skipped (first :: rest) ->
     preview = if JS.truthy (entry_text first)
               then ellipsis 60 (entry_text first) else "无内容").
Proof.
  intros preview. subst preview. split; [|split; [|split; [|split]]].
  - unfold buildHistoryPreview. destruct messageList as [[|first rest]|]; [done| |done].
    destruct (default first (find_user_entry (first :: rest))) as [r c].
    destruct (entry_text _) as [|a t] eqn:Et; simpl; [done|].
    destruct (ellipsis_length 60 (String a t)) as (_ & Hne & _). by apply Hne.
  - unfold buildHistoryPreview.
    destruct messageList as [[|first rest]|]; [by left| |by left].
    set (l := first :: rest).
    assert (Hbound : forall t, t ≠ "" -> 1 <= String.length (ellipsis 60 t) <= 63).
    { intros t Ht. destruct (ellipsis_length 60 t) as (Hlen & Hne & _).
      specialize (Hne Ht). destruct (ellipsis 60 t); [done|simpl in *; lia]. }
    destruct (find_user_entry l) as [e|] eqn:Ef; simpl.
    + destruct (find_user_entry_spec _ _ Ef) as (Hin & Hrole & Htext).
      assert (Ht : JS.truthy (entry_text e) = true) by (by destruct (entry_text e)).
      rewrite Ht. simpl. right. exists l, e.
      split; [done|]. split; [done|]. split; [done|]. split; [done|].
      split; [by apply Hbound|]. split; [by rewrite Ef|]. split; [done|].
      intros before u after Hl Hskip Hrole' Htext'.
      rewrite Hl, (find_user_entry_found before u after Hskip Hrole' Htext') in Ef.
      by injection Ef as ->.
    + destruct (entry_text first) as [|c t] eqn:Et; simpl; [by left|].
      right. exists l, first. rewrite Et.
      split; [done|]. split; [apply elem_of_cons; by left|]. split; [done|].
      split; [done|]. split; [by apply Hbound|]. split; [done|].
      split; [by rewrite Ef|].
      intros before u after Hl Hskip Hrole' Htext'.
      rewrite Hl, (find_user_entry_found before u after Hskip Hrole' Htext') in Ef.
      discriminate Ef.
  - by intros [-> | ->].
  - intros before u after -> Hskip Hrole Htext. unfold buildHistoryPreview.
    destruct (before ++ u :: after) as [|first rest] eqn:El;
      [by destruct before|].
    rewrite <- El, (find_user_entry_found before u after Hskip Hrole Htext). simpl.
    by destruct (entry_text u).
  - intros first rest -> Hskip. unfold buildHistoryPreview.
    rewrite (find_user_entry_none _ Hskip). simpl.
    by destruct (JS.truthy (entry_text first)).
Qed.

Lemma history_preview_witness :
  buildHistoryPreview
    (Some [mkEntry "system" (Some " Be brief. "); mkEntry "user" (Some " ");
           mkEntry "user" (Some " Hi "); mkEntry "user" (Some "Later")])
  = "Hi".
Proof.
  destruct (history_preview_bounded
              (Some [mkEntry "system" (Some " Be brief. "); mkEntry "user" (Some " ");
                     mkEntry "user" (Some " Hi "); mkEntry "user" (Some "Later")]))
    as (_ & _ & _ & Hfirst & _).
  refine (Hfirst [mkEntry "system" (Some " Be brief. "); mkEntry "user" (Some " ")]
            (mkEntry "user" (Some " Hi ")) [mkEntry "user" (Some "Later")]
            eq_refl _ eq_refl _).
  - apply Forall_cons; split; [left; discriminate|].
    apply Forall_cons; split; [right; reflexivity|apply Forall_nil_2].
  - vm_compute. discriminate.
Defined.

Lemma is_syntax_not_backslash c : is_syntax c = false -> Ascii.eqb c "092" = false.
Proof.
  intros H. destruct (Ascii.eqb_spec c "092"%char) as [->|]; [discriminate H|done].
Qed.

(** [X4] [escapeRegExp] puts a backslash before each syntax character and
    nothing else: read as a pattern, its result stands for the string given,
    character for character; it is at most twice as long, and a string
    without syntax characters is left as it is. *)
Theorem escapeRegExp_literal (s : string) :
  pattern_literal (escapeRegExp s) = Some s /\
  String.length s <= String.length (escapeRegExp s) <= 2 * String.length s /\
  (Playground.all_chars (fun c => negb (is_syntax c)) s = true -> escapeRegExp s = s).
Proof.
  induction s as [|c s (IH1 & IH2 & IH3)]; [repeat split; simpl; lia|].
  cbn [escapeRegExp Playground.all_chars].
  destruct (is_syntax c) eqn:Ec.
  - split; [|split].
    + cbn [pattern_literal]. rewrite Ascii.eqb_refl, Ec, IH1. done.
    + simpl. lia.
    + simpl. discriminate.
  - split; [|split].
    + cbn [pattern_literal]. rewrite (is_syntax_not_backslash _ Ec), Ec, IH1. done.
    + simpl. lia.
    + simpl. intros H. by rewrite (IH3 H).
Qed.


Lemma first_user_text_nonempty l t : first_user_text l = Some t -> t ≠ "".
Proof.
  induction l as [|e l IH]; [done|]. cbn [first_user_text].
  destruct (String.eqb (e_role e) "user"); [|exact IH].
  destruct (entry_text e) as [|c s] eqn:E; [exact IH|]. by intros [= <-].
Qed.

Lemma buildHistoryTitle_nonempty messageList fallbackLabel timestamp :
  buildHistoryTitle messageList fallbackLabel timestamp ≠ "".
Proof.
  unfold buildHistoryTitle.
  destruct (messageList ≫= first_user_text) as [t|] eqn:E.
  - destruct messageList as [l|]; [|done]. simpl in E.
    apply first_user_text_nonempty in E.
    by apply (ellipsis_length HISTORY_TITLE_LIMIT t).
  - destruct (default "" fallbackLabel) as [|c s]; simpl; done.
Qed.

(** [X25] The title shown for a record is never empty, and neither is the
    title generated for a record that is saved: the stored title is shown,
    trimmed, when it is not blank; otherwise the title is built from the
    messages or, failing that, from a label that is never empty. *)
Theorem shown_title_never_empty
    (title : option string) (messageList : option (list Entry))
    (provider_name model : option string) (timestamp : string) :
  let shown := getHistoryTitle title messageList provider_name model timestamp in
  shown ≠ "" /\
  (JS.trim (default "" title) ≠ "" -> shown = JS.trim (default "" title)) /\
  (forall fallbackLabel, buildHistoryTitle messageList fallbackLabel timestamp ≠ "").
Proof.
  intros shown. subst shown. unfold getHistoryTitle.
  split; [|split].
  - destruct (JS.trim (default "" title)) as [|c s]; simpl; [|done].
    apply buildHistoryTitle_nonempty.
  - by destruct (JS.trim (default "" title)) as [|c s].
  - intros fallbackLabel. apply buildHistoryTitle_nonempty.
Qed.

Lemma shown_title_witness :
  getHistoryTitle (Some "  Capital question ") None None (Some "qwen-turbo") "1/1/2026"
  = "Capital question".
Proof.
  refine (proj1 (proj2 (shown_title_never_empty (Some "  Capital question ") None None
                          (Some "qwen-turbo") "1/1/2026")) _).
  vm_compute. discriminate.
Defined.

End TitlesFacts.

(** ** Editing the message list; replaying a saved snapshot *)

Module EditingFacts.
Import Playground Editing.

Lemma insert_at_Permutation {A} i (x : A) l : insert_at i x l ≡ₚ x :: l.
Proof.
  unfold insert_at. rewrite <- Permutation_middle. by rewrite take_drop.
Qed.

Lemma insert_at_length {A} i (x : A) l : length (insert_at i x l) = S (length l).
Proof.
  unfold insert_at. rewrite length_app. simpl.
  rewrite length_take, length_drop. lia.
Qed.

Lemma insert_at_lookup {A} i (x : A) l :
  insert_at i x l !! (i `min` length l) = Some x.
Proof.
  unfold insert_at. apply list_lookup_middle. by rewrite length_take.
Qed.

Lemma insert_at_delete {A} i (x : A) l :
  delete (i `min` length l) (insert_at i x l) = l.
Proof.
  unfold insert_at.
  assert (E : i `min` length l = length (take i l)) by (by rewrite length_take).
  rewrite E, delete_middle. apply take_drop.
Qed.

(** [X5] Dropping a message at a destination moves it and nothing else:
    the list after the drag is a rearrangement of the list before, the
    dragged message stands at the destination (at the end when the
    destination lies past it), and the other messages keep their order.
    Without a destination the list is not set. *)
Theorem drag_moves_one_message
    (source dest : nat) (messages : list Message) (dragged : Message) :
  messages !! source = Some dragged ->
  handleDragEnd source None messages = None /\
  exists items,
    handleDragEnd source (Some dest) messages = Some items /\
    items ≡ₚ messages /\
    length items = length messages /\
    items !! (dest `min` (length messages - 1)) = Some dragged /\
    delete (dest `min` (length messages - 1)) items = delete source messages.
Proof.
  intros Hsrc. split; [reflexivity|]. unfold handleDragEnd. rewrite Hsrc.
  eexists. split; [reflexivity|].
  pose proof (lookup_lt_Some _ _ _ Hsrc) as Hlt.
  assert (Hlen : length (delete source messages) = length messages - 1).
  { rewrite length_delete; [done|by eexists]. }
  split; [|split; [|split]].
  - rewrite insert_at_Permutation. symmetry. by apply delete_Permutation.
  - rewrite insert_at_length, Hlen. lia.
  - rewrite <- Hlen. apply insert_at_lookup.
  - rewrite <- Hlen. apply insert_at_delete.
Qed.

Lemma drag_witness :
  let a := mkMessage "system-1" system "Be brief." in
  let b := mkMessage "user-1" user "Hello" in
  let c := mkMessage "assistant-2" assistant "Hi" in
  [a; b; c] !! 0 = Some a /\
  handleDragEnd 0 (Some 2) [a; b; c] = Some [b; c; a].
Proof.
  intros a b c. split; [reflexivity|].
  destruct (drag_moves_one_message 0 2 [a; b; c] a eq_refl)
    as (_ & items & Hitems & _).
  rewrite Hitems. vm_compute in Hitems. symmetry. exact Hitems.
Defined.





(** [X7] After a prompt is loaded the list starts with a system message
    that carries the prompt, the messages that were there are kept (the
    first one giving way when it was the system message), and loading again
    replaces that content instead of stacking another system message. *)
Theorem loadPrompt_sets_system_message
    (prompt_content : string) (now : N) (prev : list Message) :
  let next := loadPrompt prompt_content now prev in
  (exists first, head next = Some first /\ role first = system
                 /\ content first = prompt_content) /\
  (tail next = prev \/ (tail next = tail prev /\
                        exists first, head prev = Some first /\ role first = system
                          /\ msg_id <$> head next = Some (msg_id first))) /\
  (forall other now', loadPrompt other now' next = loadPrompt other now prev).
Proof.
  intros next. subst next. unfold loadPrompt.
  destruct prev as [|first rest]; simpl.
  - split; [by eexists|]. split; [by left|done].
  - destruct (role first) eqn:Er; simpl.
    + split; [by eexists|]. split; [|done].
      right. split; [done|]. by exists first.
    + split; [by eexists|]. split; [by left|]. intros. simpl. by rewrite ?Er.
    + split; [by eexists|]. split; [by left|]. intros. simpl. by rewrite ?Er.
Qed.

Lemma role_of_name r :
  (if String.eqb (role_name r) "system" then system
   else if String.eqb (role_name r) "assistant" then assistant else user) = r.
Proof. by destruct r. Qed.

Lemma stamped_id_truthy r ts i : JS.truthy (stamped_id r ts i) = true.
Proof. unfold stamped_id. by destruct r. Qed.

Lemma snapshot_ids ts msgs :
  Forall (fun m => JS.truthy (msg_id m) = true) (snapshot_messages ts msgs).
Proof.
  unfold snapshot_messages. apply Forall_forall. intros m Hin.
  apply list_elem_of_lookup in Hin as [i Hi].
  rewrite list_lookup_imap in Hi.
  destruct (msgs !! i) as [m0|]; [|done]. simpl in Hi. injection Hi as <-.
  destruct (JS.truthy (msg_id m0)) eqn:E; [done|]. simpl. apply stamped_id_truthy.
Qed.

Lemma normalize_history_round_trip now msgs :
  msgs ≠ [] -> Forall (fun m => JS.truthy (msg_id m) = true) msgs ->
  normalizeHistoryMessages now (to_history_message <$> msgs) = msgs.
Proof.
  intros Hne Hids. unfold normalizeHistoryMessages.
  rewrite length_fmap. destruct msgs as [|m0 msgs0]; [done|]. simpl Nat.eqb. cbv iota.
  set (l := m0 :: msgs0) in *. clearbody l. clear Hne.
  apply list_eq. intros i. rewrite list_lookup_imap, list_lookup_fmap.
  destruct (l !! i) as [m|] eqn:Hi; [|done]. simpl.
  rewrite role_of_name.
  assert (Hm : JS.truthy (msg_id m) = true).
  { rewrite Forall_forall in Hids. apply Hids. by eapply list_elem_of_lookup_2. }
  rewrite Hm. by destruct m.
Qed.

(** [X8] The messages captured for a test all carry an identifier, in the
    roles and with the contents of the messages shown; and a stored session
    replays them unchanged: sent as written in the request body and
    normalized on selection, they are the captured messages again.  A stored
    session without messages replays as one empty system message and one empty
    user message. *)
Theorem snapshot_replays_unchanged (timestamp now : N) (messages : list Message) :
  let snap := snapshot_messages timestamp messages in
  Forall (fun m => JS.truthy (msg_id m) = true) snap /\
  role <$> snap = role <$> messages /\
  content <$> snap = content <$> messages /\
  (messages ≠ [] ->
     normalizeHistoryMessages now (to_history_message <$> snap) = snap) /\
  (role <$> normalizeHistoryMessages now [] = [system; user]
   /\ content <$> normalizeHistoryMessages now [] = [""; ""]).
Proof.
  intros snap. subst snap. split; [apply snapshot_ids|].
  assert (Hfields : forall (A : Type) (f : Message -> A),
    (forall r id1 id2 c, f (mkMessage id1 r c) = f (mkMessage id2 r c)) ->
    f <$> snapshot_messages timestamp messages = f <$> messages).
  { intros A f Hf. unfold snapshot_messages. apply list_eq. intros i.
    rewrite !list_lookup_fmap, list_lookup_imap.
    destruct (messages !! i) as [m|]; [|done]. simpl.
    destruct (JS.truthy (msg_id m)); [done|]. f_equal.
    destruct m as [mid r c]. apply Hf. }
  split; [by apply Hfields|]. split; [by apply Hfields|]. split; [|done].
  intros Hne. apply normalize_history_round_trip; [|apply snapshot_ids].
  unfold snapshot_messages. destruct messages; [done|]. done.
Qed.

Lemma snapshot_witness :
  let messages := [mkMessage "" system "Be brief."; mkMessage "user-1" user "Hi"] in
  messages ≠ [] /\
  normalizeHistoryMessages 9
    (to_history_message <$> snapshot_messages 1700 messages)
  = [mkMessage "system-1700" system "Be brief."; mkMessage "user-1" user "Hi"].
Proof.
  intros messages. split; [discriminate|].
  destruct (snapshot_replays_unchanged 1700 9 messages) as (_ & _ & _ & Hround & _).
  rewrite Hround; [vm_compute; reflexivity|discriminate].
Defined.

End EditingFacts.

(** ** Substituting the variables *)

Module SubstitutionFacts.
Import Playground Substitution VariableFacts.

Lemma strip_overlap p q x r :
  String.length q < String.length p ->
  all_chars (fun y => negb (Ascii.eqb x y)) p = true ->
  strip p (q +:+ String x r) = None.
Proof.
  revert q. induction p as [|a p IH]; intros q Hlen Hx; [simpl in Hlen; lia|].
  cbn [all_chars] in Hx. apply andb_prop in Hx as [Ha Hp].
  apply negb_true_iff in Ha.
  destruct q as [|b q].
  - change ("" +:+ String x r) with (String x r). cbn [strip].
    by rewrite Ascii.eqb_sym, Ha.
  - rewrite app_cons_s. cbn [strip]. destruct (Ascii.eqb a b); [|done].
    apply IH; [simpl in Hlen; lia|done].
Qed.

Lemma strip_word v name t0 T r :
  avoids (Some t0) v = true ->
  strip v (name +:+ String t0 T) = Some r ->
  exists n2, name = v +:+ n2 /\ r = n2 +:+ String t0 T.
Proof.
  revert name. induction v as [|a v IH]; intros name Hv Hs.
  - exists name. simpl in Hs. by injection Hs as <-.
  - cbn [avoids all_chars] in Hv. apply andb_prop in Hv as [Ha Hv].
    apply negb_true_iff in Ha.
    destruct name as [|b name].
    + change ("" +:+ String t0 T) with (String t0 T) in Hs. cbn [strip] in Hs.
      by rewrite Ha in Hs.
    + rewrite app_cons_s in Hs. cbn [strip] in Hs.
      destruct (Ascii.eqb_spec a b) as [->|]; [|done].
      destruct (IH name Hv Hs) as (n2 & -> & ->). by exists n2.
Qed.

Lemma expand_plain value matched before after :
  avoids (Some "$"%char) value = true -> expand value matched before after = value.
Proof.
  induction value as [|c value IH]; [done|].
  cbn [avoids all_chars]. intros [Hc Hv]%andb_prop. apply negb_true_iff in Hc.
  cbn [expand]. rewrite Hc. by rewrite (IH Hv).
Qed.

Lemma slice_to_app a b : Titles.slice_to (String.length a) (a +:+ b) = a.
Proof. induction a as [|c a IH]; [by destruct b|]. simpl. by rewrite IH. Qed.

(** Text in which no match starts is copied. *)
Lemma replace_loop_skip p v sfx val u R : forall fuel before,
  (forall a c b, u = a +:+ String c b ->
     match_variable_at p v sfx (String c (b +:+ R)) = None) ->
  String.length (u +:+ R) <= fuel ->
  replace_loop fuel p v sfx val before (u +:+ R)
  = u +:+ replace_loop (fuel - String.length u) p v sfx val (before +:+ u) R.
Proof.
  induction u as [|c u IH]; intros fuel before Hno Hfuel.
  - change ("" +:+ R) with R. rewrite app_nil_s. simpl. by rewrite Nat.sub_0_r.
  - rewrite app_cons_s in Hfuel |- *. simpl in Hfuel.
    destruct fuel as [|fuel]; [lia|]. cbn [replace_loop].
    rewrite (Hno "" c u eq_refl). rewrite app_cons_s. f_equal.
    cbn [String.length]. change (S fuel - S (String.length u)) with (fuel - String.length u).
    rewrite (IH fuel (before +:+ String c "")).
    + by rewrite app_assoc_s.
    + intros a c' b ->. apply (Hno (String c a) c' b). by rewrite app_cons_s.
    + lia.
Qed.

Lemma all_chars_split P a c b :
  all_chars P (a +:+ String c b) = true -> P c = true.
Proof.
  rewrite all_chars_app. cbn [all_chars]. intros [_ [H _]%andb_prop]%andb_prop. done.
Qed.

Section Fit.

Variables (p0 s0 : ascii) (p' sfx' : string).
Let p := String p0 p'.
Let sfx := String s0 sfx'.
Hypothesis suffix_starts_black : JS.is_space s0 = false.
Hypothesis prefix_black : all_chars (fun c => negb (JS.is_space c)) p = true.
Hypothesis suffix_avoids : avoids (Some p0) sfx = true.

Lemma match_variable_other v c rest :
  Ascii.eqb c p0 = false -> match_variable_at p v sfx (String c rest) = None.
Proof.
  intros Hc. unfold match_variable_at, p. cbn [strip].
  by rewrite Ascii.eqb_sym, Hc.
Qed.

Lemma replace_loop_text v val t R fuel before :
  avoids (Some p0) t = true ->
  String.length (t +:+ R) <= fuel ->
  replace_loop fuel p v sfx val before (t +:+ R)
  = t +:+ replace_loop (fuel - String.length t) p v sfx val (before +:+ t) R.
Proof.
  intros Ht Hfuel. apply replace_loop_skip; [|done].
  intros a c b ->. apply match_variable_other.
  cbn [avoids] in Ht. apply all_chars_split in Ht. by apply negb_true_iff in Ht.
Qed.

Lemma fit_word_inv name :
  fit_word p sfx name = true ->
  exists n0 n', name = String n0 n'
    /\ all_chars (fun c => negb (JS.is_space c)) name = true
    /\ avoids (Some s0) name = true
    /\ chars_avoid p name = true
    /\ avoids (Some p0) name = true.
Proof.
  unfold fit_word. intros [[[Ht Hsp]%andb_prop Hs]%andb_prop Hp]%andb_prop.
  destruct name as [|n0 n']; [done|]. exists n0, n'.
  split; [done|]. split; [done|]. split; [done|]. split; [done|].
  cbn [avoids]. clear -Hp. unfold chars_avoid, p in Hp.
  induction (String n0 n') as [|c s IH]; [done|].
  cbn [all_chars] in *. apply andb_prop in Hp as [[Hc _]%andb_prop Hs].
  by rewrite Hc, IH.
Qed.

Lemma spaces_then_hit v ws1 ws2 R :
  fit_word p sfx v = true -> all_space ws1 = true -> all_space ws2 = true ->
  spaces_then
    (fun r' => match strip v r' with
               | Some r'' => space_then_suffix sfx r''
               | None => None
               end) (ws1 +:+ v +:+ ws2 +:+ sfx +:+ R) = Some R.
Proof.
  intros (v0 & v' & -> & Hblack & _)%fit_word_inv Hws1 Hws2.
  induction ws1 as [|c ws IH].
  - change ("" +:+ String v0 v' +:+ ws2 +:+ sfx +:+ R)
      with (String v0 (v' +:+ ws2 +:+ sfx +:+ R)).
    cbn [all_chars] in Hblack. apply andb_prop in Hblack as [Hv0 _].
    apply negb_true_iff in Hv0.
    cbn [spaces_then]. rewrite Hv0.
    change (String v0 (v' +:+ ws2 +:+ sfx +:+ R))
      with (String v0 v' +:+ ws2 +:+ sfx +:+ R).
    rewrite strip_app.
    apply (space_then_suffix_hit s0 sfx' suffix_starts_black ws2 R Hws2).
  - unfold all_space in Hws1. cbn [all_chars] in Hws1.
    apply andb_prop in Hws1 as [Hc Hws]. rewrite app_cons_s.
    cbn [spaces_then]. rewrite Hc. by rewrite (IH Hws).
Qed.

Lemma match_variable_hit v ws1 ws2 R :
  fit_word p sfx v = true -> all_space ws1 = true -> all_space ws2 = true ->
  match_variable_at p v sfx (p +:+ ws1 +:+ v +:+ ws2 +:+ sfx +:+ R) = Some R.
Proof.
  intros Hv Hws1 Hws2. unfold match_variable_at. rewrite strip_app.
  by apply spaces_then_hit.
Qed.

(** What follows a name starts with white space or with the suffix. *)
Lemma after_name ws2 R :
  all_space ws2 = true ->
  exists t0 T, ws2 +:+ sfx +:+ R = String t0 T
               /\ (JS.is_space t0 = true \/ t0 = s0).
Proof.
  intros Hws. destruct ws2 as [|c ws].
  - exists s0, (sfx' +:+ R). split; [done|by right].
  - unfold all_space in Hws. cbn [all_chars] in Hws. apply andb_prop in Hws as [Hc _].
    exists c, (ws +:+ sfx +:+ R). split; [done|by left].
Qed.

Lemma avoids_space v t0 :
  all_chars (fun c => negb (JS.is_space c)) v = true -> JS.is_space t0 = true ->
  avoids (Some t0) v = true.
Proof.
  intros Hv Ht. cbn [avoids]. induction v as [|c v IH]; [done|].
  cbn [all_chars] in *. apply andb_prop in Hv as [Hc Hv]. rewrite (IH Hv), andb_true_r.
  apply negb_true_iff. apply negb_true_iff in Hc.
  destruct (Ascii.eqb_spec c t0) as [->|]; [congruence|done].
Qed.

Lemma name_then_other v name ws2 R :
  fit_word p sfx v = true -> fit_word p sfx name = true -> name ≠ v ->
  all_space ws2 = true ->
  match strip v (name +:+ ws2 +:+ sfx +:+ R) with
  | Some r'' => space_then_suffix sfx r''
  | None => None
  end = None.
Proof.
  intros (v0 & v' & Ev & Hvb & Hvs & _)%fit_word_inv
         (n0 & n' & En & Hnb & Hns & _)%fit_word_inv Hne Hws.
  destruct (after_name ws2 R Hws) as (t0 & T & -> & Ht0).
  destruct (strip v (name +:+ String t0 T)) as [r|] eqn:Es; [|done].
  apply strip_word in Es as (n2 & Hname & ->).
  2:{ destruct Ht0 as [Hsp| ->]; [by apply avoids_space|done]. }
  destruct n2 as [|m n2]; [by rewrite app_nil_s in Hname|].
  assert (Hm : JS.is_space m = false /\ Ascii.eqb m s0 = false).
  { rewrite Hname in Hnb, Hns. cbn [avoids] in Hns.
    apply all_chars_split in Hnb, Hns. by rewrite !negb_true_iff in *. }
  destruct Hm as [Hm1 Hm2]. rewrite app_cons_s. cbn [space_then_suffix].
  rewrite Hm1. apply (strip_suffix_other s0 sfx' _ _ Hm2).
Qed.

Lemma spaces_then_miss v ws1 name ws2 R :
  fit_word p sfx v = true -> fit_word p sfx name = true -> name ≠ v ->
  all_space ws1 = true -> all_space ws2 = true ->
  spaces_then
    (fun r' => match strip v r' with
               | Some r'' => space_then_suffix sfx r''
               | None => None
               end) (ws1 +:+ name +:+ ws2 +:+ sfx +:+ R) = None.
Proof.
  intros Hv Hn Hne Hws1 Hws2.
  pose proof (name_then_other v name ws2 R Hv Hn Hne Hws2) as Hk.
  induction ws1 as [|c ws IH].
  - change ("" +:+ name +:+ ws2 +:+ sfx +:+ R) with (name +:+ ws2 +:+ sfx +:+ R).
    apply fit_word_inv in Hn as (n0 & n' & -> & Hnb & _).
    cbn [all_chars] in Hnb. apply andb_prop in Hnb as [Hn0 _].
    apply negb_true_iff in Hn0.
    rewrite app_cons_s in Hk |- *. cbn [spaces_then]. rewrite Hn0. exact Hk.
  - unfold all_space in Hws1. cbn [all_chars] in Hws1.
    apply andb_prop in Hws1 as [Hc Hws]. rewrite app_cons_s.
    cbn [spaces_then]. rewrite Hc, (IH Hws).
    apply fit_word_inv in Hv as (v0 & v' & -> & Hvb & _).
    cbn [all_chars] in Hvb. apply andb_prop in Hvb as [Hv0 _].
    apply negb_true_iff in Hv0. cbn [strip].
    destruct (Ascii.eqb_spec v0 c) as [->|]; [congruence|done].
Qed.

Lemma first_after_prefix ws1 name rest :
  fit_word p sfx name = true -> all_space ws1 = true ->
  exists x X, ws1 +:+ name +:+ rest = String x X
              /\ all_chars (fun y => negb (Ascii.eqb x y)) p = true.
Proof.
  intros (n0 & n' & -> & _ & _ & Hp & _)%fit_word_inv Hws.
  destruct ws1 as [|c ws].
  - exists n0, (n' +:+ rest). split; [done|].
    unfold chars_avoid in Hp. cbn [all_chars] in Hp.
    by apply andb_prop in Hp as [Hp _].
  - exists c, (ws +:+ String n0 n' +:+ rest). split; [done|].
    unfold all_space in Hws. cbn [all_chars] in Hws. apply andb_prop in Hws as [Hc _].
    clear -Hc prefix_black. induction p as [|a q IH]; [done|].
    cbn [all_chars] in *. apply andb_prop in prefix_black as [Ha Hq].
    rewrite (IH Hq), andb_true_r. apply negb_true_iff. apply negb_true_iff in Ha.
    destruct (Ascii.eqb_spec c a) as [->|]; [congruence|done].
Qed.

(** A placeholder of another name is copied. *)
Lemma replace_loop_other v val ws1 name ws2 R fuel before :
  fit_word p sfx v = true -> fit_word p sfx name = true -> name ≠ v ->
  all_space ws1 = true -> all_space ws2 = true ->
  String.length (render_segment p sfx (Placeholder ws1 name ws2) +:+ R) <= fuel ->
  replace_loop fuel p v sfx val before
    (render_segment p sfx (Placeholder ws1 name ws2) +:+ R)
  = render_segment p sfx (Placeholder ws1 name ws2)
    +:+ replace_loop
          (fuel - String.length (render_segment p sfx (Placeholder ws1 name ws2)))
          p v sfx val
          (before +:+ render_segment p sfx (Placeholder ws1 name ws2)) R.
Proof.
  intros Hv Hn Hne Hws1 Hws2 Hfuel. cbn [render_segment] in *.
  set (body := ws1 +:+ name +:+ ws2 +:+ sfx) in *.
  assert (Hbody : avoids (Some p0) body = true).
  { unfold body. cbn [avoids]. rewrite !all_chars_app.
    apply fit_word_inv in Hn as (n0 & n' & _ & _ & _ & _ & Hnp).
    cbn [avoids] in Hnp, suffix_avoids. rewrite Hnp, suffix_avoids.
    assert (Hsp : forall ws, all_space ws = true ->
              all_chars (fun x => negb (Ascii.eqb x p0)) ws = true).
    { assert (Hp0 : JS.is_space p0 = false).
      { unfold p in prefix_black. cbn [all_chars] in prefix_black.
        apply andb_prop in prefix_black as [H0 _]. by apply negb_true_iff in H0. }
      intros ws. unfold all_space. induction ws as [|c ws IH]; [done|].
      cbn [all_chars]. intros [Hc Hws]%andb_prop. rewrite (IH Hws), andb_true_r.
      apply negb_true_iff. destruct (Ascii.eqb_spec c p0) as [->|]; [congruence|done]. }
    by rewrite (Hsp _ Hws1), (Hsp _ Hws2). }
  rewrite app_assoc_s in Hfuel |- *.
  rewrite (replace_loop_skip p v sfx val p (body +:+ R) fuel before); [|
    |done].
  - rewrite app_assoc_s. f_equal.
    rewrite (replace_loop_text v val body R _ _ Hbody).
    + rewrite length_app_s, !app_assoc_s.
      by rewrite Nat.sub_add_distr.
    + rewrite length_app_s in Hfuel. lia.
  - intros a c b Hsplit. destruct a as [|a0 a].
    + change ("" +:+ String c b) with (String c b) in Hsplit.
      injection Hsplit as <- <-. change (String p0 (p' +:+ body +:+ R)) with (p +:+ body +:+ R).
      unfold match_variable_at. rewrite strip_app. unfold body.
      rewrite !app_assoc_s. by apply spaces_then_miss.
    + unfold match_variable_at.
      change (String c (b +:+ body +:+ R)) with (String c b +:+ body +:+ R).
      unfold body. rewrite !app_assoc_s.
      destruct (first_after_prefix ws1 name (ws2 +:+ sfx +:+ R) Hn Hws1)
        as (x & X & -> & Hx).
      rewrite strip_overlap; [done| |done].
      rewrite Hsplit. rewrite length_app_s. simpl. lia.
Qed.

Lemma replace_loop_hit v val M R fuel before :
  match_variable_at p v sfx (M +:+ R) = Some R -> M ≠ "" ->
  String.length (M +:+ R) <= fuel ->
  replace_loop fuel p v sfx val before (M +:+ R)
  = expand val M before R
    +:+ replace_loop (fuel - 1) p v sfx val (before +:+ M) R.
Proof.
  intros Hm Hne Hfuel. destruct M as [|c M]; [done|].
  rewrite app_cons_s in Hm, Hfuel |- *. simpl in Hfuel.
  destruct fuel as [|fuel]; [lia|]. cbn [replace_loop]. rewrite Hm.
  replace (String.length (String c (M +:+ R)) - String.length R)
    with (String.length (String c M)) by (simpl; rewrite length_app_s; lia).
  rewrite <- app_cons_s, slice_to_app. by rewrite Nat.sub_succ, Nat.sub_0_r.
Qed.

Lemma fill_one_fit v values seg :
  fit_segment p sfx seg = true ->
  avoids (Some p0) (default "" (values !! v)) = true ->
  fit_segment p sfx (fill_segment [v] values seg) = true.
Proof.
  intros Hseg Hval. destruct seg as [t|ws1 name ws2]; [done|].
  cbn [fill_segment]. case_bool_decide as Hin; [|done].
  apply list_elem_of_singleton in Hin as ->. exact Hval.
Qed.

Lemma replace_template v values segs : forall fuel before,
  fit_word p sfx v = true ->
  forallb (fit_segment p sfx) segs = true ->
  avoids (Some "$"%char) (default "" (values !! v)) = true ->
  String.length (render p sfx segs) <= fuel ->
  replace_loop fuel p v sfx (default "" (values !! v)) before (render p sfx segs)
  = render p sfx (fill_segment [v] values <$> segs).
Proof.
  set (val := default "" (values !! v)).
  induction segs as [|seg segs IH]; intros fuel before Hv Hsegs Hval Hfuel.
  - by destruct fuel.
  - cbn [forallb] in Hsegs. apply andb_prop in Hsegs as [Hseg Hsegs].
    rewrite fmap_cons. cbn [render] in Hfuel |- *.
    destruct seg as [t|ws1 name ws2].
    + cbn [render_segment fill_segment fit_segment] in *.
      rewrite (replace_loop_text v val t _ fuel before Hseg Hfuel). f_equal.
      apply IH; try done. rewrite length_app_s in Hfuel. lia.
    + cbn [fit_segment] in Hseg.
      apply andb_prop in Hseg as [[Hws1 Hws2]%andb_prop Hn].
      cbn [fill_segment]. case_bool_decide as Hin.
      * apply list_elem_of_singleton in Hin as ->.
        cbn [render_segment] in *.
        rewrite (replace_loop_hit v val (p +:+ ws1 +:+ v +:+ ws2 +:+ sfx) _ fuel before).
        -- rewrite (expand_plain _ _ _ _ Hval). fold val. f_equal.
           apply IH; try done. rewrite length_app_s in Hfuel.
           assert (1 <= String.length (p +:+ ws1 +:+ v +:+ ws2 +:+ sfx))
             by (unfold p; rewrite app_cons_s; cbn [String.length]; lia).
           lia.
        -- rewrite !app_assoc_s. by apply match_variable_hit.
        -- done.
        -- done.
      * rewrite (replace_loop_other v val ws1 name ws2 _ fuel before); try done.
        -- f_equal. apply IH; try done. rewrite length_app_s in Hfuel. lia.
        -- intros ->. apply Hin. by apply list_elem_of_singleton.
Qed.

End Fit.

Lemma fit_delimiters_inv prefix suffix :
  fit_delimiters prefix suffix = true ->
  exists p0 p' s0 sfx', prefix = String p0 p' /\ suffix = String s0 sfx'
    /\ JS.is_space s0 = false
    /\ all_chars (fun c => negb (JS.is_space c)) prefix = true
    /\ avoids (Some p0) suffix = true.
Proof.
  unfold fit_delimiters. intros [[Hd Hp]%andb_prop Hs]%andb_prop.
  apply plain_delimiters_inv in Hd as (p0 & p' & s0 & sfx' & -> & -> & Hblack).
  by exists p0, p', s0, sfx'.
Qed.

Lemma fill_nil values seg : fill_segment [] values seg = seg.
Proof.
  destruct seg as [|ws1 name ws2]; [done|]. cbn [fill_segment].
  rewrite bool_decide_eq_false_2; [done|]. by intros ?%elem_of_nil.
Qed.

Lemma fill_cons v vars values seg :
  fill_segment vars values (fill_segment [v] values seg)
  = fill_segment (v :: vars) values seg.
Proof.
  destruct seg as [t|ws1 name ws2]; [done|]. cbn [fill_segment].
  destruct (decide (name = v)) as [->|Hne].
  - rewrite !bool_decide_eq_true_2; [done|apply elem_of_cons; by left|
      by apply list_elem_of_singleton].
  - rewrite (bool_decide_eq_false_2 (name ∈ [v])).
    2:{ by intros ?%list_elem_of_singleton. }
    cbn [fill_segment].
    rewrite (bool_decide_ext (name ∈ v :: vars) (name ∈ vars)); [done|].
    rewrite elem_of_cons. tauto.
Qed.

Lemma substitute_template prefix suffix vars values : forall segs,
  fit_delimiters prefix suffix = true ->
  forallb (fit_segment prefix suffix) segs = true ->
  forallb (fit_word prefix suffix) vars = true ->
  (forall v, v ∈ vars -> fit_value prefix (default "" (values !! v)) = true) ->
  substitute prefix suffix vars values (render prefix suffix segs)
  = render prefix suffix (fill_segment vars values <$> segs).
Proof.
  intros segs Hd. 
  destruct (fit_delimiters_inv _ _ Hd) as (p0 & p' & s0 & sfx' & -> & -> & Hs0 & Hpb & Hsp).
  unfold substitute. cbn [JS.truthy andb].
  revert segs. induction vars as [|v vars IH]; intros segs Hsegs Hvars Hvals.
  - cbn [foldl]. f_equal. clear Hsegs. induction segs as [|seg segs IHs]; [done|].
    by rewrite fmap_cons, fill_nil, <- IHs.
  - cbn [foldl forallb] in *. apply andb_prop in Hvars as [Hv Hvars].
    assert (Hval : fit_value (String p0 p') (default "" (values !! v)) = true).
    { apply Hvals, elem_of_cons. by left. }
    unfold fit_value in Hval. apply andb_prop in Hval as [Hdollar Hp0].
    unfold replace_variable at 2.
    rewrite (replace_template p0 s0 p' sfx' Hs0 Hpb Hsp v values segs _ "" Hv Hsegs Hdollar
               (le_n _)).
    rewrite IH.
    + f_equal. rewrite <- list_fmap_compose. apply list_fmap_ext.
      intros i seg _. apply fill_cons.
    + rewrite forallb_forall in Hsegs |- *. intros seg' Hin.
      apply in_map_iff in Hin as (seg & <- & Hin).
      apply (fill_one_fit p0 s0 p' sfx'); [by apply Hsegs|exact Hp0].
    + done.
    + intros w Hw. apply Hvals, elem_of_cons. by right.
Qed.

Lemma render_filled prefix suffix vars values segs :
  names segs ⊆ vars ->
  render prefix suffix (fill_segment vars values <$> segs) = filled values segs.
Proof.
  induction segs as [|[t|ws1 name ws2] segs IH]; intros Hsub; [done|..].
  - rewrite fmap_cons. cbn [render fill_segment render_segment filled names] in *.
    by rewrite IH.
  - rewrite fmap_cons. cbn [render fill_segment filled names] in *.
    rewrite bool_decide_eq_true_2.
    + cbn [render_segment]. rewrite IH; [done|].
      intros x Hx. apply Hsub, elem_of_cons. by right.
    + apply Hsub, elem_of_cons. by left.
Qed.

(** [X9] For fitting delimiters, a template of literal text and
    placeholders whose names are words, variables that are words and values
    without dollar sign that do not use the first character of the prefix
    (no variable without value bearing a name that objects inherit), the
    substitution replaces exactly the placeholders of the listed variables,
    each by the value of its name (nothing when it has none), and copies
    everything else; when every name is listed no placeholder is left. *)
Theorem substitution_fills_placeholders
    (prefix suffix : string) (variables : list string)
    (variableValues : gmap string string) (segs : list Segment) :
  fit_delimiters prefix suffix = true ->
  forallb (fit_segment prefix suffix) segs = true ->
  forallb (fit_word prefix suffix) variables = true ->
  (forall v, v ∈ variables -> usable_value prefix variableValues v = true) ->
  substitute prefix suffix variables variableValues (render prefix suffix segs)
  = render prefix suffix (fill_segment variables variableValues <$> segs) /\
  (names segs ⊆ variables ->
   substitute prefix suffix variables variableValues (render prefix suffix segs)
   = filled variableValues segs).
Proof.
  intros Hd Hsegs Hvars Hvals.
  assert (Hfit : forall v, v ∈ variables ->
            fit_value prefix (default "" (variableValues !! v)) = true).
  { intros v Hv. by apply Hvals, andb_prop in Hv as [_ ?]. }
  pose proof (substitute_template _ _ _ _ segs Hd Hsegs Hvars Hfit) as H.
  split; [exact H|]. intros Hsub. rewrite H. by apply render_filled.
Qed.

Lemma substitution_witness :
  substitute "{{" "}}" ["name"; "order_id"] greeting_values
    (render "{{" "}}" greeting_template)
  = "Dear Ada, your order #42 is ready, Ada".
Proof.
  assert (Hvals : forall v, v ∈ ["name"; "order_id"] ->
            usable_value "{{" greeting_values v = true).
  { intros v [->|[->|H%elem_of_nil]%elem_of_cons]%elem_of_cons;
      [vm_compute; reflexivity..|done]. }
  assert (Hsub : names greeting_template ⊆ ["name"; "order_id"]).
  { change (names greeting_template) with ["name"; "order_id"; "name"].
    intros x. rewrite !elem_of_cons. tauto. }
  rewrite (proj2 (substitution_fills_placeholders "{{" "}}" ["name"; "order_id"]
                    greeting_values greeting_template eq_refl eq_refl eq_refl Hvals) Hsub).
  vm_compute. reflexivity.
Defined.

Lemma fit_plain_segment prefix suffix seg :
  fit_segment prefix suffix seg = true -> plain_segment prefix suffix seg = true.
Proof.
  destruct seg as [t|ws1 name ws2]; [done|]. cbn [fit_segment plain_segment].
  unfold fit_word.
  intros [[-> ->]%andb_prop [[[-> Hblack]%andb_prop ->]%andb_prop _]%andb_prop]%andb_prop.
  rewrite (VariableFacts.trim_plain _ Hblack), String.eqb_refl.
  by rewrite (VariableFacts.single_line_plain _ Hblack).
Qed.

Lemma names_fit prefix suffix segs name :
  forallb (fit_segment prefix suffix) segs = true -> name ∈ names segs ->
  fit_word prefix suffix name = true.
Proof.
  induction segs as [|[t|ws1 n ws2] segs IH]; cbn [forallb names].
  - by intros _ ?%elem_of_nil.
  - intros [_ H]%andb_prop. by apply IH.
  - intros [Hseg H]%andb_prop [->|Hin]%elem_of_cons; [|by apply IH].
    cbn [fit_segment] in Hseg. by apply andb_prop in Hseg as [_ ?].
Qed.

(** [X10] Extraction and substitution fit together: when every message is a
    template of literal text and placeholders whose names are words, and the
    values of these names hold no dollar sign and do not use the first
    character of the prefix (no name without value being one that objects
    inherit), then with the variable list that the extraction yields for
    these messages each message is sent with its role and with every
    placeholder replaced by the value of its name. *)
Theorem extracted_variables_fill_every_placeholder
    (prefix suffix : string) (variableValues : gmap string string)
    (msgs : list Message) (templates : list (list Segment)) :
  fit_delimiters prefix suffix = true ->
  Forall2 (fun msg segs => content msg = render prefix suffix segs
                           /\ forallb (fit_segment prefix suffix) segs = true)
          msgs templates ->
  (forall segs name, segs ∈ templates -> name ∈ names segs ->
     usable_value prefix variableValues name = true) ->
  exists vars,
    extractVariables msgs prefix suffix = Some vars /\
    apiMessages prefix suffix vars variableValues msgs
    = zip_with (fun msg segs => mkApiMessage (role msg) (filled variableValues segs))
               msgs templates.
Proof.
  intros Hd Hall Hvals.
  destruct (fit_delimiters_inv _ _ Hd) as (p0 & p' & s0 & sfx' & Ep & Es & Hs0 & _).
  exists (distinct (concat (names <$> templates))). split.
  - unfold extractVariables. rewrite Ep, Es. cbn [JS.truthy negb orb]. f_equal.
    rewrite <- Ep, <- Es.
    assert (Hplain : Forall2 (fun msg segs => content msg = render prefix suffix segs
                       /\ plain_template prefix suffix segs = true) msgs templates).
    { eapply Forall2_impl; [exact Hall|]. intros msg segs [Hc Hfit]. split; [done|].
      unfold plain_template. rewrite forallb_forall in Hfit |- *.
      intros seg Hin. by apply fit_plain_segment, Hfit. }
    rewrite Ep, Es in Hplain |- *.
    by rewrite (foldl_extract_templates _ _ _ _ Hs0 msgs templates [] Hplain).
  - set (vars := distinct (concat (names <$> templates))).
    assert (Hin : forall v, v ∈ vars <-> exists segs, segs ∈ templates /\ v ∈ names segs).
    { intros v. unfold vars. rewrite elem_of_distinct, elem_of_concat. split.
      - intros (l & Hv & (segs & -> & Hsegs)%list_elem_of_fmap). by exists segs.
      - intros (segs & Hsegs & Hv). exists (names segs). split; [done|].
        apply list_elem_of_fmap. by exists segs. }
    assert (Hall' : Forall2 (fun msg segs => content msg = render prefix suffix segs
                                              /\ segs ∈ templates) msgs templates).
    { apply Forall2_same_length_lookup. split; [by eapply Forall2_length|].
      intros i msg segs Hm Hl. split; [|by eapply list_elem_of_lookup_2].
      by destruct (Forall2_lookup_lr _ _ _ _ _ _ Hall Hm Hl). }
    assert (Hfitall : forall segs, segs ∈ templates ->
              forallb (fit_segment prefix suffix) segs = true).
    { intros segs (i & Hi)%list_elem_of_lookup_1.
      destruct (Forall2_lookup_r _ _ _ _ _ Hall Hi) as (msg & _ & _ & ?). done. }
    assert (Hvars : forallb (fit_word prefix suffix) vars = true).
    { apply forallb_forall. intros v Hv%list_elem_of_In.
      apply Hin in Hv as (segs & Hsegs & Hv).
      apply (names_fit _ _ segs); [by apply Hfitall|done]. }
    assert (Hvals' : forall v, v ∈ vars ->
              fit_value prefix (default "" (variableValues !! v)) = true).
    { intros v (segs & Hsegs & Hv)%Hin.
      by apply (Hvals segs), andb_prop in Hv as [_ ?]. }
    unfold apiMessages. clearbody vars. clear Hall.
    induction Hall' as [|msg segs msgs' templates' [Hc Hsegs] _ IH]; [done|].
    rewrite fmap_cons. cbn [zip_with]. f_equal; [|exact IH]. f_equal.
    rewrite Hc, (substitute_template _ _ _ _ segs Hd (Hfitall _ Hsegs) Hvars Hvals').
    apply render_filled. intros v Hv. apply Hin. by exists segs.
Qed.

Lemma extracted_variables_witness :
  let msgs := [mkMessage "system-1" system "Be kind to {{name}}.";
               mkMessage "user-1" user (render "{{" "}}" greeting_template)] in
  exists vars,
    extractVariables msgs "{{" "}}" = Some vars /\
    apiMessages "{{" "}}" vars greeting_values msgs
    = [mkApiMessage system "Be kind to Ada.";
       mkApiMessage user "Dear Ada, your order #42 is ready, Ada"].
Proof.
  intros msgs.
  set (templates := [[Text "Be kind to "; Placeholder "" "name" ""; Text "."];
                     greeting_template]).
  assert (Hall : Forall2 (fun msg segs => content msg = render "{{" "}}" segs
                            /\ forallb (fit_segment "{{" "}}") segs = true)
                         msgs templates).
  { apply Forall2_cons; split; [by split|].
    apply Forall2_cons; split; [by split|apply Forall2_nil_2]. }
  assert (Hvals : forall segs name, segs ∈ templates -> name ∈ names segs ->
            usable_value "{{" greeting_values name = true).
  { intros segs name Hsegs Hname.
    assert (Hn : name ∈ ["name"; "order_id"]).
    { apply elem_of_cons in Hsegs as [->|Hsegs].
      - apply list_elem_of_singleton in Hname as ->. apply elem_of_cons. by left.
      - apply list_elem_of_singleton in Hsegs as ->.
        change (names greeting_template) with ["name"; "order_id"; "name"] in Hname.
        revert Hname. rewrite !elem_of_cons. tauto. }
    apply elem_of_cons in Hn as [->|Hn]; [vm_compute; reflexivity|].
    apply list_elem_of_singleton in Hn as ->. vm_compute. reflexivity. }
  destruct (extracted_variables_fill_every_placeholder "{{" "}}" greeting_values
              msgs templates eq_refl Hall Hvals) as (vars & Hvars & Hsent).
  exists vars. split; [exact Hvars|]. rewrite Hsent. vm_compute. reflexivity.
Defined.

Lemma replace_loop_empty fuel p v sfx val before :
  replace_loop fuel p v sfx val before "" = "".
Proof. by destruct fuel. Qed.

(** [X11] What the substitution never does: it keeps the number, the order
    and the roles of the messages; with an empty prefix, an empty suffix or
    no variable it sends every content as written; and whatever the
    variables and their values, a content that does not use the first
    character of the prefix is sent as written. *)
Theorem substitution_leaves_plain_text
    (prefix suffix : string) (variables : list string)
    (variableValues : gmap string string) (msgs : list Message) :
  api_role <$> apiMessages prefix suffix variables variableValues msgs = role <$> msgs /\
  (prefix = "" \/ suffix = "" \/ variables = [] ->
   api_content <$> apiMessages prefix suffix variables variableValues msgs
   = content <$> msgs) /\
  (forall text, avoids (first_char prefix) text = true ->
     substitute prefix suffix variables variableValues text = text).
Proof.
  split; [|split].
  - unfold apiMessages. rewrite <- list_fmap_compose. by apply list_fmap_ext.
  - intros Hempty. unfold apiMessages. rewrite <- list_fmap_compose.
    apply list_fmap_ext. intros i msg _. cbn. unfold substitute.
    destruct Hempty as [->|[->| ->]]; [done| |by destruct (_ && _)].
    by rewrite andb_false_r.
  - intros text Htext. unfold substitute.
    destruct prefix as [|p0 p']; [done|]. destruct suffix as [|s0 sfx']; [done|].
    cbn [JS.truthy andb]. cbn [first_char] in Htext.
    induction variables as [|v vars IH]; [done|]. cbn [foldl].
    unfold replace_variable at 2.
    rewrite <- (app_nil_s text) at 1 2.
    rewrite (replace_loop_text p0 s0 p' sfx' v _ text "" _ "" Htext (le_n _)).
    rewrite replace_loop_empty, app_nil_s. exact IH.
Qed.

Lemma substitution_plain_text_witness :
  avoids (first_char "{{") "No placeholder here." = true /\
  substitute "{{" "}}" ["name"; "order_id"] greeting_values "No placeholder here."
  = "No placeholder here.".
Proof.
  split; [reflexivity|].
  apply (proj2 (proj2 (substitution_leaves_plain_text "{{" "}}" ["name"; "order_id"]
                         greeting_values []))).
  reflexivity.
Defined.

End SubstitutionFacts.

(** ** The settings page *)

Module SettingsPageFacts.
Import Settings SettingsPage SettingsFacts.

Lemma normalize_from_clears index ps :
  normalize_from index true ps
  = (fun q => if is_default q then with_default q false else q) <$> ps.
Proof.
  revert index. induction ps as [|q ps IH]; intros index; [done|].
  cbn [normalize_from]. rewrite fmap_cons. destruct (is_default q); simpl; by rewrite IH.
Qed.

(** The closed form of [normalizeProviders]: the first provider ends up
    marked and no other does. *)
Lemma normalize_closed_form p ps :
  normalizeProviders (p :: ps)
  = (if is_default p then p else with_default p true)
    :: ((fun q => if is_default q then with_default q false else q) <$> ps).
Proof.
  unfold normalizeProviders. cbn [length Nat.eqb normalize_from].
  destruct (is_default p); simpl; by rewrite normalize_from_clears.
Qed.

Lemma with_default_same p : with_default p (is_default p) = p.
Proof. by destruct p. Qed.

Lemma normalize_ids ps : id <$> normalizeProviders ps = id <$> ps.
Proof.
  destruct ps as [|p ps]; [done|]. rewrite normalize_closed_form, !fmap_cons.
  f_equal; [by destruct (is_default p)|].
  rewrite <- list_fmap_compose. apply list_fmap_ext. intros i q _. simpl.
  by destruct (is_default q).
Qed.

Lemma normalize_flags_only ps :
  (fun p => with_default p false) <$> normalizeProviders ps
  = (fun p => with_default p false) <$> ps.
Proof.
  destruct ps as [|p ps]; [done|]. rewrite normalize_closed_form, !fmap_cons.
  f_equal; [by destruct (is_default p)|].
  rewrite <- list_fmap_compose. apply list_fmap_ext. intros i q _. simpl.
  by destruct (is_default q).
Qed.

Lemma normalize_idempotent ps :
  normalizeProviders (normalizeProviders ps) = normalizeProviders ps.
Proof.
  destruct ps as [|p ps]; [done|]. rewrite !normalize_closed_form.
  f_equal; [by destruct (is_default p) eqn:E; simpl; rewrite ?E|].
  rewrite <- list_fmap_compose. apply list_fmap_ext. intros i q _. simpl.
  by destruct (is_default q) eqn:E; simpl; rewrite ?E.
Qed.

Lemma default_count_clear ps :
  default_count ps = 0 ->
  (fun q => if is_default q then with_default q false else q) <$> ps = ps.
Proof.
  induction ps as [|q ps IH]; [done|]. rewrite default_count_cons, fmap_cons.
  destruct (is_default q) eqn:E; simpl; [lia|]. intros H. by rewrite IH.
Qed.

Lemma incomplete_spec p :
  incomplete p = false <->
  JS.trim (name p) ≠ "" /\ JS.trim (api_key p) ≠ "" /\ JS.trim (model p) ≠ "".
Proof.
  unfold incomplete.
  destruct (JS.trim (name p)), (JS.trim (api_key p)), (JS.trim (model p));
    simpl; split; try done; intros (? & ? & ?); done.
Qed.

Lemma incomplete_with_default p b : incomplete (with_default p b) = incomplete p.
Proof. done. Qed.

Lemma normalize_complete ps :
  existsb incomplete (normalizeProviders ps) = existsb incomplete ps.
Proof.
  destruct ps as [|p ps]; [done|]. rewrite normalize_closed_form. cbn [existsb].
  f_equal; [by destruct (is_default p)|].
  induction ps as [|q ps IH]; [done|]. rewrite fmap_cons. cbn [existsb].
  rewrite IH. f_equal. by destruct (is_default q).
Qed.

(** [X14] The form is refused exactly when some provider has a blank name,
    key or model, and then nothing is sent.  Otherwise the list sent has
    every name, key and model non-blank, differs from the list of the form
    in default marks only, has exactly one default, the first provider,
    unless the form is empty, and submitting it again sends the same list;
    a list whose first provider is its one default is sent as it is. *)
Theorem submit_sends_checked_list (providers : list LLMProvider) :
  (handleSubmit providers = None <->
   Exists (fun p => JS.trim (name p) = "" \/ JS.trim (api_key p) = ""
                    \/ JS.trim (model p) = "") providers) /\
  (forall sent, handleSubmit providers = Some sent ->
     Forall (fun p => JS.trim (name p) ≠ "" /\ JS.trim (api_key p) ≠ ""
                      /\ JS.trim (model p) ≠ "") sent /\
     (fun p => with_default p false) <$> sent
       = (fun p => with_default p false) <$> providers /\
     (providers ≠ [] ->
        default_count sent = 1 /\ is_default <$> head sent = Some true) /\
     handleSubmit sent = Some sent /\
     (default_count providers = 1 -> is_default <$> head providers = Some true ->
        sent = providers)).
Proof.
  unfold handleSubmit. split.
  - destruct (existsb incomplete providers) eqn:E.
    + split; [intros _|done]. apply existsb_exists in E as (p & Hin & Hp).
      apply Exists_exists. exists p. split; [by apply list_elem_of_In|].
      destruct (JS.trim (name p)) eqn:E1; [by left|].
      destruct (JS.trim (api_key p)) eqn:E2; [right; by left|].
      destruct (JS.trim (model p)) eqn:E3; [right; by right|].
      unfold incomplete in Hp. by rewrite E1, E2, E3 in Hp.
    + split; [done|]. intros (p & Hin & Hp)%Exists_exists. exfalso.
      assert (Hc : incomplete p = false).
      { destruct (incomplete p) eqn:Ep; [|done].
        assert (existsb incomplete providers = true); [|congruence].
        apply existsb_exists. exists p. split; [by apply list_elem_of_In|done]. }
      apply incomplete_spec in Hc as (? & ? & ?). tauto.
  - intros sent. destruct (existsb incomplete providers) eqn:E; [done|].
    intros [= <-]. split; [|split; [|split; [|split]]].
    + apply Forall_forall. intros p Hin. apply incomplete_spec.
      destruct (incomplete p) eqn:Ep; [|done].
      assert (existsb incomplete (normalizeProviders providers) = true).
      { apply existsb_exists. exists p. split; [by apply list_elem_of_In|done]. }
      rewrite normalize_complete in H. congruence.
    + apply normalize_flags_only.
    + intros Hne. split; [by apply normalize_exactly_one|].
      destruct providers as [|p ps]; [done|]. rewrite normalize_closed_form.
      simpl. by destruct (is_default p) eqn:Ep; simpl; rewrite ?Ep.
    + by rewrite normalize_complete, E, normalize_idempotent.
    + destruct providers as [|p ps]; [done|]. rewrite default_count_cons.
      simpl. intros Hc [= Hp]. rewrite Hp in Hc. rewrite normalize_closed_form, Hp.
      f_equal. apply default_count_clear. lia.
Qed.

Lemma submit_witness :
  exists sent,
    handleSubmit [local_model; qwen] = Some sent /\
    default_count sent = 1 /\ handleSubmit sent = Some sent.
Proof.
  exists [with_default local_model true; with_default qwen false].
  assert (E : handleSubmit [local_model; qwen]
              = Some [with_default local_model true; with_default qwen false])
    by (vm_compute; reflexivity).
  destruct (proj2 (submit_sends_checked_list [local_model; qwen]) _ E)
    as (_ & _ & Hone & Hagain & _).
  split; [exact E|]. split; [apply Hone; discriminate|exact Hagain].
Defined.

Lemma act_nonempty providers a : providers ≠ [] -> act providers a ≠ [].
Proof.
  intros Hne Hnil. apply (f_equal length) in Hnil. simpl in Hnil.
  assert (Hlen : length providers ≠ 0) by (by destruct providers).
  destruct a as [target|fresh target|fresh|target field value|saved]; cbn [act] in Hnil.
  - unfold handleSetDefault in Hnil. rewrite length_fmap in Hnil. lia.
  - unfold handleRemoveProvider in Hnil.
    destruct (filter _ providers) as [|q qs]; [done|]. cbn [length Nat.eqb] in Hnil.
    destruct (negb _); [|done]. rewrite imap_promote_first in Hnil. done.
  - unfold handleAddProvider in Hnil. rewrite length_app in Hnil. simpl in Hnil. lia.
  - unfold updateProviderField in Hnil. rewrite length_fmap in Hnil. lia.
  - unfold handleSubmit in Hnil. destruct (existsb incomplete providers); [lia|].
    destruct saved; [|lia].
    assert (length (normalizeProviders providers) = length providers); [|lia].
    by rewrite <- (length_fmap id), normalize_ids, length_fmap.
Qed.

(** [X12] Once the page has loaded, whatever is received and whatever the
    user does, the provider list is never empty. *)
Theorem providers_never_empty
    (result : option (list LLMProvider)) (fresh_id : string) (actions : list Action) :
  foldl act (fetchProviders result fresh_id) actions ≠ [].
Proof.
  assert (Hstart : fetchProviders result fresh_id ≠ []).
  { unfold fetchProviders. destruct result as [[|p ps]|]; done. }
  revert Hstart. generalize (fetchProviders result fresh_id).
  induction actions as [|a actions IH]; intros l Hl; [done|].
  cbn [foldl]. by apply IH, act_nonempty.
Qed.

Lemma update_ids target field value ps :
  id <$> updateProviderField target field value ps = id <$> ps.
Proof.
  unfold updateProviderField. rewrite <- list_fmap_compose. apply list_fmap_ext.
  intros i p _. simpl. case_bool_decide; [by destruct field|done].
Qed.

Lemma update_default_count target field value ps :
  default_count (updateProviderField target field value ps) = default_count ps.
Proof.
  unfold updateProviderField. induction ps as [|p ps IH]; [done|].
  rewrite fmap_cons, !default_count_cons, IH. f_equal.
  case_bool_decide; [by destruct field|done].
Qed.

Lemma set_default_ids target ps : id <$> handleSetDefault target ps = id <$> ps.
Proof.
  unfold handleSetDefault. rewrite <- list_fmap_compose. by apply list_fmap_ext.
Qed.

Lemma default_count_app ps qs :
  default_count (ps ++ qs) = default_count ps + default_count qs.
Proof. unfold default_count. by rewrite filter_app, length_app. Qed.

Lemma remove_ids fresh target ps :
  NoDup (id <$> ps) -> fresh ∉ (id <$> ps) ->
  NoDup (id <$> handleRemoveProvider fresh target ps).
Proof.
  intros Hnd _. unfold handleRemoveProvider.
  assert (Hf : NoDup (id <$> filter (fun p => id p ≠ target) ps)).
  { eapply sublist_NoDup; [exact Hnd|apply fmap_sublist, sublist_filter]. }
  destruct (filter _ ps) as [|q qs]; [apply NoDup_singleton|].
  cbn [length Nat.eqb]. destruct (negb _); [|done].
  by rewrite imap_promote_first.
Qed.

Lemma act_in_order providers a :
  in_order providers -> offered providers a -> in_order (act providers a).
Proof.
  intros [Hnd Hone] Hoff.
  destruct a as [target|fresh target|fresh|target field value|saved];
    cbn [act offered] in *.
  - split; [by rewrite set_default_ids|by apply set_default_exactly_one].
  - split; [by apply remove_ids|apply remove_exactly_one; lia].
  - unfold handleAddProvider. split.
    + rewrite fmap_app. apply NoDup_app. split; [done|].
      split; [|apply NoDup_singleton].
      intros x Hx ->%list_elem_of_singleton. done.
    + rewrite default_count_app, Hone. destruct providers as [|p ps]; [done|]. done.
  - split; [by rewrite update_ids|by rewrite update_default_count].
  - destruct (handleSubmit providers) as [normalized|] eqn:E; [|done].
    destruct saved; [|done]. unfold handleSubmit in E.
    destruct (existsb incomplete providers); [done|]. injection E as <-.
    split; [by rewrite normalize_ids|]. apply normalize_exactly_one.
    intros ->. done.
Qed.

(** [X13] A provider list with distinct identifiers and exactly one default
    keeps both properties under every action of the page, as long as the
    default is moved to a listed provider and the identifiers of new
    providers are new. *)
Theorem settings_page_keeps_one_default
    (providers : list LLMProvider) (actions : list Action) :
  in_order providers -> all_offered providers actions ->
  in_order (foldl act providers actions) /\
  (forall fresh_id, in_order (fetchProviders None fresh_id)).
Proof.
  intros Hin Hoff. split; [|intros fresh_id; split; [apply NoDup_singleton|done]].
  revert providers Hin Hoff. induction actions as [|a actions IH];
    intros providers Hin Hoff; [done|].
  cbn [foldl all_offered] in *. destruct Hoff as [Ha Hrest].
  apply IH; [by apply act_in_order|done].
Qed.

Lemma settings_page_witness :
  in_order [qwen; local_model] /\
  default_count
    (foldl act [qwen; local_model]
       [SetDefault "p-2"; AddProvider "p-3"; RemoveProvider "p-4" "p-2";
        UpdateField "p-3" f_name "Third"]) = 1.
Proof.
  assert (Hin : in_order [qwen; local_model]).
  { split; [|reflexivity].
    apply NoDup_cons; split; [by intros ?%list_elem_of_singleton|apply NoDup_singleton]. }
  split; [exact Hin|].
  refine (proj2 (proj1 (settings_page_keeps_one_default [qwen; local_model]
    [SetDefault "p-2"; AddProvider "p-3"; RemoveProvider "p-4" "p-2";
     UpdateField "p-3" f_name "Third"] Hin _))).
  cbn. repeat split.
  - apply elem_of_cons. right. apply elem_of_cons. by left.
  - intros H. repeat (apply elem_of_cons in H as [H|H]; [discriminate H|]).
    by apply elem_of_nil in H.
  - intros H. repeat (apply elem_of_cons in H as [H|H]; [discriminate H|]).
    by apply elem_of_nil in H.
Defined.

End SettingsPageFacts.

(** ** The other readers of the API service *)

Module ServiceFacts.
Import Api Service ApiFacts.

Lemma split_cut (c : string) :
  ends_with_LF c = true ->
  exists piece pieces,
    JS.split JS.LF c = (piece :: pieces) ++ [""] /\
    forall rest, JS.split JS.LF (c +:+ rest) = (piece :: pieces) ++ JS.split JS.LF rest.
Proof.
  induction c as [|x c IH]; [done|]. intros Hend.
  destruct c as [|y c].
  - cbn [ends_with_LF] in Hend. exists "", []. cbn [JS.split]. rewrite Hend.
    split; [done|]. intros rest. change (String x "" +:+ rest) with (String x rest).
    cbn [JS.split]. by rewrite Hend.
  - change (ends_with_LF (String x (String y c))) with (ends_with_LF (String y c)) in Hend.
    destruct (IH Hend) as (piece & pieces & Hsplit & Hcut).
    destruct (Ascii.eqb x JS.LF) eqn:Ex.
    + exists "", (piece :: pieces). split.
      * cbn [JS.split]. rewrite Ex. cbn [JS.split] in Hsplit. by rewrite Hsplit.
      * intros rest. change (String x (String y c) +:+ rest)
          with (String x (String y c +:+ rest)).
        cbn [JS.split]. rewrite Ex. cbn [JS.split] in Hcut. by rewrite Hcut.
    + exists (String x piece), pieces. split.
      * change (JS.split JS.LF (String x (String y c)))
          with (if Ascii.eqb x JS.LF then "" :: JS.split JS.LF (String y c)
                else match JS.split JS.LF (String y c) with
                     | p :: ps => String x p :: ps
                     | [] => [String x ""]
                     end).
        by rewrite Ex, Hsplit.
      * intros rest. change (String x (String y c) +:+ rest)
          with (String x (String y c +:+ rest)).
        change (JS.split JS.LF (String x (String y c +:+ rest)))
          with (if Ascii.eqb x JS.LF then "" :: JS.split JS.LF (String y c +:+ rest)
                else match JS.split JS.LF (String y c +:+ rest) with
                     | p :: ps => String x p :: ps
                     | [] => [String x ""]
                     end).
        by rewrite Ex, Hcut.
Qed.

Lemma split_no_LF a :
  Playground.all_chars (fun c => negb (Ascii.eqb c JS.LF)) a = true ->
  JS.split JS.LF a = [a] /\
  forall rest, JS.split JS.LF (a +:+ String JS.LF rest) = a :: JS.split JS.LF rest.
Proof.
  induction a as [|x a IH]; [done|]. cbn [Playground.all_chars].
  intros [Hx Ha]%andb_prop. apply negb_true_iff in Hx.
  destruct (IH Ha) as [H1 H2]. split.
  - cbn [JS.split]. by rewrite Hx, H1.
  - intros rest. change (String x a +:+ String JS.LF rest)
      with (String x (a +:+ String JS.LF rest)).
    cbn [JS.split]. by rewrite Hx, H2.
Qed.

Section Reader.

Variable parse : string -> option json.

Lemma delivered_empty : delivered parse "" = None.
Proof. reflexivity. Qed.

Lemma handleLine_optimize_same line :
  handleLine_optimize parse line = handleLine parse line.
Proof.
  unfold handleLine_optimize, handleLine.
  destruct (negb _); [done|]. destruct (JS.startsWith "data:" _); [done|].
  by destruct (JS.startsWith "event:error" _).
Qed.

Lemma forLines_optimize_same lines :
  forLines_optimize parse lines = forLines parse lines.
Proof.
  induction lines as [|line lines IH]; [done|].
  cbn [forLines_optimize forLines]. by rewrite handleLine_optimize_same, IH.
Qed.

Lemma readLoop_optimize_same chunks final :
  readLoop_optimize parse chunks final = readLoop parse chunks final.
Proof.
  induction chunks as [|chunk chunks IH]; [done|].
  cbn [readLoop_optimize readLoop]. by rewrite forLines_optimize_same, IH.
Qed.

Lemma optimize_same onComplete f :
  optimizePromptStream parse onComplete f = testPromptStream parse onComplete f.
Proof.
  unfold optimizePromptStream, testPromptStream. destruct f as [e|r]; [done|].
  unfold onResponse_optimize, onResponse. destruct (negb (ok r)); [done|].
  destruct (body r) as [b|]; [|done]. by rewrite readLoop_optimize_same.
Qed.

Lemma delivered_other line :
  JS.startsWith "data:" (JS.trim line) = false -> delivered parse line = None.
Proof. unfold delivered, after_colon. by intros ->. Qed.

(** [X15] [optimizePromptStream] makes the same calls as [testPromptStream]
    on every outcome of the request: the values of the [data:] lines in
    arrival order, then the closing call.  Its branch for error events does
    nothing: for an error event of the server, with a message on one line,
    the message is handed to [onData] like a chunk of text, the stream
    completes, and [onError] is not called. *)
Theorem optimize_stream_reads_like_test
    (onComplete : bool) (f : fetch_result) (statusText message : string) :
  Playground.all_chars (fun c => negb (Ascii.eqb c JS.LF)) message = true ->
  optimizePromptStream parse onComplete f = testPromptStream parse onComplete f /\
  calls (optimizePromptStream parse onComplete f)
  = (OnData <$> omap (delivered parse) (arrived_lines f)) ++ closing onComplete f /\
  calls (optimizePromptStream parse true
           (FetchResolved (mkResponse true statusText
              (Some (mkBody [error_event message] ReadDone)))))
  = (OnData <$> option_list (delivered parse ("data:" +:+ message))) ++ [OnComplete].
Proof.
  intros Hmsg. split; [apply optimize_same|]. rewrite !optimize_same.
  rewrite !testPromptStream_trace. split; [done|].
  cbn [calls fst arrived_lines ok body reads flat_map closing failure_of negb ending].
  rewrite app_nil_r. unfold error_event.
  destruct (split_no_LF "event:error" eq_refl) as [_ ->].
  assert (Hdata : Playground.all_chars (fun c => negb (Ascii.eqb c JS.LF))
                    ("data:" +:+ message) = true) by exact Hmsg.
  destruct (split_no_LF _ Hdata) as [_ ->].
  change (JS.split JS.LF (String JS.LF "")) with ["";""].
  cbn [omap list_omap]. rewrite (delivered_other "event:error" eq_refl), delivered_empty.
  by destruct (delivered parse ("data:" +:+ message)).
Qed.

Lemma omap_split_cut c rest :
  ends_with_LF c = true ->
  omap (delivered parse) (JS.split JS.LF (c +:+ rest))
  = omap (delivered parse) (JS.split JS.LF c)
    ++ omap (delivered parse) (JS.split JS.LF rest).
Proof.
  intros (piece & pieces & -> & Hcut)%split_cut. rewrite Hcut, !omap_app.
  cbn [omap list_omap]. rewrite delivered_empty. by rewrite app_nil_r.
Qed.

Lemma aligned_lines chunks :
  Forall (fun c => ends_with_LF c = true) chunks ->
  omap (delivered parse) (flat_map (JS.split JS.LF) chunks)
  = omap (delivered parse) (JS.split JS.LF (joined chunks)).
Proof.
  induction 1 as [|c chunks Hc _ IH]; [done|].
  cbn [flat_map joined foldr]. rewrite omap_app, IH.
  symmetry. by apply omap_split_cut.
Qed.

(** [X16] The reader splits every read on its own.  When every read ends
    with a line feed this does not show: the calls are those made for the
    whole text received in one read.  A read that ends inside a line cuts
    the line in two: the first part is handled as a line, and the second
    part, unless it starts with [data:] itself, is dropped. *)
Theorem reads_cut_at_line_ends (chunks : list string) (final : read_end)
    (a b : string) :
  Forall (fun c => ends_with_LF c = true) chunks ->
  Playground.all_chars (fun c => negb (Ascii.eqb c JS.LF)) a = true ->
  Playground.all_chars (fun c => negb (Ascii.eqb c JS.LF)) b = true ->
  JS.startsWith "data:" (JS.trim b) = false ->
  readLoop parse chunks final = readLoop parse [joined chunks] final /\
  calls (readLoop parse [a +:+ b +:+ String JS.LF ""] final)
  = OnData <$> option_list (delivered parse (a +:+ b)) /\
  calls (readLoop parse [a; b +:+ String JS.LF ""] final)
  = OnData <$> option_list (delivered parse a).
Proof.
  intros Hall Ha Hb Hdata. rewrite !readLoop_spec. split; [|split].
  - f_equal. f_equal. rewrite (aligned_lines _ Hall). cbn [flat_map].
    by rewrite app_nil_r.
  - cbn [calls fst flat_map]. rewrite app_nil_r.
    assert (Hab : Playground.all_chars (fun c => negb (Ascii.eqb c JS.LF)) (a +:+ b) = true).
    { by rewrite VariableFacts.all_chars_app, Ha, Hb. }
    rewrite <- VariableFacts.app_assoc_s.
    destruct (split_no_LF _ Hab) as [_ ->].
    change (JS.split JS.LF "") with [""]. cbn [omap list_omap]. rewrite delivered_empty.
    by destruct (delivered parse (a +:+ b)).
  - cbn [calls fst flat_map]. rewrite app_nil_r.
    destruct (split_no_LF _ Ha) as [-> _]. destruct (split_no_LF _ Hb) as [_ ->].
    change (JS.split JS.LF "") with [""]. cbn [app omap list_omap].
    rewrite (delivered_other b Hdata), delivered_empty.
    by destruct (delivered parse a).
Qed.

Variable to_boolean : json -> bool.
Variable to_text : json -> string.
Variable syntax_error : string -> js_error.
Variable type_error : js_error.

(** [X17] When the import is refused, [importData] fails with the message
    made of the status text, whatever the body of the response: the error
    built from the [error] member of the body is thrown inside the [try]
    block and replaced by its [catch] clause. *)
Theorem import_failure_message (r : ImportResponse) :
  i_ok r = false ->
  importData parse to_boolean to_text syntax_error type_error r
  = throw (Error ("Import failed: " +:+ i_statusText r)).
Proof.
  intros Hok. unfold importData. rewrite Hok. cbn [negb].
  destruct (parse (i_text r)) as [[]|]; reflexivity.
Qed.

End Reader.

Lemma optimize_stream_witness :
  calls (optimizePromptStream JSON_parse true
           (FetchResolved (mkResponse true "OK"
              (Some (mkBody [error_event "quota exceeded"] ReadDone)))))
  = [OnData (JString "quota exceeded"); OnComplete].
Proof.
  assert (Hmsg : Playground.all_chars (fun c => negb (Ascii.eqb c JS.LF))
                   "quota exceeded" = true) by reflexivity.
  destruct (optimize_stream_reads_like_test JSON_parse true sample_stream "OK"
              "quota exceeded" Hmsg) as (_ & _ & Hevent).
  rewrite Hevent. vm_compute. reflexivity.
Defined.

Lemma reads_cut_witness :
  calls (readLoop JSON_parse ["data:hel"; "lo" +:+ String JS.LF ""] ReadDone)
  = [OnData (JString "hel")] /\
  calls (readLoop JSON_parse ["data:hello" +:+ String JS.LF ""] ReadDone)
  = [OnData (JString "hello")].
Proof.
  assert (Hall : Forall (fun c => ends_with_LF c = true)
                   ["data:a" +:+ String JS.LF ""]).
  { apply Forall_cons; split; [reflexivity|apply Forall_nil_2]. }
  destruct (reads_cut_at_line_ends JSON_parse ["data:a" +:+ String JS.LF ""] ReadDone
              "data:hel" "lo" Hall eq_refl eq_refl eq_refl) as (_ & Hwhole & Hcut).
  split; [rewrite Hcut; vm_compute; reflexivity|].
  change ("data:hello" +:+ String JS.LF "") with ("data:hel" +:+ "lo" +:+ String JS.LF "").
  rewrite Hwhole. vm_compute. reflexivity.
Defined.

Lemma import_failure_witness :
  let body := "{" +:+ String quote "error" +:+ String quote ":"
              +:+ String quote "bad file" +:+ String quote "}" in
  JSON_parse body = Some (JObject [("error", JString "bad file")]) /\
  importData JSON_parse (fun _ => true) (fun _ => "bad file")
             (fun _ => mkError "SyntaxError" "") (mkError "TypeError" "")
             (mkImportResponse false "Bad Request" body)
  = throw (Error "Import failed: Bad Request").
Proof.
  intros body. split; [vm_compute; reflexivity|].
  exact (import_failure_message JSON_parse (fun _ => true) (fun _ => "bad file")
           (fun _ => mkError "SyntaxError" "") (mkError "TypeError" "")
           (mkImportResponse false "Bad Request" body) eq_refl).
Defined.

End ServiceFacts.

(** ** Request bodies and legacy settings *)

Module RequestsFacts.
Import Api Settings Requests.

Section Payload.

Variable number : Type.

Lemma lookup_put_string name v (m : gmap string (member number)) k :
  put_string name v m !! k
  = if decide (name = k)
    then (match kept v with Some x => Some x | None => m !! k end)
    else m !! k.
Proof.
  unfold put_string, kept. destruct v as [s|]; [|by destruct (decide _)].
  destruct (JS.truthy s); [|by destruct (decide _)].
  destruct (decide (name = k)) as [->|Hne]; [by rewrite lookup_insert_eq|].
  by rewrite lookup_insert_ne.
Qed.

Lemma lookup_put_number name v (m : gmap string (member number)) k :
  put_number name v m !! k
  = if decide (name = k)
    then (match v with Some n => Some (MNumber n) | None => m !! k end)
    else m !! k.
Proof.
  unfold put_number. destruct v as [n|]; [|by destruct (decide _)].
  destruct (decide (name = k)) as [->|Hne]; [by rewrite lookup_insert_eq|].
  by rewrite lookup_insert_ne.
Qed.

Lemma lookup_payload (o : LLMRequestOptions number) k :
  buildLLMPayload (Some o) !! k
  = if decide (k = "max_tokens") then MNumber <$> maxTokens o
    else if decide (k = "top_p") then MNumber <$> topP o
    else if decide (k = "temperature") then MNumber <$> temperature o
    else if decide (k = "model") then kept (o_model o)
    else if decide (k = "provider_id") then kept (providerId o)
    else None.
Proof.
  unfold buildLLMPayload.
  rewrite !lookup_put_number, !lookup_put_string, lookup_empty.
  repeat (destruct (decide (_ = k)) as [<-|?]; [by repeat case_match|]).
  repeat (destruct (decide (k = _)) as [->|?]; [done|]). done.
Qed.

(** [X18] Whatever the options, the body of a streaming test request
    holds the messages under [messages] and [true] under [stream]: the
    members of the payload never take their place.  The payload holds the
    provider identifier and the model when they are given and not empty, and
    the temperature, [top_p] and the token limit whenever they are numbers,
    zero included; the body has no other member. *)
Theorem stream_body_members
    (messages : list Substitution.ApiMessage)
    (options : option (LLMRequestOptions number)) :
  let body := stream_body messages options in
  body !! "messages" = Some (MMessages messages) /\
  body !! "stream" = Some (MBool true) /\
  body !! "provider_id" = options ≫= (fun o => kept (providerId o)) /\
  body !! "model" = options ≫= (fun o => kept (o_model o)) /\
  body !! "temperature" = options ≫= (fun o => MNumber <$> temperature o) /\
  body !! "top_p" = options ≫= (fun o => MNumber <$> topP o) /\
  body !! "max_tokens" = options ≫= (fun o => MNumber <$> maxTokens o) /\
  (forall k, is_Some (body !! k) ->
     k ∈ ["messages"; "stream"; "provider_id"; "model"; "temperature"; "top_p";
          "max_tokens"]).
Proof.
  intros body. subst body. unfold stream_body.
  assert (Hbase : forall k,
            (<["messages" := MMessages messages]>
               (<["stream" := MBool true]> ∅) : gmap string (member number)) !! k
            = if decide (k = "messages") then Some (MMessages messages)
              else if decide (k = "stream") then Some (MBool true) else None).
  { intros k. destruct (decide (k = "messages")) as [->|?]; [by rewrite lookup_insert_eq|].
    rewrite lookup_insert_ne; [|done].
    destruct (decide (k = "stream")) as [->|?]; [by rewrite lookup_insert_eq|].
    by rewrite lookup_insert_ne. }
  assert (Hall : forall k,
            (buildLLMPayload options
               ∪ <["messages" := MMessages messages]>
                   (<["stream" := MBool true]> ∅)) !! k
            = match options ≫= (fun o => buildLLMPayload (Some o) !! k) with
              | Some x => Some x
              | None => if decide (k = "messages") then Some (MMessages messages)
                        else if decide (k = "stream") then Some (MBool true)
                        else None
              end).
  { intros k. rewrite lookup_union, Hbase. destruct options as [o|]; simpl.
    - destruct (buildLLMPayload (Some o) !! k) eqn:E; by repeat case_match.
    - rewrite lookup_empty. by repeat case_match. }
  repeat split.
  1-7: rewrite Hall; destruct options as [o|];
    [cbn [mbind option_bind]; rewrite lookup_payload; by repeat case_match|done].
  intros k [x Hx]. rewrite Hall in Hx.
  destruct options as [o|]; cbn [mbind option_bind] in Hx.
  - rewrite lookup_payload in Hx.
    repeat (destruct (decide (k = _)) as [->|?]; [set_solver|]). done.
  - repeat (destruct (decide (k = _)) as [->|?]; [set_solver|]). done.
Qed.

End Payload.

Lemma stream_body_witness :
  let body := stream_body [] playground_options in
  body !! "provider_id" = None /\
  body !! "temperature" = Some (MNumber 0%Q) /\
  body !! "stream" = Some (MBool true).
Proof.
  intros body.
  destruct (stream_body_members Q [] playground_options)
    as (_ & Hstream & Hprovider & _ & Htemp & _).
  split; [exact Hprovider|]. split; [exact Htemp|exact Hstream].
Defined.

Lemma truthy_setting_or settings key c fallback :
  setting_or settings key (String c fallback) ≠ "".
Proof. unfold setting_or. by destruct (settings !! key) as [[|d v]|]. Qed.

Lemma setting_or_empty settings key :
  setting_or settings key "" = default "" (settings !! key).
Proof. unfold setting_or. by destruct (settings !! key) as [[|c v]|]. Qed.

(** [X19] The list built from the Aliyun settings is empty exactly when
    there is no key or the key is empty; otherwise it holds one provider,
    marked as default, with the key of the settings and with a non-empty
    identifier, name, address and model, whatever the other settings hold.
    Normalising it changes nothing.  The setting [llm_providers] takes
    precedence only when it parses to an array. *)
Theorem legacy_providers_in_order
    (parse : string -> option json) (settings : gmap string string) :
  let built := from_aliyun settings in
  (built = [] <-> default "" (settings !! "aliyun_api_key") = "") /\
  length built <= 1 /\
  Forall (fun p => is_default p = true /\ id p ≠ "" /\ name p ≠ ""
                   /\ Some (api_key p) = settings !! "aliyun_api_key"
                   /\ api_key p ≠ "" /\ api_url p ≠ Some "" /\ api_url p ≠ None
                   /\ model p ≠ "") built /\
  normalizeProviders built = built /\
  (built ≠ [] -> SettingsPage.in_order built) /\
  (forall items, buildLegacyProvidersFromSettings parse settings = Parsed items <->
     exists text, settings !! "llm_providers" = Some text /\ text ≠ ""
                  /\ parse text = Some (JArray items)) /\
  (forall l, buildLegacyProvidersFromSettings parse settings = Built l -> l = built).
Proof.
  intros built.
  assert (Hcases :
    (default "" (settings !! "aliyun_api_key") = "" /\ built = []) \/
    (exists p, built = [p] /\ default "" (settings !! "aliyun_api_key") ≠ ""
       /\ is_default p = true /\ id p ≠ "" /\ name p ≠ ""
       /\ Some (api_key p) = settings !! "aliyun_api_key"
       /\ api_key p ≠ "" /\ api_url p ≠ Some "" /\ api_url p ≠ None
       /\ model p ≠ "")).
  { subst built. unfold from_aliyun.
    rewrite (setting_or_empty settings "aliyun_api_key").
    destruct (settings !! "aliyun_api_key") as [[|c v]|] eqn:E;
      cbn [default from_option Datatypes.id JS.truthy negb]; [by left| |by left].
    right. eexists. split; [reflexivity|]. cbn.
    split; [done|]. split; [done|]. split; [apply truthy_setting_or|].
    split; [apply truthy_setting_or|]. split; [done|]. split; [done|].
    split; [|split; [done|apply truthy_setting_or]].
    intros [= H]. exact (truthy_setting_or _ _ _ _ H). }
  assert (Hlast : forall l,
            buildLegacyProvidersFromSettings parse settings = Built l -> l = built).
  { intros l. subst built. unfold buildLegacyProvidersFromSettings.
    rewrite (setting_or_empty settings "llm_providers").
    destruct (settings !! "llm_providers") as [[|c text]|];
      cbn [default from_option Datatypes.id JS.truthy].
    - by intros [= <-].
    - destruct (parse (String c text)) as [[]|]; intros H; try discriminate H;
        by injection H as <-.
    - by intros [= <-]. }
  clearbody built.
  split; [|split; [|split; [|split; [|split; [|split]]]]].
  - destruct Hcases as [[Hk ->]|(p & -> & Hk & _)]; split; done.
  - destruct Hcases as [[Hk ->]|(p & -> & Hk & _)]; simpl; lia.
  - destruct Hcases as [[Hk ->]|(p & -> & Hk & Hp)]; [apply Forall_nil_2|].
    apply Forall_cons; split; [exact Hp|apply Forall_nil_2].
  - destruct Hcases as [[Hk ->]|(p & -> & Hk & Hd & _)]; [done|].
    unfold normalizeProviders. simpl. by rewrite Hd.
  - destruct Hcases as [[Hk ->]|(p & -> & Hk & Hd & _)]; [done|].
    intros _. split; [apply NoDup_singleton|].
    unfold default_count. rewrite filter_cons. by destruct (decide _).
  - intros items. unfold buildLegacyProvidersFromSettings.
    rewrite (setting_or_empty settings "llm_providers").
    destruct (settings !! "llm_providers") as [[|c text]|] eqn:E;
      cbn [default from_option Datatypes.id JS.truthy].
    + split; [done|]. by intros (text & [= <-] & Hne & _).
    + split.
      * intros H. exists (String c text). split; [done|]. split; [done|].
        destruct (parse (String c text)) as [[]|]; try discriminate H.
        by injection H as ->.
      * intros (text' & [= <-] & _ & ->). done.
    + split; [done|]. by intros (text & [=] & _).
  - exact Hlast.
Qed.

Lemma legacy_providers_witness :
  buildLegacyProvidersFromSettings JSON_parse aliyun_settings
  = Built [mkLLMProvider "aliyun-default" "阿里云默认模型" "aliyun" "sk-legacy"
             (Some "https://dashscope.aliyuncs.com/compatible-mode/v1/chat/completions")
             "qwen-turbo" (Some "") true].
Proof.
  destruct (buildLegacyProvidersFromSettings JSON_parse aliyun_settings) as [items|l] eqn:E.
  - vm_compute in E. discriminate E.
  - destruct (legacy_providers_in_order JSON_parse aliyun_settings)
      as (_ & _ & _ & _ & _ & _ & Hbuilt).
    rewrite (Hbuilt l E). vm_compute. reflexivity.
Defined.

End RequestsFacts.

(** ** The playground page: the response buffer and the history list *)

Module PageFacts.
Import Playground Flow.

Lemma variables_effect_response s :
  response (variables_effect s) = response s /\
  responseRef (variables_effect s) = responseRef s /\
  histories (variables_effect s) = histories s /\
  selectedHistoryId (variables_effect s) = selectedHistoryId s /\
  responseQueue (variables_effect s) = responseQueue s.
Proof. unfold variables_effect. by destruct (extractVariables _ _ _). Qed.

Lemma joined_app a b : Service.joined (a ++ b) = Service.joined a +:+ Service.joined b.
Proof.
  induction a as [|x a IH]; [done|]. cbn [app Service.joined foldr].
  fold (Service.joined (a ++ b)). fold (Service.joined a).
  by rewrite IH, VariableFacts.app_assoc_s.
Qed.

Lemma joined_snoc a t : Service.joined (a ++ [t]) = Service.joined a +:+ t.
Proof. rewrite joined_app. cbn. by rewrite VariableFacts.app_nil_s. Qed.

(** The response that the queued updates lead to, and the buffer they
    leave. *)
Lemma run_updates_snoc acc queue u :
  foldl run_update acc (queue ++ [u]) = run_update (foldl run_update acc queue) u.
Proof. by rewrite foldl_app. Qed.

(** What the ticks of a running test keep true: the queued updates lead
    to a response and a buffer that both hold the chunks so far, and the
    buffer holds those whose updater has run. *)
Lemma ticks_invariant h ticks : forall w done held w1,
  foldl run_update (response (ui w), responseRef (ui w)) (responseQueue (ui w))
  = (Service.joined done, Service.joined done) ->
  responseRef (ui w) = Service.joined (take held done) ->
  held <= length done ->
  run w (tick_event h <$> ticks) = Some w1 ->
  foldl run_update (response (ui w1), responseRef (ui w1)) (responseQueue (ui w1))
  = (Service.joined (done ++ texts ticks), Service.joined (done ++ texts ticks)) /\
  responseRef (ui w1)
  = Service.joined (take (held_after (length done) held ticks) (done ++ texts ticks)) /\
  held_after (length done) held ticks <= length (done ++ texts ticks) /\
  live w1 = live w /\ next_handle w1 = next_handle w /\
  pending_saves w1 = pending_saves w /\ save_log w1 = save_log w /\
  loading (ui w1) = loading (ui w) /\ streamAbort (ui w1) = streamAbort (ui w) /\
  messages (ui w1) = messages (ui w) /\ id (ui w1) = id (ui w) /\
  variablePrefix (ui w1) = variablePrefix (ui w) /\
  variableSuffix (ui w1) = variableSuffix (ui w) /\
  histories (ui w1) = histories (ui w).
Proof.
  induction ticks as [|t ticks IH]; intros w done held w1 Hfold Href Hheld Hrun.
  - injection Hrun as <-. cbn [texts held_after]. rewrite app_nil_r. done.
  - rewrite fmap_cons in Hrun. cbn [run] in Hrun.
    destruct (step w (tick_event h t)) as [w2|] eqn:Hstep; [|done].
    destruct t as [text|text|]; cbn [tick_event step] in Hstep.
    + destruct (find_stream h w); [|done]. injection Hstep as <-.
      cbn [texts held_after].
      replace (done ++ text :: texts ticks) with ((done ++ [text]) ++ texts ticks)
        by (by rewrite <- app_assoc).
      replace (S (length done)) with (length (done ++ [text]))
        by (rewrite length_app; simpl; lia).
      apply (IH (with_ui (onData text (ui w)) w) (done ++ [text]) held w1).
      * cbn [ui with_ui onData response responseRef responseQueue set_responseQueue].
        rewrite run_updates_snoc, Hfold. cbn [run_update fst]. by rewrite joined_snoc.
      * cbn [ui with_ui onData responseRef set_responseQueue]. rewrite Href.
        by rewrite take_app_le.
      * rewrite length_app. simpl. lia.
      * exact Hrun.
    + destruct (find_stream h w); [|done].
      destruct (responseQueue (ui w)) eqn:Hq; [|done]. injection Hstep as <-.
      cbn [foldl] in Hfold. injection Hfold as Hresp _.
      cbn [texts held_after].
      replace (done ++ text :: texts ticks) with ((done ++ [text]) ++ texts ticks)
        by (by rewrite <- app_assoc).
      replace (S (length done)) with (length (done ++ [text]))
        by (rewrite length_app; simpl; lia).
      apply (IH (with_ui (onData_now text (ui w)) w) (done ++ [text])
                (length (done ++ [text])) w1).
      * cbn [ui with_ui onData_now response responseRef responseQueue
             set_responseQueue set_responseRef foldl run_update snd].
        by rewrite Hresp, joined_snoc.
      * cbn [ui with_ui onData_now responseRef set_responseRef].
        by rewrite firstn_all, Hresp, joined_snoc.
      * lia.
      * exact Hrun.
    + injection Hstep as <-. cbn [texts held_after].
      apply (IH (with_ui (rendered (ui w)) w) done (length done) w1).
      * unfold rendered. rewrite Hfold.
        cbn [ui with_ui response responseRef responseQueue set_responseQueue
             set_responseRef set_response foldl fst snd].
        by destruct (decide _).
      * unfold rendered. rewrite Hfold.
        cbn [ui with_ui responseRef set_responseQueue set_responseRef fst snd].
        rewrite firstn_all. by destruct (decide _).
      * lia.
      * exact Hrun.
Qed.

Lemma held_after_chunks ticks : forall seen held,
  Forall (fun t => is_chunk t = true) ticks -> held_after seen held ticks = held.
Proof.
  induction ticks as [|[text|text|] ticks IH]; intros seen held Hall; [done|..];
    apply Forall_cons in Hall as [Ht Hall]; try discriminate Ht.
  cbn [held_after]. by apply IH.
Qed.

Lemma run_chunks_only h ticks : forall w,
  Forall (fun t => is_chunk t = true) ticks ->
  is_Some (find_stream h w) ->
  exists w1, run w (tick_event h <$> ticks) = Some w1
             /\ response (ui w1) = response (ui w).
Proof.
  induction ticks as [|[text|text|] ticks IH]; intros w Hall Hlive.
  - by exists w.
  - apply Forall_cons in Hall as [_ Hall]. rewrite fmap_cons. cbn [run tick_event step].
    destruct Hlive as [st Hst]. rewrite Hst.
    destruct (IH (with_ui (onData text (ui w)) w) Hall) as (w1 & Hrun & Hresp);
      [by exists st|].
    exists w1. split; [exact Hrun|exact Hresp].
  - apply Forall_cons in Hall as [Ht _]. discriminate Ht.
  - apply Forall_cons in Hall as [Ht _]. discriminate Ht.
Qed.

Lemma handleTest_start now w :
  loading (ui w) = false ->
  providerLoading (ui w) = true \/ providers (ui w) ≠ [] ->
  handleTest now w
  = mkWorld (set_streamAbort (Some (next_handle w))
               (set_selectedHistoryId None
                  (set_responseRef "" (setResponse "" (set_loading true (ui w))))))
            (mkStream (next_handle w)
               (mkSnapshot (snapshot_messages now (messages (ui w)))
                  (variablePrefix (ui w)) (variableSuffix (ui w))) :: live w)
            (S (next_handle w)) (pending_saves w) (save_log w).
Proof.
  intros Hidle Hprov. unfold handleTest. rewrite Hidle.
  destruct Hprov as [->|Hne]; [done|].
  destruct (providers (ui w)); [done|]. by rewrite andb_false_r.
Qed.

(** [X20] The chunks of a test reach the response in the order of their
    arrival, but not at once.  From a page that has rendered its last
    update and can start a test, and for every way in which the arrival of
    the chunks and the renders follow one another: the buffer read at
    completion holds the chunks whose updater has run, which are those that
    arrived before the last render (or up to a chunk whose updater ran at
    once), and after the next render the response shown and the buffer both
    hold all the chunks joined.  As long as the page has not rendered, the
    buffer is empty and the response shown is the former one. *)
Theorem response_accumulates_chunks
    (w : World) (now : N) (ticks : list Tick) :
  loading (ui w) = false ->
  providerLoading (ui w) = true \/ providers (ui w) ≠ [] ->
  responseQueue (ui w) = [] ->
  let events := ClickTest now :: (tick_event (next_handle w) <$> ticks) in
  (forall w1, run w events = Some w1 ->
     responseRef (ui w1)
     = Service.joined (take (held_after 0 0 ticks) (texts ticks)) /\
     held_after 0 0 ticks <= length (texts ticks) /\
     response (rendered (ui w1)) = Service.joined (texts ticks) /\
     responseRef (rendered (ui w1)) = Service.joined (texts ticks) /\
     loading (ui w1) = true) /\
  (Forall (fun t => is_chunk t = true) ticks ->
     exists w1, run w events = Some w1
       /\ responseRef (ui w1) = "" /\ response (ui w1) = response (ui w)).
Proof.
  intros Hidle Hprov Hq events. subst events. cbn [run step].
  rewrite (handleTest_start now w Hidle Hprov).
  match goal with |- context [run ?start _] => set (w0 := start) end.
  assert (Hfold0 : foldl run_update (response (ui w0), responseRef (ui w0))
                     (responseQueue (ui w0))
                   = (Service.joined [], Service.joined [])).
  { unfold w0. cbn [ui response responseRef responseQueue set_streamAbort
                    set_selectedHistoryId set_responseRef setResponse set_responseQueue
                    set_loading]. by rewrite Hq. }
  split.
  - intros w1 Hrun.
    destruct (ticks_invariant (next_handle w) ticks w0 [] 0 w1 Hfold0 eq_refl
                (Nat.le_refl _) Hrun)
      as (Hfold & Href & Hle & _ & _ & _ & _ & Hload & _).
    cbn [app length] in *. split; [exact Href|]. split; [exact Hle|].
    unfold rendered. rewrite Hfold.
    cbn [response responseRef set_responseQueue set_responseRef set_response fst snd].
    split; [done|]. split; [by destruct (decide _)|exact Hload].
  - intros Hall.
    destruct (run_chunks_only (next_handle w) ticks w0 Hall) as (w1 & Hrun & Hresp).
    { unfold w0, find_stream. cbn [live List.find handle]. rewrite Nat.eqb_refl.
      by eexists. }
    exists w1. split; [exact Hrun|]. split; [|exact Hresp].
    destruct (ticks_invariant (next_handle w) ticks w0 [] 0 w1 Hfold0 eq_refl
                (Nat.le_refl _) Hrun) as (_ & Href & _).
    rewrite Href. cbn [length]. by rewrite (held_after_chunks ticks 0 0 Hall).
Qed.

Lemma response_accumulates_witness :
  exists w1,
    run (init_world (Some "p1"))
        [ClickTest 5; StreamData 0 "Hel"; Render; StreamData 0 "lo"] = Some w1 /\
    responseRef (ui w1) = "Hel" /\
    response (rendered (ui w1)) = "Hello".
Proof.
  eexists. split; [reflexivity|].
  destruct (proj1 (response_accumulates_chunks (init_world (Some "p1")) 5
                     [Chunk "Hel"; Paint; Chunk "lo"] eq_refl (or_introl eq_refl)
                     eq_refl) _ eq_refl)
    as (Href & _ & Hresp & _).
  split; [exact Href|exact Hresp].
Defined.

Lemma renamed_ids updated (l : list PromptTestHistory) :
  h_id <$> ((fun item => if bool_decide (h_id item = h_id updated) then updated else item)
              <$> l)
  = h_id <$> l.
Proof.
  rewrite <- list_fmap_compose. apply list_fmap_ext. intros i item _. simpl.
  by case_bool_decide.
Qed.

Lemma saved_ids_NoDup saved (l : list PromptTestHistory) :
  NoDup (h_id <$> l) -> NoDup (h_id <$> histories_after_save saved l).
Proof.
  intros Hnd. unfold histories_after_save.
  eapply sublist_NoDup;
    [|apply fmap_sublist, (sublist_take _ HISTORY_LIMIT)].
  rewrite fmap_cons. apply NoDup_cons. split.
  - intros (item & Heq & Hin)%list_elem_of_fmap.
    apply list_elem_of_filter in Hin as [Hne _]. by apply Hne.
  - eapply sublist_NoDup; [exact Hnd|apply fmap_sublist, sublist_filter].
Qed.

(** [X21] The history list never comes to show a record twice: if the
    identifiers in the list are distinct, and those of a list received from
    the server are, they are distinct after every event.  A saved record
    replaces the listed record of the same identifier, comes first and is
    the selected one; a deleted record is no longer listed, and the
    selection is dropped when it was on it; a renamed record keeps its
    place. *)
Theorem history_ids_stay_distinct (w : World) (e : Event) (w' : World) :
  step w e = Some w' ->
  NoDup (h_id <$> histories (ui w)) ->
  (forall data, e = HistoriesLoaded (Some data) -> NoDup (h_id <$> data)) ->
  NoDup (h_id <$> histories (ui w')) /\
  (forall saved, e = SaveResolved saved ->
     head (histories (ui w')) = Some saved /\
     selectedHistoryId (ui w') = Some (h_id saved)) /\
  (forall hid sel, e = HistoryDeleted hid sel ->
     (hid ∉ (h_id <$> histories (ui w'))) /\
     (sel = Some hid -> selectedHistoryId (ui w') = None)) /\
  (forall updated, e = HistoryRenamed updated ->
     h_id <$> histories (ui w') = h_id <$> histories (ui w)).
Proof.
  intros Hstep Hnd Hloaded. split; [|split; [|split]].
  - destruct e; cbn [step] in Hstep.
    + injection Hstep as <-. unfold handleTest.
      destruct (loading (ui w)); [exact Hnd|].
      destruct (negb _ && _); [exact Hnd|exact Hnd].
    + destruct (find_stream h w); [|done]. by injection Hstep as <-.
    + destruct (find_stream h w); [|done]. by injection Hstep as <-.
    + destruct (find_stream h w); [|done]. injection Hstep as <-.
      unfold onComplete. by destruct (persistHistory_request _ _ _).
    + destruct (pending_saves w); [done|]. injection Hstep as <-.
      by apply saved_ids_NoDup.
    + destruct (pending_saves w); [done|]. by injection Hstep as <-.
    + destruct (has_route_id (ui w)); [|done]. injection Hstep as <-.
      cbn. destruct data as [data|]; [by apply Hloaded|apply NoDup_nil_2].
    + destruct (has_route_id (ui w)); [|done]. by injection Hstep as <-.
    + destruct (bool_decide _); [|done]. injection Hstep as <-. cbn [ui with_ui].
      destruct (variables_effect_response (handleHistorySelect history now (ui w)))
        as (_ & _ & -> & _). exact Hnd.
    + by injection Hstep as <-.
    + injection Hstep as <-. cbn. by rewrite renamed_ids.
    + injection Hstep as <-. cbn [ui with_ui]. unfold historyDeleted.
      assert (NoDup (h_id <$> filter (fun item => h_id item ≠ hid) (histories (ui w)))).
      { eapply sublist_NoDup; [exact Hnd|apply fmap_sublist, sublist_filter]. }
      by destruct (bool_decide _).
    + injection Hstep as <-. cbn [ui with_ui].
      destruct (variables_effect_response (set_messages msgs (ui w))) as (_ & _ & -> & _).
      exact Hnd.
    + injection Hstep as <-. cbn [ui with_ui].
      destruct (variables_effect_response (set_variablePrefix p (ui w)))
        as (_ & _ & -> & _).
      exact Hnd.
    + injection Hstep as <-. cbn [ui with_ui].
      destruct (variables_effect_response (set_variableSuffix p (ui w)))
        as (_ & _ & -> & _).
      exact Hnd.
    + by injection Hstep as <-.
    + by injection Hstep as <-.
    + by injection Hstep as <-.
    + destruct (find_stream h w); [|done].
      destruct (responseQueue (ui w)); [|done]. by injection Hstep as <-.
  - intros saved ->. cbn [step] in Hstep.
    destruct (pending_saves w); [done|]. by injection Hstep as <-.
  - intros hid sel ->. cbn [step] in Hstep.
    injection Hstep as <-. cbn [ui with_ui]. unfold historyDeleted. split.
    + assert (Hout : hid ∉ (h_id <$> filter (fun item => h_id item ≠ hid)
                                       (histories (ui w)))).
      { intros (item & Heq & Hin)%list_elem_of_fmap.
        apply list_elem_of_filter in Hin as [Hne _]. by apply Hne. }
      by destruct (bool_decide _).
    + intros ->. by rewrite bool_decide_eq_true_2.
  - intros updated ->. cbn [step] in Hstep.
    injection Hstep as <-. cbn. by rewrite renamed_ids.
Qed.

Lemma history_ids_witness :
  let w := mkWorld (set_histories [numbered_history 2; earlier_session]
                      (initial (Some "p1"))) [] 0 1 [] in
  exists w',
    step w (SaveResolved earlier_session) = Some w' /\
    NoDup (h_id <$> histories (ui w')) /\
    histories (ui w') = [earlier_session; numbered_history 2].
Proof.
  intros w. eexists. split; [reflexivity|].
  assert (Hnd : NoDup (h_id <$> histories (ui w))).
  { apply NoDup_cons. split; [|apply NoDup_singleton].
    intros H%list_elem_of_singleton. vm_compute in H. discriminate H. }
  split; [|vm_compute; reflexivity].
  refine (proj1 (history_ids_stay_distinct w (SaveResolved earlier_session) _
                   eq_refl Hnd _)).
  intros data H. discriminate H.
Defined.

End PageFacts.

(** ** Choosing a provider; the request wrapper *)

Module ProvidersFacts.
Import Settings Providers SettingsFacts.

Lemma find_default_unique providers :
  default_count providers = 1 ->
  exists p, List.find is_default providers = Some p /\ p ∈ providers
            /\ is_default p = true
            /\ forall q, q ∈ providers -> is_default q = true -> q = p.
Proof.
  induction providers as [|a l IH]; [done|]. rewrite default_count_cons.
  cbn [List.find]. destruct (is_default a) eqn:Ea; simpl; intros Hc.
  - exists a. split; [done|]. split; [apply elem_of_cons; by left|]. split; [done|].
    intros q [->|Hq]%elem_of_cons Hd; [done|]. exfalso.
    assert (Hz : existsb is_default l = false) by (apply default_count_zero; lia).
    assert (existsb is_default l = true); [|congruence].
    apply existsb_exists. exists q. split; [by apply list_elem_of_In|done].
  - destruct (IH Hc) as (p & Hf & Hin & Hd & Huniq). exists p.
    split; [done|]. split; [apply elem_of_cons; by right|]. split; [done|].
    intros q [->|Hq]%elem_of_cons Hq'; [congruence|by apply Huniq].
Qed.

Lemma find_by_id providers p :
  NoDup (id <$> providers) -> p ∈ providers ->
  List.find (fun item => bool_decide (id item = id p)) providers = Some p.
Proof.
  induction providers as [|a l IH]; [by intros _ ?%elem_of_nil|].
  rewrite fmap_cons. intros [Ha Hnd]%NoDup_cons [->|Hin]%elem_of_cons; cbn [List.find].
  - by rewrite bool_decide_eq_true_2.
  - rewrite bool_decide_eq_false_2; [by apply IH|].
    intros Heq. apply Ha. rewrite Heq. apply list_elem_of_fmap. by exists p.
Qed.

(** [X22] For a provider list with distinct identifiers and exactly one
    default, the playground selects that default when the list arrives,
    with its model, and choosing the same provider by hand gives the same
    selection and model.  For any list that is not empty the provider
    selected is a listed one; for the list that the settings page sends it is
    the first. *)
Theorem loaded_provider_is_default
    (providers : list LLMProvider) (prev_model : string) :
  (SettingsPage.in_order providers ->
   exists p, p ∈ providers /\ is_default p = true
     /\ (forall q, q ∈ providers -> is_default q = true -> q = p)
     /\ loadProviders providers prev_model = (id p, model p)
     /\ forall other_model,
          handleProviderChange providers (id p) other_model = (id p, model p)) /\
  (providers ≠ [] ->
   exists p, p ∈ providers /\ loadProviders providers prev_model = (id p, model p)) /\
  (forall form, SettingsPage.handleSubmit form = Some providers ->
     loadProviders providers prev_model
     = match head providers with
       | Some p => (id p, model p)
       | None => ("", prev_model)
       end).
Proof.
  split; [|split].
  - intros [Hnd Hone].
    destruct (find_default_unique providers Hone) as (p & Hfind & Hin & Hd & Huniq).
    exists p. split; [done|]. split; [done|]. split; [done|]. split.
    + unfold loadProviders, defaultProvider. by rewrite Hfind.
    + intros other. unfold handleProviderChange. by rewrite (find_by_id _ _ Hnd Hin).
  - intros Hne. unfold loadProviders, defaultProvider.
    destruct (List.find is_default providers) as [p|] eqn:Ef.
    + exists p. split; [|done]. apply find_some in Ef as [Hin _].
      by apply list_elem_of_In.
    + destruct providers as [|p l]; [done|]. exists p.
      split; [apply elem_of_cons; by left|done].
  - intros form. unfold SettingsPage.handleSubmit.
    destruct (existsb _ form); [done|]. intros [= <-].
    destruct form as [|a l]; [done|].
    rewrite SettingsPageFacts.normalize_closed_form.
    unfold loadProviders, defaultProvider. cbn [List.find head].
    by destruct (is_default a) eqn:Ea; simpl; rewrite ?Ea.
Qed.

Lemma loaded_provider_witness :
  loadProviders [SettingsPage.local_model; SettingsPage.qwen] "gpt" = ("p-1", "qwen-turbo").
Proof.
  assert (Hin : SettingsPage.in_order [SettingsPage.local_model; SettingsPage.qwen]).
  { split; [|reflexivity].
    apply NoDup_cons; split; [by intros ?%list_elem_of_singleton|apply NoDup_singleton]. }
  destruct (proj1 (loaded_provider_is_default
                     [SettingsPage.local_model; SettingsPage.qwen] "gpt") Hin)
    as (p & Hp & Hd & _ & Hload & _).
  rewrite Hload.
  apply elem_of_cons in Hp as [->|Hp]; [discriminate Hd|].
  apply list_elem_of_singleton in Hp as ->. reflexivity.
Defined.

(** [X23] [request] never merges headers: when the options of a call hold
    headers, these are sent as they are, so the default content type is
    sent only if they repeat it; without headers in the options the content
    type alone is sent.  Every other option is passed on unchanged. *)
Theorem request_headers_not_merged (options : gmap string init_value) :
  (options !! "headers" = None ->
   request_init options !! "headers"
   = Some (IHeaders {[ "Content-Type" := "application/json" ]})) /\
  (forall given, options !! "headers" = Some given ->
     request_init options !! "headers" = Some given) /\
  (forall key, key ≠ "headers" -> request_init options !! key = options !! key).
Proof.
  unfold request_init. split; [|split].
  - intros Hnone. rewrite lookup_union_r; [|done].
    rewrite lookup_singleton_eq. unfold headers_of. rewrite Hnone.
    by rewrite (left_id_L ∅ (∪)).
  - intros given Hsome. by rewrite (lookup_union_Some_l _ _ _ _ Hsome).
  - intros key Hne. rewrite lookup_union, lookup_singleton_ne; [|done].
    by destruct (options !! key).
Qed.

Lemma request_headers_witness :
  request_init upload_options !! "headers" = Some (IHeaders {[ "Accept" := "text/csv" ]}).
Proof.
  apply (proj1 (proj2 (request_headers_not_merged upload_options))).
  reflexivity.
Defined.

End ProvidersFacts.

(** ** Replaying a saved test *)

Module ReplayFacts.
Import Playground Editing Substitution.

Lemma snapshot_fixed ts msgs :
  Forall (fun m => JS.truthy (msg_id m) = true) msgs -> snapshot_messages ts msgs = msgs.
Proof.
  intros Hids. unfold snapshot_messages. apply list_eq. intros i.
  rewrite list_lookup_imap. destruct (msgs !! i) as [m|] eqn:Hi; [|done]. simpl.
  rewrite Forall_forall in Hids. rewrite (Hids m); [done|].
  by eapply list_elem_of_lookup_2.
Qed.

Lemma snapshot_content ts msgs :
  content <$> snapshot_messages ts msgs = content <$> msgs.
Proof.
  unfold snapshot_messages. apply list_eq. intros i.
  rewrite !list_lookup_fmap, list_lookup_imap.
  destruct (msgs !! i) as [m|]; [|done]. simpl. by destruct (JS.truthy (msg_id m)).
Qed.

Lemma extract_by_content p s : forall a b vars,
  content <$> a = content <$> b ->
  foldl (extract_message p s) vars a = foldl (extract_message p s) vars b.
Proof.
  induction a as [|m a IH]; intros [|m' b] vars Heq; try done.
  rewrite !fmap_cons in Heq. injection Heq as Hc Hrest. cbn [foldl].
  unfold extract_message at 2 4. rewrite Hc. by apply IH.
Qed.

Lemma extractVariables_by_content a b p s :
  content <$> a = content <$> b -> extractVariables a p s = extractVariables b p s.
Proof.
  intros Heq. unfold extractVariables. destruct (_ || _); [done|].
  f_equal. by apply extract_by_content.
Qed.

Lemma apiMessages_unset p s vars vars' values msgs :
  p = "" \/ s = "" ->
  apiMessages p s vars values msgs = apiMessages p s vars' values msgs.
Proof.
  intros Hempty. unfold apiMessages. apply list_fmap_ext. intros i m _.
  f_equal. unfold substitute. destruct Hempty as [->| ->]; [done|].
  by rewrite andb_false_r.
Qed.

(** [X24] A test that is saved and replayed sends the same request again.
    The messages captured for the test, stored as written and put back by
    the selection of the record, are the captured messages; the variables
    extracted from them are those of the first run; so with the stored
    delimiters and values, the messages sent by a second test are those sent
    by the first, provided the variable list was up to date when the first
    test ran. *)
Theorem replay_sends_same_request
    (timestamp again now : N) (messages : list Message) (prefix suffix : string)
    (variables stale : list string) (variableValues : gmap string string) :
  messages ≠ [] ->
  (prefix ≠ "" -> suffix ≠ "" ->
     extractVariables messages prefix suffix = Some variables) ->
  let snap := snapshot_messages timestamp messages in
  let replayed := normalizeHistoryMessages now (to_history_message <$> snap) in
  let variables' := default stale (extractVariables replayed prefix suffix) in
  replayed = snap /\
  apiMessages prefix suffix variables' variableValues (snapshot_messages again replayed)
  = apiMessages prefix suffix variables variableValues snap.
Proof.
  intros Hne Hvars snap replayed variables'.
  assert (Hround : replayed = snap).
  { apply EditingFacts.normalize_history_round_trip; [|apply EditingFacts.snapshot_ids].
    unfold snap, snapshot_messages. by destruct messages. }
  split; [exact Hround|]. subst variables'. rewrite Hround.
  rewrite (snapshot_fixed again snap (EditingFacts.snapshot_ids _ _)).
  destruct (decide (prefix = "")) as [Hp|Hp]; [apply apiMessages_unset; by left|].
  destruct (decide (suffix = "")) as [Hs|Hs]; [apply apiMessages_unset; by right|].
  rewrite (extractVariables_by_content snap messages prefix suffix
             (snapshot_content _ _)).
  by rewrite (Hvars Hp Hs).
Qed.

Lemma replay_witness :
  let messages := [mkMessage "" user (render "{{" "}}" greeting_template)] in
  apiMessages "{{" "}}" ["name"; "order_id"] greeting_values
    (snapshot_messages 1800
       (normalizeHistoryMessages 9
          (to_history_message <$> snapshot_messages 1700 messages)))
  = [mkApiMessage user "Dear Ada, your order #42 is ready, Ada"].
Proof.
  intros messages.
  assert (Hvars : "{{" ≠ "" -> "}}" ≠ "" ->
            extractVariables messages "{{" "}}" = Some ["name"; "order_id"])
    by (intros _ _; vm_compute; reflexivity).
  destruct (replay_sends_same_request 1700 1800 9 messages "{{" "}}"
              ["name"; "order_id"] [] greeting_values ltac:(discriminate) Hvars)
    as [Hround Hsame].
  rewrite Hround in Hsame |- *.
  assert (Hx : extractVariables (snapshot_messages 1700 messages) "{{" "}}"
               = Some ["name"; "order_id"]) by (vm_compute; reflexivity).
  rewrite Hx in Hsame. cbn [default from_option Datatypes.id] in Hsame. rewrite Hsame.
  vm_compute. reflexivity.
Defined.

End ReplayFacts.

(** ** A test from the click to the end of its stream *)

Module FlowFacts.
Import Api Playground Flow.







Section Run.

Variable parse : string -> option json.
Variable to_text : json -> string.


End Run.


End FlowFacts.
